(** * Retrieval core of the RAG backend: chunker, hashing embedder, vector store

  A shallow embedding of
  - [services/document_processor.py]  ([DocumentProcessor.__init__], [_chunk_text],
    [_clean_text], [_process_pdf], [_process_docx], [_process_doc],
    [_process_txt], [process_documents_from_directory]),
  - [services/simple_embeddings.py]   ([_tokenize], [_build_vocabulary],
    [_text_to_embedding], [create_embeddings]),
  - [services/simple_vector_store.py] ([_load_existing_data], [add_documents],
    [search], the record of [_save_data], [is_empty], [get_document_count]),
  - [services/gemini_service.py]      ([_extract_relevant_sentences],
    [_extract_citations]).
  The libraries that read files (PyPDF2, python-docx, antiword), the FAISS
  store, the sentence-transformers embedder and the call of the Gemini API are
  not embedded; what the code reads from a file is an argument.

  Conventions.
  - A Python [str] is a list of characters, the code points below 256;
    indices and sizes are [Z], and slicing and [rfind] follow Python's rules
    for negative and out-of-range indices.
  - numpy scalars are idealised as real numbers: rounding, overflow,
    underflow and NaN are outside the model.  A one-dimensional numeric
    array is a [list R]; an array handed in by a caller may also be one that
    numpy cannot convert to float32.  Where a property is about the
    divisions themselves ([SearchArithmetic]), a division by 0 is an error of
    its own and [np.linalg.norm] is an arbitrary function, so that nothing
    rests on the exact norm.
  - A call that can raise returns an [outcome]; [try]/[except] is a match on it.
  - A [while] loop is run with fuel; that it makes no progress is stated as
    "no fuel is enough".
  - The draw of [np.random.normal] is an argument of the function that draws.
  - dictionaries that are only looked up are [gmap]s; a [Counter], whose
    iteration order is observable, is an association list in first-seen order. *)

From Stdlib Require Import ZArith List Ascii String Reals Lra Lia.
From Stdlib Require Import Sorting.Permutation Sorting.Sorted DecimalString DecimalNat.
From stdpp Require Import base gmap strings list.
Import ListNotations.

Open Scope Z_scope.

(** ** Python primitives *)

Module Py.

Abbreviation str := (list ascii).

Definition lit (s : string) : str := list_ascii_of_string s.

(** The exceptions that the modelled code raises or lets through. *)
Inductive exn : Type :=
| ValueError (msg : string)
| TypeError
| KeyError
| AttributeError
| OSError
| JSONDecodeError.

Inductive outcome (A : Type) : Type :=
| Returned (a : A)
| Raised (e : exn).
Arguments Returned {A} a.
Arguments Raised {A} e.

Definition len {A : Type} (l : list A) : Z := Z.of_nat (length l).

(** Index adjustment of a slice bound ([PySlice_AdjustIndices]). *)
Definition adjust (n i : Z) : Z :=
  if i <? 0 then Z.max 0 (i + n) else Z.min i n.

(** [l[start:stop]] *)
Definition slice {A : Type} (l : list A) (start stop : Z) : list A :=
  let s := adjust (len l) start in
  let e := adjust (len l) stop in
  firstn (Z.to_nat (e - s)) (skipn (Z.to_nat s) l).

(** [l[:stop]] *)
Definition slice_to {A : Type} (l : list A) (stop : Z) : list A :=
  slice l 0 stop.

(** Bounds of [str.rfind(sub, start, end)] ([ADJUST_INDICES]): [end] is
    clamped to the length, [start] is not. *)
Definition rfind_stop (n stop : Z) : Z :=
  if stop >? n then n else if stop <? 0 then Z.max 0 (stop + n) else stop.
Definition rfind_start (n start : Z) : Z :=
  if start <? 0 then Z.max 0 (start + n) else start.

(** Last position in [[s, e)] holding [ch], scanning from position [i];
    [best] is the result so far. *)
Fixpoint rfind_scan (l : str) (ch : ascii) (s e i best : Z) : Z :=
  match l with
  | [] => best
  | c :: l' =>
      rfind_scan l' ch s e (i + 1)
        (if (s <=? i) && (i <? e) && Ascii.eqb c ch then i else best)
  end.

(** [text.rfind(ch, start, stop)] for a one-character [ch]. *)
Definition rfind (text : str) (ch : ascii) (start stop : Z) : Z :=
  rfind_scan text ch (rfind_start (len text) start)
             (rfind_stop (len text) stop) 0 (-1).

(** [str.isspace] on a character below 256. *)
Definition isspace (c : ascii) : bool :=
  let n := Z.of_nat (nat_of_ascii c) in
  ((9 <=? n) && (n <=? 13)) || ((28 <=? n) && (n <=? 32))
  || (n =? 133) || (n =? 160).

Fixpoint lstrip (l : str) : str :=
  match l with
  | [] => []
  | c :: l' => if isspace c then lstrip l' else l
  end.

(** [s.strip()] *)
Definition strip (l : str) : str := rev (lstrip (rev (lstrip l))).

(** Truth value of a sequence. *)
Definition truthy {A : Type} (l : list A) : bool :=
  match l with [] => false | _ => true end.

(** Sequencing of calls that can raise: [x ← m; k] runs [k] when [m] returns
    and passes the exception on when [m] raises. *)
#[global] Instance outcome_bind : MBind outcome :=
  fun A B k m =>
    match m with
    | Returned a => k a
    | Raised e => Raised e
    end.

(** A comprehension or [for] loop whose body can raise: the first exception
    leaves the loop. *)
Fixpoint for_each {A B : Type} (f : A -> outcome B) (l : list A)
  : outcome (list B) :=
  match l with
  | [] => Returned []
  | a :: l' => b ← f a; bs ← for_each f l'; Returned (b :: bs)
  end.

(** Insertion step of a sort into descending order that keeps equal elements
    in their original order; [lt a b] is [key(a) < key(b)]. *)
Fixpoint insert_desc {A : Type} (lt : A -> A -> bool) (x : A) (l : list A)
  : list A :=
  match l with
  | [] => [x]
  | y :: l' => if lt x y then y :: insert_desc lt x l' else x :: l
  end.

(** [sorted(l, key=key, reverse=True)]: Python's sort is stable, also when
    reversed. *)
Fixpoint sorted_reverse {A : Type} (lt : A -> A -> bool) (l : list A) : list A :=
  match l with
  | [] => []
  | x :: l' => insert_desc lt x (sorted_reverse lt l')
  end.

End Py.
Import Py.

(** ** numpy, on one-dimensional arrays of reals *)

Module Np.

Abbreviation ndarray := (list R).

(** [np.zeros(n)] *)
Definition zeros (n : nat) : ndarray := replicate n 0%R.

(** [np.sum(v)] *)
Definition np_sum (v : ndarray) : R := fold_right Rplus 0%R v.

(** [np.linalg.norm(v)] *)
Definition norm (v : ndarray) : R := sqrt (np_sum (map (fun x => x * x)%R v)).

(** [v / d] *)
Definition scale_down (v : ndarray) (d : R) : ndarray := map (fun x => x / d)%R v.

(** [np.dot(a, b)]: numpy refuses shapes that are not aligned. *)
Definition np_dot (a b : ndarray) : outcome R :=
  if (length a =? length b)%nat
  then Returned (np_sum (zip_with Rmult a b))
  else Raised (ValueError "shapes not aligned").

(** An array as a caller hands it over: [Floats v] has numbers and converts
    to the float32 array [v]; [Unconvertible e] is an array that numpy
    refuses to convert with the exception [e], as it does for
    [np.array(['abc'])] and for [np.array([None])]. *)
Inductive array : Type :=
| Floats (v : ndarray)
| Unconvertible (e : exn).

(** [emb.astype(np.float32)] *)
Definition astype_float32 (emb : array) : outcome ndarray :=
  match emb with
  | Floats v => Returned v
  | Unconvertible e => Raised e
  end.

End Np.
Import Np.

(** ** [services/document_processor.py] *)

Module DocumentProcessor.

Record t : Type := mk { chunk_size : Z; chunk_overlap : Z }.

(** [__init__]: stores both numbers; there is no check and nothing is raised. *)
Definition __init__ (chunk_size chunk_overlap : Z) : outcome t :=
  Returned (mk chunk_size chunk_overlap).

(** The end of the window that starts at [start] (lines 269-281). *)
Definition chunk_end (self : t) (text : str) (start : Z) : Z :=
  let end_ := start + chunk_size self in
  if end_ <? len text then
    let sentence_end := rfind text "."%char start end_ in
    if sentence_end >? start + chunk_size self - 100 then sentence_end + 1
    else
      let space_pos := rfind text " "%char start end_ in
      if space_pos >? start then space_pos else end_
  else end_.

(** State of the [while] loop. *)
Record loop_state : Type := st { start : Z; chunks : list str }.

(** One pass through the loop body (lines 269-290): the state to continue
    with, or the state at the [break]. *)
Definition loop_body (self : t) (text : str) (s : loop_state)
  : loop_state + loop_state :=
  let end_ := chunk_end self text (start s) in
  let chunk := strip (slice text (start s) end_) in
  let chunks' := if truthy chunk then chunks s ++ [chunk] else chunks s in
  let start' := end_ - chunk_overlap self in
  if start' >=? len text then inr (st start' chunks')
  else inl (st start' chunks').

(** The [while start < len(text)] loop, run for at most [fuel] passes;
    [None] when the fuel is used up before the loop is left. *)
Fixpoint chunk_loop (fuel : nat) (self : t) (text : str) (s : loop_state)
  : option (list str) :=
  match fuel with
  | O => None
  | S fuel' =>
      if start s <? len text then
        match loop_body self text s with
        | inl s' => chunk_loop fuel' self text s'
        | inr s' => Some (chunks s')
        end
      else Some (chunks s)
  end.

Definition _chunk_text (fuel : nat) (self : t) (text : str) : option (list str) :=
  if len text <=? chunk_size self then Some [text]
  else chunk_loop fuel self text (st 0 []).

(** The loop state after at most [n] passes: the loop stops earlier at the
    [break] or when the [while] test fails. *)
Fixpoint run (n : nat) (self : t) (text : str) (s : loop_state) : loop_state :=
  match n with
  | O => s
  | S n' =>
      if start s <? len text then
        match loop_body self text s with
        | inl s' => run n' self text s'
        | inr s' => s'
        end
      else s
  end.

End DocumentProcessor.

(** ** [services/simple_embeddings.py] *)

Module SimpleEmbeddingService.

Definition embedding_dim : nat := 384.

Record t : Type := mk {
  vocabulary : gmap str nat;
  idf_values : gmap str R
}.

(** [__init__]: both dictionaries start empty. *)
Definition __init__ : t := mk ∅ ∅.

Definition code (c : ascii) : Z := Z.of_nat (nat_of_ascii c).

(** [str.lower] on a character below 256: [A-Z] and the capital letters of
    Latin-1 ([À-Þ] without [×]) move up by 32. *)
Definition lower (c : ascii) : ascii :=
  let n := code c in
  if ((65 <=? n) && (n <=? 90)) || ((192 <=? n) && (n <=? 222) && negb (n =? 215))
  then ascii_of_nat (nat_of_ascii c + 32)
  else c.

(** The class [\w] of [re] on a character below 256: letters, digits and
    numerics of Unicode, and the underscore. *)
Definition is_word (c : ascii) : bool :=
  let n := code c in
  ((48 <=? n) && (n <=? 57)) || ((65 <=? n) && (n <=? 90)) || (n =? 95)
  || ((97 <=? n) && (n <=? 122))
  || (n =? 170) || (n =? 178) || (n =? 179) || (n =? 181) || (n =? 185)
  || (n =? 186) || (n =? 188) || (n =? 189) || (n =? 190)
  || ((192 <=? n) && (n <=? 214)) || ((216 <=? n) && (n <=? 246))
  || (248 <=? n).

Definition flush (cur : str) : list str :=
  if truthy cur then [rev cur] else [].

(** [re.findall(r'\b\w+\b', text)], scanning left to right; [cur] is the
    run of word characters read so far, latest first. *)
Fixpoint findall_words (cur : str) (text : str) : list str :=
  match text with
  | [] => flush cur
  | c :: text' =>
      if is_word c then findall_words (c :: cur) text'
      else flush cur ++ findall_words [] text'
  end.

Definition _tokenize (text : str) : list str :=
  findall_words [] (map lower text).

(** [c[w] += 1] on a [Counter] kept in first-seen order. *)
Fixpoint counter_incr (w : str) (c : list (str * nat)) : list (str * nat) :=
  match c with
  | [] => [(w, 1%nat)]
  | (w', n) :: c' =>
      if decide (w = w') then (w', S n) :: c' else (w', n) :: counter_incr w c'
  end.

(** [Counter(words)] *)
Definition Counter (words : list str) : list (str * nat) :=
  fold_left (fun c w => counter_incr w c) words [].

Definition count_lt (a b : str * nat) : bool := (a.2 <? b.2)%nat.

(** [Counter.most_common(n)], that is [heapq.nlargest(n, items, key=count)],
    which is [sorted(items, key=count, reverse=True)[:n]]. *)
Definition most_common (n : nat) (c : list (str * nat)) : list (str * nat) :=
  take n (sorted_reverse count_lt c).

(** [enumerate(l)] *)
Definition enumerate {A : Type} (l : list A) : list (nat * A) :=
  imap (fun i x => (i, x)) l.

(** [{word: i for i, (word, _) in enumerate(most_common)}] *)
Definition index_words (ranked : list (str * nat)) : gmap str nat :=
  fold_left (fun m p => <[p.2.1 := p.1]> m) (enumerate ranked) ∅.

(** The words collected over all texts (lines 50-53). *)
Definition all_words (texts : list str) : list str :=
  concat (map _tokenize texts).

(** The document counts (lines 63-68): one increment per text and per
    distinct word of it. *)
Definition count_documents (texts : list str) : gmap str nat :=
  fold_left
    (fun m text =>
       fold_left (fun m w => <[w := S (default 0%nat (m !! w))]> m)
                 (remove_dups (_tokenize text)) m)
    texts ∅.

(** [np.log(doc_count / (word_doc_count.get(word, 1) + 1))] *)
Definition idf (doc_count : nat) (word_doc_count : gmap str nat) (word : str) : R :=
  ln (INR doc_count / INR (default 1%nat (word_doc_count !! word) + 1)).

Definition _build_vocabulary (self : t) (texts : list str) : t :=
  let word_counts := Counter (all_words texts) in
  let ranked := most_common (Nat.min 1000 (length word_counts)) word_counts in
  let vocabulary' := index_words ranked in
  let doc_count := length texts in
  let word_doc_count := count_documents texts in
  mk vocabulary'
     (map_imap (fun word _ => Some (idf doc_count word_doc_count word)) vocabulary'
      ∪ idf_values self).

(** The vector accumulated by the loop of lines 86-93. *)
Definition accumulate (self : t) (text : str) : ndarray :=
  let words := _tokenize text in
  fold_left
    (fun embedding item =>
       match vocabulary self !! item.1 with
       | Some i =>
           let idx := (i mod embedding_dim)%nat in
           let tf := if truthy words then (INR item.2 / INR (length words))%R else 0%R in
           let idf := default 1%R (idf_values self !! item.1) in
           alter (fun x => x + tf * idf)%R idx embedding
       | None => embedding
       end)
    (Counter words) (zeros embedding_dim).

(** [_text_to_embedding]; [noise] is the sample that
    [np.random.normal(0, 0.1, 384)] returns when it is called.  The final
    [astype(np.float32)] of an array of reals changes nothing. *)
Definition _text_to_embedding (self : t) (noise : ndarray) (text : str) : ndarray :=
  let embedding := accumulate self text in
  if Rlt_dec 0 (np_sum embedding) then scale_down embedding (norm embedding)
  else scale_down noise (norm noise).

(** [create_embeddings]: the vocabulary is built from [texts] when the
    service has none; [noise i] is the sample drawn while text [i] is embedded. *)
Definition create_embeddings (self : t) (noise : nat -> ndarray) (texts : list str)
  : t * list ndarray :=
  let self' := if decide (vocabulary self = ∅) then _build_vocabulary self texts
               else self in
  (self', imap (fun i text => _text_to_embedding self' (noise i) text) texts).

End SimpleEmbeddingService.

(** ** [services/simple_vector_store.py] *)

Module SimpleVectorStore.

(** A value decoded by [json.load]. *)
#[warnings="-register-all"]
Inductive json : Type :=
| JNull
| JBool (b : bool)
| JNum (x : R)
| JStr (s : str)
| JList (l : list json)
| JDict (m : gmap str json).

(** [Document] of [document_processor.py]; the fields hold whatever they are
    given, the dataclass checks no type. *)
Record Document : Type := mkDocument {
  content : json;
  source : json;
  chunk_id : json;
  metadata : json
}.

Record t : Type := mk {
  embedding_dim : Z;
  documents : list Document;
  embeddings : list ndarray
}.

(** What the load finds at [metadata_file]. *)
Inductive file : Type :=
| Missing
| Unreadable (e : exn)
| Content (data : json).

(** [data.get(key, [])] *)
Definition get_or_empty (data : json) (key : str) : outcome json :=
  match data with
  | JDict m => Returned (default (JList []) (m !! key))
  | _ => Raised AttributeError
  end.

(** [doc_data[key]] for a string [key] *)
Definition getitem (doc_data : json) (key : str) : outcome json :=
  match doc_data with
  | JDict m =>
      match m !! key with
      | Some v => Returned v
      | None => Raised KeyError
      end
  | _ => Raised TypeError
  end.

(** The elements that [for x in v] goes through. *)
Definition iterate (v : json) : outcome (list json) :=
  match v with
  | JList l => Returned l
  | JDict m => Returned (map (fun kv => JStr kv.1) (map_to_list m))
      (* the keys; their order plays no role below *)
  | JStr s => Returned (map (fun c => JStr [c]) s)
  | _ => Raised TypeError
  end.

(** [len(v)] *)
Definition py_len (v : json) : outcome Z :=
  match v with
  | JList l => Returned (len l)
  | JDict m => Returned (Z.of_nat (size m))
  | JStr s => Returned (len s)
  | _ => Raised TypeError
  end.

(** [bool(v)] *)
Definition py_bool (v : json) : bool :=
  match v with
  | JNull => false
  | JBool b => b
  | JNum x => if Req_dec_T x 0 then false else true
  | JStr s => truthy s
  | JList l => truthy l
  | JDict m => negb (bool_decide (m = ∅))
  end.

(** Lines 35-40 *)
Definition make_document (doc_data : json) : outcome Document :=
  c ← getitem doc_data (lit "content");
  s ← getitem doc_data (lit "source");
  i ← getitem doc_data (lit "chunk_id");
  m ← getitem doc_data (lit "metadata");
  Returned (mkDocument c s i m).

Definition cleared (self : t) : t := mk (embedding_dim self) [] [].

(** The body of the [try] of [_load_existing_data] (lines 28-51).
    [np_array emb] stands for [np.array(emb, dtype=np.float32)], which is
    numpy's and is left open. *)
Definition load_body (np_array : json -> outcome ndarray) (f : file) (self : t)
  : outcome t :=
  match f with
  | Missing => Returned self
  | Unreadable e => Raised e
  | Content data =>
      docs_data ← get_or_empty data (lit "documents");
      items ← iterate docs_data;
      docs ← for_each make_document items;
      embeddings_data ← get_or_empty data (lit "embeddings");
      if py_bool embeddings_data then
        n ← py_len embeddings_data;
        if n =? len docs then
          embs ← iterate embeddings_data;
          arrays ← for_each np_array embs;
          Returned (mk (embedding_dim self) docs arrays)
        else Returned (cleared self)
      else Returned (cleared self)
  end.

(** [_load_existing_data]: the handler of lines 53-56 empties both lists,
    whatever the body had assigned before it raised. *)
Definition _load_existing_data (np_array : json -> outcome ndarray) (f : file)
  (self : t) : t :=
  match load_body np_array f self with
  | Returned self' => self'
  | Raised _ => cleared self
  end.

Definition __init__ (np_array : json -> outcome ndarray) (f : file)
  (embedding_dim : Z) : t :=
  _load_existing_data np_array f (mk embedding_dim [] []).

(** [_save_data]: [written] is the outcome of building and writing the
    record (lines 136-152); the handler of lines 154-155 only logs. *)
Definition _save_data (written : outcome unit) (self : t) : outcome unit :=
  match written with
  | Returned _ => Returned tt
  | Raised _ => Returned tt
  end.

(** The error of line 67; the design calls it [DimensionMismatch]. *)
Definition DimensionMismatch : exn :=
  ValueError "Number of documents must match number of embeddings".

(** [add_documents]: the outcome of the call and the store after it.  Line
    71 assigns the documents before line 72 converts the arrays, and the
    handler of lines 79-81 logs and raises again. *)
Definition add_documents (written : outcome unit) (self : t)
  (docs : list Document) (embs : list array) : outcome unit * t :=
  if negb (len docs =? len embs) then (Raised DimensionMismatch, self)
  else
    let self1 := mk (embedding_dim self) docs (embeddings self) in
    match for_each astype_float32 embs with
    | Raised e => (Raised e, self1)
    | Returned arrays =>
        let self2 := mk (embedding_dim self) docs arrays in
        match _save_data written self2 with
        | Returned _ => (Returned tt, self2)
        | Raised e => (Raised e, self2)
        end
    end.

(** Lines 100-103 *)
Definition normalize_query (query_embedding : ndarray) : ndarray :=
  let query_norm := norm query_embedding in
  if Rlt_dec 0 query_norm then scale_down query_embedding query_norm
  else query_embedding.

(** Lines 109-114, for the query as it is after lines 100-103. *)
Definition similarity (query_embedding doc_embedding : ndarray) : outcome R :=
  let doc_norm := norm doc_embedding in
  if Rlt_dec 0 doc_norm then
    np_dot query_embedding (scale_down doc_embedding doc_norm)
  else Returned 0%R.

(** The loop of lines 106-115, from index [i] on. *)
Fixpoint similarities (query_embedding : ndarray) (i : nat) (embs : list ndarray)
  : outcome (list (R * nat)) :=
  match embs with
  | [] => Returned []
  | doc_embedding :: embs' =>
      s ← similarity query_embedding doc_embedding;
      rest ← similarities query_embedding (S i) embs';
      Returned ((s, i) :: rest)
  end.

Definition similarity_lt (a b : R * nat) : bool :=
  if Rlt_dec a.1 b.1 then true else false.

(** [similarities.sort(key=lambda x: x[0], reverse=True)] *)
Definition sort_by_similarity (l : list (R * nat)) : list (R * nat) :=
  sorted_reverse similarity_lt l.

(** Lines 121-124 *)
Definition collect (self : t) (top : list (R * nat)) : list Document :=
  omap (fun p => documents self !! p.2) top.

(** The body of the [try] of [search] (lines 99-127). *)
Definition search_body (self : t) (query_embedding : array) (top_k : Z)
  : outcome (list Document) :=
  query ← astype_float32 query_embedding;
  sims ← similarities (normalize_query query) 0 (embeddings self);
  Returned (collect self (slice_to (sort_by_similarity sims) top_k)).

Definition search (self : t) (query_embedding : array) (top_k : Z)
  : outcome (list Document) :=
  if negb (truthy (embeddings self)) then Returned []
  else
    match search_body self query_embedding top_k with
    | Returned results => Returned results
    | Raised _ => Returned []
    end.

Definition is_empty (self : t) : bool := len (documents self) =? 0.

Definition get_document_count (self : t) : Z := len (documents self).

End SimpleVectorStore.

(** ** [search], lines 99-115: the divisions made visible *)

Module SearchArithmetic.
Import SimpleVectorStore.

(** [v / d] of numpy with the divisor 0 told apart: there numpy gives [nan]
    and [inf] and a warning in place of numbers, which is [None] here. *)
Definition divide (v : ndarray) (d : R) : option ndarray :=
  if Req_dec_T d 0 then None else Some (scale_down v d).

Section Norm.

(** [np.linalg.norm] as numpy computes it, left open: on float32 the squares
    of small components underflow, so that the computed norm of a vector
    that is not zero can be 0.  Nothing is assumed of it. *)
Variable linalg_norm : ndarray -> R.

(** Lines 100-103; [None] when a division by 0 was made. *)
Definition normalize_query (query_embedding : ndarray) : option ndarray :=
  let query_norm := linalg_norm query_embedding in
  if Rlt_dec 0 query_norm then divide query_embedding query_norm
  else Some query_embedding.

(** Lines 109-114; [None] when a division by 0 was made, and otherwise the
    similarity or the exception of [np.dot]. *)
Definition similarity (query_embedding doc_embedding : ndarray)
  : option (outcome R) :=
  let doc_norm := linalg_norm doc_embedding in
  if Rlt_dec 0 doc_norm then
    normalized_doc ← divide doc_embedding doc_norm;
    Some (np_dot query_embedding normalized_doc)
  else Some (Returned 0%R).

(** The loop of lines 106-115, from index [i] on: an exception of [np.dot]
    leaves it, and no later embedding is looked at. *)
Fixpoint similarities (query_embedding : ndarray) (i : nat) (embs : list ndarray)
  : option (outcome (list (R * nat))) :=
  match embs with
  | [] => Some (Returned [])
  | doc_embedding :: embs' =>
      match similarity query_embedding doc_embedding with
      | None => None
      | Some (Raised e) => Some (Raised e)
      | Some (Returned s) =>
          match similarities query_embedding (S i) embs' with
          | None => None
          | Some (Raised e) => Some (Raised e)
          | Some (Returned rest) => Some (Returned ((s, i) :: rest))
          end
      end
  end.

End Norm.

End SearchArithmetic.

(** ** The substitutions of [_clean_text] *)

Module Re.

(** [re.sub(r'[class]+', rep, text)] for a class [p] of characters: every
    maximal run of characters of the class becomes [rep]; [in_run] says that
    the character before was of the class. *)
Fixpoint sub_runs (p : ascii -> bool) (rep : str) (in_run : bool) (text : str)
  : str :=
  match text with
  | [] => []
  | c :: text' =>
      if p c then (if in_run then [] else rep) ++ sub_runs p rep true text'
      else c :: sub_runs p rep false text'
  end.

(** [re.sub(r'[class]', rep, text)]: every character of the class becomes
    [rep]. *)
Definition sub_each (p : ascii -> bool) (rep : str) (text : str) : str :=
  flat_map (fun c => if p c then rep else [c]) text.

(** The class [\s] of [re] on a character below 256. *)
Definition is_space (c : ascii) : bool := isspace c.

(** [[^\x00-\x7F]] *)
Definition non_ascii (c : ascii) : bool := 128 <=? Z.of_nat (nat_of_ascii c).

(** The punctuation that line 235 keeps. *)
Definition kept_punctuation : str :=
  "034"%char :: lit ".,!?;:()[]{}'`-+=@#$%^&*".

Definition one_of (chars : str) (c : ascii) : bool :=
  existsb (Ascii.eqb c) chars.

(** The class of line 235: neither [\w] nor [\s] nor kept punctuation. *)
Definition garbled (c : ascii) : bool :=
  negb (SimpleEmbeddingService.is_word c || is_space c || one_of kept_punctuation c).

(** [re.sub(r'\n\s*\n', '\n', text)]: within a run of white space, what lies
    between its first and its last newline goes, the last newline included.
    [pending] is [None] outside such a run and otherwise holds, latest first,
    the white space read since the last newline. *)
Fixpoint sub_blank_lines (pending : option str) (text : str) : str :=
  match text with
  | [] => match pending with Some buf => rev buf | None => [] end
  | c :: text' =>
      match pending with
      | None =>
          if Ascii.eqb c "010" then c :: sub_blank_lines (Some []) text'
          else c :: sub_blank_lines None text'
      | Some buf =>
          if Ascii.eqb c "010" then sub_blank_lines (Some []) text'
          else if is_space c then sub_blank_lines (Some (c :: buf)) text'
          else rev buf ++ c :: sub_blank_lines None text'
      end
  end.

(** [re.sub(r'\s+([.,!?;:])', r'\1', text)]: a run of white space that stands
    before one of these marks goes; [buf] holds the run read so far, latest
    first. *)
Fixpoint sub_space_before_mark (buf : str) (text : str) : str :=
  match text with
  | [] => rev buf
  | c :: text' =>
      if is_space c then sub_space_before_mark (c :: buf) text'
      else if one_of (lit ".,!?;:") c then c :: sub_space_before_mark [] text'
      else rev buf ++ c :: sub_space_before_mark [] text'
  end.

Definition lower_ascii (c : ascii) : bool :=
  let n := Z.of_nat (nat_of_ascii c) in (97 <=? n) && (n <=? 122).

(** [re.sub(r'([.!?])\s*([a-z])', r'\1 \2', text)]: between a full stop,
    exclamation or question mark and a small letter there is exactly one
    space afterwards.  [pending] is [None], or holds the white space read
    since such a mark, latest first. *)
Fixpoint sub_space_after_sentence (pending : option str) (text : str) : str :=
  match text with
  | [] => match pending with Some buf => rev buf | None => [] end
  | c :: text' =>
      let flushed := match pending with Some buf => rev buf | None => [] end in
      match pending with
      | Some buf =>
          if is_space c then sub_space_after_sentence (Some (c :: buf)) text'
          else if lower_ascii c then
            " "%char :: c :: sub_space_after_sentence None text'
          else if one_of (lit ".!?") c then
            flushed ++ c :: sub_space_after_sentence (Some []) text'
          else flushed ++ c :: sub_space_after_sentence None text'
      | None =>
          if one_of (lit ".!?") c then
            c :: sub_space_after_sentence (Some []) text'
          else c :: sub_space_after_sentence None text'
      end
  end.

End Re.

(** ** [services/document_processor.py]: cleaning and the per-file wrappers *)

Module DocumentFiles.
Import SimpleVectorStore.

(** [_clean_text] (lines 231-250) *)
Definition _clean_text (text : str) : str :=
  let text := Re.sub_runs Re.is_space (lit " ") false text in
  let text := Re.sub_runs Re.non_ascii (lit " ") false text in
  let text := Re.sub_each Re.garbled (lit " ") text in
  let text := Re.sub_runs Re.is_space (lit " ") false text in
  let text := Re.sub_blank_lines None text in
  let text := strip text in
  let text := Re.sub_space_before_mark [] text in
  Re.sub_space_after_sentence None text.

(** [str(i)] for a natural number: its decimal digits. *)
Definition str_of_nat (i : nat) : str :=
  lit (NilEmpty.string_of_uint (Nat.to_uint i)).

(** [os.path.basename(p)], that is [p[p.rfind('/') + 1:]]. *)
Definition basename (p : str) : str :=
  slice p (rfind p "/"%char 0 (len p) + 1) (len p).

(** [os.path.join(a, b)] *)
Definition path_join (a b : str) : str :=
  match b with
  | "/"%char :: _ => b
  | _ =>
      if negb (truthy a) || bool_decide (last a = Some "/"%char) then a ++ b
      else a ++ "/"%char :: b
  end.

(** The loop that every [_process_*] ends with (lines 87-99, 125-137,
    163-175, 199-211): one [Document] per chunk. *)
Definition make_documents (file_type file_path : str) (chunks : list str)
  : list Document :=
  let filename := basename file_path in
  imap (fun i chunk =>
          mkDocument (JStr chunk) (JStr filename)
            (JStr (filename ++ lit "_chunk_" ++ str_of_nat i))
            (JDict {[ lit "file_type" := JStr file_type;
                      lit "file_path" := JStr file_path;
                      lit "chunk_index" := JNum (INR i);
                      lit "total_chunks" := JNum (INR (length chunks)) ]}))
       chunks.

(** Cleaning, chunking and wrapping of an extracted text that is not blank
    (lines 82-99 and their three copies); [None] when the chunking loop is
    not left within [fuel] passes. *)
Definition documents_of_text (fuel : nat) (self : DocumentProcessor.t)
  (file_type file_path text : str) : option (list Document) :=
  if truthy (strip text) then
    match DocumentProcessor._chunk_text fuel self (_clean_text text) with
    | Some chunks => Some (make_documents file_type file_path chunks)
    | None => None
    end
  else Some [].

(** The text that [_process_pdf] gathers (lines 72-80): a page whose
    extraction raises is skipped, and so is a page without text. *)
Fixpoint pdf_text (pages : list (outcome str)) : str :=
  match pages with
  | [] => []
  | Returned page_text :: pages' =>
      (if truthy page_text then page_text ++ ["010"%char] else []) ++ pdf_text pages'
  | Raised _ :: pages' => pdf_text pages'
  end.

(** [_process_pdf]; [reader] is what opening the file and reading its pages
    gives: an exception, or for each page its text or an exception. *)
Definition _process_pdf (fuel : nat) (self : DocumentProcessor.t)
  (reader : outcome (list (outcome str))) (file_path : str)
  : option (list Document) :=
  match reader with
  | Returned pages => documents_of_text fuel self (lit "pdf") file_path (pdf_text pages)
  | Raised _ => Some []
  end.

(** The text that [_process_docx] gathers (lines 116-118). *)
Definition docx_text (paragraphs : list str) : str :=
  flat_map (fun p => if truthy (strip p) then p ++ ["010"%char] else []) paragraphs.

Definition _process_docx (fuel : nat) (self : DocumentProcessor.t)
  (paragraphs : outcome (list str)) (file_path : str) : option (list Document) :=
  match paragraphs with
  | Returned ps => documents_of_text fuel self (lit "docx") file_path (docx_text ps)
  | Raised _ => Some []
  end.

(** [_process_doc]; [antiword] is the return code and the standard output of
    the subprocess, or the exception of starting it. *)
Definition _process_doc (fuel : nat) (self : DocumentProcessor.t)
  (antiword : outcome (Z * str)) (file_path : str) : option (list Document) :=
  match antiword with
  | Returned (returncode, stdout) =>
      if returncode =? 0 then documents_of_text fuel self (lit "doc") file_path stdout
      else Some []
  | Raised _ => Some []
  end.

(** [_process_txt]; [read] is the content of the file or the exception of
    reading it. *)
Definition _process_txt (fuel : nat) (self : DocumentProcessor.t)
  (read : outcome str) (file_path : str) : option (list Document) :=
  match read with
  | Returned text => documents_of_text fuel self (lit "txt") file_path text
  | Raised _ => Some []
  end.

(** [s.endswith(suffix)] *)
Definition endswith (s suffix : str) : bool :=
  bool_decide (drop (length s - length suffix) s = suffix).

(** What the code reads from the file system, by path. *)
Record files : Type := mk_files {
  pdf_at : str -> outcome (list (outcome str));
  docx_at : str -> outcome (list str);
  doc_at : str -> outcome (Z * str);
  txt_at : str -> outcome str
}.

(** The branch of lines 47-60 for one file name. *)
Definition process_file (fuel : nat) (self : DocumentProcessor.t) (fs : files)
  (directory filename : str) : option (list Document) :=
  let file_path := path_join directory filename in
  let name := map SimpleEmbeddingService.lower filename in
  if endswith name (lit ".pdf") then
    _process_pdf fuel self (pdf_at fs file_path) file_path
  else if endswith name (lit ".docx") then
    _process_docx fuel self (docx_at fs file_path) file_path
  else if endswith name (lit ".doc") then
    _process_doc fuel self (doc_at fs file_path) file_path
  else if endswith name (lit ".txt") then
    _process_txt fuel self (txt_at fs file_path) file_path
  else Some [].

(** The loop of lines 44-60 over the names that [os.listdir] gave. *)
Fixpoint process_files (fuel : nat) (self : DocumentProcessor.t) (fs : files)
  (directory : str) (filenames : list str) : option (list Document) :=
  match filenames with
  | [] => Some []
  | filename :: rest =>
      match process_file fuel self fs directory filename with
      | Some docs =>
          match process_files fuel self fs directory rest with
          | Some more => Some (docs ++ more)
          | None => None
          end
      | None => None
      end
  end.

(** [process_documents_from_directory]; [listing] is [None] when the
    directory does not exist and otherwise what [os.listdir] gives.  A path
    that exists and cannot be listed makes [os.listdir] raise outside every
    [try]; that case is not modelled. *)
Definition process_documents_from_directory (fuel : nat)
  (self : DocumentProcessor.t) (fs : files) (directory : str)
  (listing : option (list str)) : option (list Document) :=
  match listing with
  | None => Some []
  | Some filenames => process_files fuel self fs directory filenames
  end.

End DocumentFiles.

(** ** [services/simple_vector_store.py]: the record that is persisted *)

Module Persistence.
Import SimpleVectorStore.

(** The entry of one document (lines 138-143). *)
Definition document_record (doc : Document) : json :=
  JDict {[ lit "content" := content doc;
           lit "source" := source doc;
           lit "chunk_id" := chunk_id doc;
           lit "metadata" := metadata doc ]}.

(** [emb.tolist()] *)
Definition tolist (emb : ndarray) : json := JList (JNum <$> emb).

(** The [data] that [_save_data] builds and writes (lines 136-147). *)
Definition snapshot (self : t) : json :=
  JDict {[ lit "documents" := JList (document_record <$> documents self);
           lit "embeddings" := JList (tolist <$> embeddings self) ]}.

End Persistence.

(** ** [services/gemini_service.py]: the citations *)

Module GeminiService.

(** [Citation] of [models/schemas.py] *)
Record Citation : Type := mkCitation { text : str; source : str }.

(** [re.split(r'[.!?]+', text)]: the pieces between the maximal runs of
    full stops, exclamation and question marks; [cur] is the piece read so
    far, latest first, and [in_run] says that the character before was one
    of the three. *)
Fixpoint split_stops (cur : str) (in_run : bool) (text : str) : list str :=
  match text with
  | [] => [rev cur]
  | c :: text' =>
      if Re.one_of (lit ".!?") c then
        if in_run then split_stops [] true text'
        else rev cur :: split_stops [] true text'
      else split_stops (c :: cur) false text'
  end.

(** [_extract_relevant_sentences] (lines 136-153) *)
Definition _extract_relevant_sentences (text : str) : list str :=
  slice_to
    (flat_map
       (fun piece =>
          let sentence := strip piece in
          if len sentence >? 30
          then [Re.sub_runs Re.is_space (lit " ") false sentence]
          else [])
       (split_stops [] false text))
    3.

(** [doc.content] as [re.split] takes it: anything but a string is refused. *)
Definition as_text (v : SimpleVectorStore.json) : outcome str :=
  match v with
  | SimpleVectorStore.JStr s => Returned s
  | _ => Raised TypeError
  end.

(** The inner loop of [_extract_citations] (lines 106-117) for the sentences
    of one document.  [validate] stands for the check that pydantic makes of
    the [source] field when a [Citation] is built, and is left open. *)
Fixpoint cite_sentences (validate : SimpleVectorStore.json -> outcome str)
  (doc_source : SimpleVectorStore.json) (sentences : list str)
  (citations : list Citation) : outcome (list Citation) :=
  match sentences with
  | [] => Returned citations
  | sentence :: rest =>
      if len (strip sentence) >? 20 then
        checked ← validate doc_source;
        let citations' := citations ++ [mkCitation (strip sentence) checked] in
        if len citations' >=? 6 then Returned citations'
        else cite_sentences validate doc_source rest citations'
      else cite_sentences validate doc_source rest citations
  end.

(** The outer loop (lines 102-120). *)
Fixpoint cite_documents (validate : SimpleVectorStore.json -> outcome str)
  (documents : list SimpleVectorStore.Document) (citations : list Citation)
  : outcome (list Citation) :=
  match documents with
  | [] => Returned citations
  | doc :: rest =>
      content ← as_text (SimpleVectorStore.content doc);
      citations' ← cite_sentences validate (SimpleVectorStore.source doc)
                     (_extract_relevant_sentences content) citations;
      if len citations' >=? 6 then Returned citations'
      else cite_documents validate rest citations'
  end.

(** Lines 122-129: the first citation of every text, in order; [seen] holds
    the texts met so far. *)
Fixpoint unique_citations (seen : list str) (citations : list Citation)
  : list Citation :=
  match citations with
  | [] => []
  | citation :: rest =>
      if decide (text citation ∈ seen) then unique_citations seen rest
      else citation :: unique_citations (text citation :: seen) rest
  end.

(** [_extract_citations]; the answer plays no role. *)
Definition _extract_citations (validate : SimpleVectorStore.json -> outcome str)
  (documents : list SimpleVectorStore.Document) (answer : str) : list Citation :=
  match cite_documents validate documents [] with
  | Returned citations => slice_to (unique_citations [] citations) 4
  | Raised _ => []
  end.

End GeminiService.

(** * Statements

    The predicates and the sample inputs that the properties below are
    stated with. *)

(** ** Order of a ranking *)

Module RankSpec.

(** [a] may stand before [b] in a descending stable sort: its key is
    greater, or it is not smaller and [a] came first. *)
Definition ranks {A : Type} (lt : A -> A -> bool) (before : A -> A -> Prop)
  (a b : A) : Prop :=
  lt b a = true \/ (lt a b = false /\ before a b).

End RankSpec.

Module ChunkerSpec.
Import DocumentProcessor.

(** A chunk that respects the configured size. *)
Definition bounded (self : t) (chunk : str) : Prop := len chunk <= chunk_size self.

(** What the loop keeps true of its state. *)
Definition loop_inv (self : t) (s : loop_state) : Prop :=
  -1 - chunk_overlap self <= start s /\ Forall (bounded self) (chunks s).

(** The default configuration and a text on which it makes no progress: 200
    letters, one space, 1000 letters.  The window [0, 1000) holds no full
    stop, its last space is at 200, and 200 - 200 is 0 again. *)
Definition default : t := mk 1000 200.
Definition stuck_text : str :=
  repeat "b"%char 200 ++ lit " " ++ repeat "b"%char 1000.

(** What holds of the chunker for a text and a configuration. *)
Definition chunker_ok (text : str) (cs ov : Z) : Prop :=
  (forall cs' ov', __init__ cs' ov' = Returned (mk cs' ov'))
  /\ (len text <= cs -> forall fuel, _chunk_text fuel (mk cs ov) text = Some [text])
  /\ (cs < len text -> forall n,
      Forall (bounded (mk cs ov)) (chunks (run n (mk cs ov) text (st 0 []))))
  /\ (forall fuel r, _chunk_text fuel (mk cs ov) text = Some r ->
      Forall (bounded (mk cs ov)) r).

Definition sample_text : str :=
  lit "Hello world. This is a test. Another sentence here. End of it all now.".

End ChunkerSpec.

Module EmbedderSpec.
Import SimpleEmbeddingService.

(** Two samples of the noise, as [np.random.normal] may return them on two
    runs. *)
Definition noise_a : ndarray := 1%R :: zeros 383.
Definition noise_b : ndarray := 0%R :: 1%R :: zeros 382.

(** A service whose vocabulary was built from three one-word texts, and one
    whose vocabulary was built from a single one-word text. *)
Definition three_texts : t := _build_vocabulary __init__ [lit "a"; lit "b"; lit "c"].
Definition one_text : t := _build_vocabulary __init__ [lit "a"].

(** How often [w] occurs among [words], and among the tokens of all texts. *)
Definition occurrences (words : list str) (w : str) : nat :=
  length (filter (fun x => x = w) words).




End EmbedderSpec.

Module StoreSpec.
Import SimpleVectorStore.

(** The store holds parallel sequences: it is the unzipping of a list of
    (document, embedding) pairs, position by position. *)
Definition aligned (self : t) : Prop :=
  exists pairs : list (Document * ndarray),
    documents self = pairs.*1 /\ embeddings self = pairs.*2.

(** The stores that construction, loading and [add_documents] lead to,
    whatever is on disk, whatever numpy answers, whether the write of the
    snapshot works and whether the call returns or raises. *)
Inductive reachable : t -> Prop :=
| reach_init np_array f dim :
    reachable (__init__ np_array f dim)
| reach_load np_array f self :
    reachable self -> reachable (_load_existing_data np_array f self)
| reach_add written self docs embs :
    reachable self -> reachable (add_documents written self docs embs).2.

(** The same, when every array handed to [add_documents] is numeric. *)
Inductive reachable_numeric : t -> Prop :=
| numeric_init np_array f dim :
    reachable_numeric (__init__ np_array f dim)
| numeric_load np_array f self :
    reachable_numeric self ->
    reachable_numeric (_load_existing_data np_array f self)
| numeric_add written self docs (vs : list ndarray) :
    reachable_numeric self ->
    reachable_numeric (add_documents written self docs (Floats <$> vs)).2.

(** An array of strings that are no numbers. *)
Definition words_array : array :=
  Unconvertible (ValueError "could not convert string to float").

(** A chunk record of a snapshot and a sample document. *)
Definition record (text : string) : json :=
  JDict {[ lit "content" := JStr (lit text);
           lit "source" := JStr (lit "a.txt");
           lit "chunk_id" := JStr (lit "a.txt_chunk_0");
           lit "metadata" := JDict ∅ ]}.

Definition doc (text : string) : Document :=
  mkDocument (JStr (lit text)) (JStr (lit "a.txt"))
             (JStr (lit "a.txt_chunk_0")) (JDict ∅).

(** A snapshot with 5 chunk records and 4 embedding vectors. *)
Definition torn_records : list json :=
  [record "c0"; record "c1"; record "c2"; record "c3"; record "c4"].
Definition torn_vectors : list json :=
  [JList [JNum 1]; JList [JNum 1]; JList [JNum 1]; JList [JNum 1]].
Definition torn_snapshot : gmap str json :=
  {[ lit "documents" := JList torn_records;
     lit "embeddings" := JList torn_vectors ]}.

(** A reading of [np.array(emb, dtype=np.float32)] for the samples: a list
    of numbers gives the array of them. *)
Definition number (v : json) : outcome R :=
  match v with
  | JNum x => Returned x
  | _ => Raised TypeError
  end.
Definition array_of_numbers (v : json) : outcome ndarray :=
  match v with
  | JList l => for_each number l
  | _ => Raised TypeError
  end.

(** Two embeddings of 384 components, and a store with two documents. *)
Definition first_axis : ndarray := 1%R :: zeros 383.
Definition second_axis : ndarray := 0%R :: 1%R :: zeros 382.
Definition two_docs : t :=
  mk 384 [doc "Insurance companies are liable.";
          doc "Vehicles without permits void coverage."]
     [first_axis; second_axis].

(** Candidate [a] is listed before candidate [b]: greater similarity first,
    and of two equal similarities the one stored first. *)
Definition precedes (a b : R * nat) : Prop :=
  (b.1 < a.1)%R \/ (a.1 = b.1 /\ (a.2 < b.2)%nat).

(** [sims] scores every stored embedding against the query as [search] has
    normalised it: entry [i] is (similarity with embedding [i], [i]). *)
Definition scored (self : t) (query : ndarray) (sims : list (R * nat)) : Prop :=
  Forall2 (fun p d => similarity (normalize_query query) d = Returned p.1)
          sims (embeddings self)
  /\ sims.*2 = seq 0 (length (embeddings self)).


(** A store with one document. *)
Definition one_doc : t := mk 384 [doc "c0"] [first_axis].


End StoreSpec.

(** ** Document frequency *)

Module FrequencySpec.
Import SimpleEmbeddingService.

(** The number of texts among whose tokens [w] is. *)
Definition document_frequency (texts : list str) (w : str) : nat :=
  length (filter (fun text => w ∈ _tokenize text) texts).

(** A draw of the noise for every text. *)
Definition constant_noise (noise : ndarray) : nat -> ndarray := fun _ => noise.

End FrequencySpec.

(** ** Chunks *)

Module ChunkingSpec.

(** The characters of a text that are no white space, in their order. *)
Definition solid (text : str) : str := filter (fun c => isspace c = false) text.

(** A text that does not begin with white space. *)
Definition head_solid (l : str) : Prop :=
  match l with [] => True | c :: _ => isspace c = false end.

(** [piece] is a contiguous part of [text]. *)
Definition part_of (piece text : str) : Prop :=
  exists before after, text = before ++ piece ++ after.

(** A chunk as the loop appends it: not empty, equal to its own [strip()],
    and a contiguous part of the text. *)
Definition trimmed_part (text chunk : str) : Prop :=
  chunk <> [] /\ strip chunk = chunk /\ part_of chunk text.

(** Sixty letters without a full stop, and a text of 128 characters. *)
Definition dotless_text : str := repeat "a"%char 60.
Definition three_sentences : str :=
  lit "The first sentence is here. And a second one follows it. " ++ repeat "x"%char 71.

End ChunkingSpec.

(** ** Cleaned texts *)

Module CleaningSpec.
Import SimpleEmbeddingService.

(** A letter, a digit or the underscore of ASCII. *)
Definition ascii_word (c : ascii) : bool :=
  let n := code c in
  ((48 <=? n) && (n <=? 57)) || ((65 <=? n) && (n <=? 90)) || (n =? 95)
  || ((97 <=? n) && (n <=? 122)).

(** A character of a cleaned text: a letter, digit or underscore of ASCII,
    the space, or one of the punctuation marks that line 235 lists. *)
Definition clean_char (c : ascii) : bool :=
  ascii_word c || Ascii.eqb c " " || Re.one_of Re.kept_punctuation c.

(** What the substitutions of lines 231-238 leave of a character class:
    white space is the space, the character is ASCII, and it is not in the
    class of line 235. *)
Definition only_space (c : ascii) : bool := negb (isspace c) || Ascii.eqb c " ".
Definition plain (c : ascii) : bool := only_space c && negb (Re.non_ascii c).
Definition kept (c : ascii) : bool := plain c && negb (Re.garbled c).

(** [a] stands directly before [b] in [text]. *)
Definition adjacent (text : str) (a b : ascii) : Prop :=
  exists before after, text = before ++ a :: b :: after.

(** No character of [l] forms a [bad] pair with the character before it;
    [prev] is the character before [l], if there is one. *)
Fixpoint pairs_ok (bad : ascii -> ascii -> bool) (prev : option ascii) (l : str)
  : bool :=
  match l with
  | [] => true
  | c :: l' =>
      match prev with Some p => negb (bad p c) | None => true end
      && pairs_ok bad (Some c) l'
  end.

(** The character before what follows [l]. *)
Definition last_or (prev : option ascii) (l : str) : option ascii :=
  match last l with Some c => Some c | None => prev end.

(** The character before, if there is one, is no white space. *)
Definition solid_before (prev : option ascii) : Prop :=
  forall p, prev = Some p -> isspace p = false.

(** The pairs that a cleaned text does not have. *)
Definition double_space (a b : ascii) : bool := isspace a && isspace b.
Definition space_before_mark (a b : ascii) : bool :=
  isspace a && Re.one_of (lit ".,!?;:") b.
Definition letter_after_stop (a b : ascii) : bool :=
  Re.one_of (lit ".!?") a && Re.lower_ascii b.

(** The input that a scanner with white space in its buffer has still to
    give out. *)
Definition unread (pending : option str) (text : str) : str :=
  match pending with Some buf => rev buf ++ text | None => text end.

(** A character that lines 231-235 turn into a space. *)
Definition dropped (c : ascii) : bool := isspace c || Re.non_ascii c || Re.garbled c.

(** The text as lines 231-238 leave it. *)
Definition squeezed (text : str) : str :=
  Re.sub_runs Re.is_space (lit " ") false
    (Re.sub_each Re.garbled (lit " ")
       (Re.sub_runs Re.non_ascii (lit " ") false
          (Re.sub_runs Re.is_space (lit " ") false text))).

End CleaningSpec.

(** ** Documents of a directory *)

Module IngestionSpec.
Import SimpleVectorStore DocumentFiles.

(** The chunk id of chunk [i] of the file [filename] (lines 92, 130, 168, 204). *)
Definition chunk_name (filename : str) (i : nat) : str :=
  filename ++ lit "_chunk_" ++ str_of_nat i.

(** The file types that line 47-58 dispatch on. *)
Definition supported : list str := [lit "pdf"; lit "docx"; lit "doc"; lit "txt"].

(** A file name as [os.listdir] gives it: it holds no slash. *)
Definition plain_name (filename : str) : Prop := "/"%char ∉ filename.

(** [doc] is one of the chunks of the file [filename] of [directory]: its
    source is the file name, its id is the file name and its index, and its
    metadata name the type, the path, the index and the number of chunks. *)
Definition chunk_of (directory filename : str) (doc : Document) : Prop :=
  exists (file_type chunk : str) (i n : nat),
    (i < n)%nat
    /\ file_type ∈ supported
    /\ endswith (map SimpleEmbeddingService.lower filename) ("."%char :: file_type) = true
    /\ doc = mkDocument (JStr chunk) (JStr filename) (JStr (chunk_name filename i))
               (JDict {[ lit "file_type" := JStr file_type;
                         lit "file_path" := JStr (path_join directory filename);
                         lit "chunk_index" := JNum (INR i);
                         lit "total_chunks" := JNum (INR n) ]}).

(** A directory with one text file that can be read. *)
Definition sample_files : files :=
  mk_files (fun _ => Raised OSError) (fun _ => Raised OSError)
           (fun _ => Raised OSError)
           (fun path => if decide (path = lit "docs/a.txt")
                        then Returned (lit "Clause 1 .the insurer pays")
                        else Raised OSError).

Definition sample_listing : list str := [lit "a.txt"; lit "notes.md"; lit "b.txt"].

Definition sample_documents : list Document :=
  make_documents (lit "txt") (lit "docs/a.txt") [lit "Clause 1. the insurer pays"].

(** A page that contributes no text. *)
Definition empty_page (page : outcome str) : Prop :=
  match page with
  | Returned page_text => page_text = []
  | Raised _ => True
  end.

End IngestionSpec.

(** ** Citations *)

Module CitationSpec.
Import GeminiService.

(** A sentence as [_extract_relevant_sentences] gives it out: not empty,
    equal to its own [strip()], without full stop, exclamation or question
    mark, and without two white-space characters side by side. *)
Definition tidy (sentence : str) : Prop :=
  sentence <> []
  /\ strip sentence = sentence
  /\ Forall (fun c => Re.one_of (lit ".!?") c = false) sentence
  /\ forall a b, CleaningSpec.adjacent sentence a b ->
       isspace a = true -> isspace b = false.

(** [citation] quotes one of the sentences of [doc], under its source as
    [validate] let it through. *)
Definition quotes (validate : SimpleVectorStore.json -> outcome str)
  (doc : SimpleVectorStore.Document) (citation : Citation) : Prop :=
  validate (SimpleVectorStore.source doc) = Returned (source citation)
  /\ exists content,
       SimpleVectorStore.content doc = SimpleVectorStore.JStr content
       /\ text citation ∈ _extract_relevant_sentences content.

(** The sentences of [doc] that pass the test of line 108. *)
Definition candidates (doc : SimpleVectorStore.Document) : list str :=
  match SimpleVectorStore.content doc with
  | SimpleVectorStore.JStr content =>
      filter (fun sentence => 20 < len (strip sentence))
             (_extract_relevant_sentences content)
  | _ => []
  end.

(** Quoting [doc] raises: its content is no string, or it has a sentence
    that passes the test of line 108 and its source is refused. *)
Definition refused (validate : SimpleVectorStore.json -> outcome str)
  (doc : SimpleVectorStore.Document) : Prop :=
  (exists e, as_text (SimpleVectorStore.content doc) = Raised e)
  \/ (candidates doc <> [] /\ exists e, validate (SimpleVectorStore.source doc) = Raised e).

(** A check of the source that lets strings through. *)
Definition strings_only (v : SimpleVectorStore.json) : outcome str := as_text v.

(** A sentence of 50 characters, and a document of the file [name] that
    holds it. *)
Definition clause_text : str :=
  lit "The insurer shall pay the claim within thirty days".
Definition clause (name : string) : SimpleVectorStore.Document :=
  SimpleVectorStore.mkDocument
    (SimpleVectorStore.JStr (clause_text ++ lit "."))
    (SimpleVectorStore.JStr (lit name)) SimpleVectorStore.JNull
    SimpleVectorStore.JNull.

End CitationSpec.

(** * Properties *)

(** ** Python primitives *)

Section PyFacts.

Lemma length_lstrip (l : str) : (length (lstrip l) <= length l)%nat.
Proof.
  induction l as [|c l IH]; simpl; [lia|].
  destruct (isspace c); simpl; lia.
Qed.

Lemma length_strip (l : str) : (length (strip l) <= length l)%nat.
Proof.
  unfold strip. rewrite length_rev.
  etransitivity; [apply length_lstrip|].
  rewrite length_rev. apply length_lstrip.
Qed.

Lemma adjust_range (n i : Z) : 0 <= n -> 0 <= adjust n i <= n.
Proof. unfold adjust. destruct (i <? 0) eqn:E; lia. Qed.

Lemma len_slice {A : Type} (l : list A) (a b : Z) :
  len (slice l a b) = Z.max 0 (adjust (len l) b - adjust (len l) a).
Proof.
  unfold slice, len at 1.
  rewrite length_take, length_drop.
  pose proof (adjust_range (len l) a ltac:(unfold len; lia)) as Ha.
  pose proof (adjust_range (len l) b ltac:(unfold len; lia)) as Hb.
  unfold len in *. lia.
Qed.

(** [rfind_scan] answers its default or a position of the window. *)
Lemma rfind_scan_range (l : str) (ch : ascii) (s e i best : Z) :
  let r := rfind_scan l ch s e i best in
  r = best \/ (s <= r < e /\ i <= r < i + len l).
Proof.
  revert i best. induction l as [|c l IH]; intros i best; simpl; [by left|].
  specialize (IH (i + 1)
    (if (s <=? i) && (i <? e) && Ascii.eqb c ch then i else best)).
  simpl in IH. unfold len in *. simpl length.
  destruct IH as [-> | [H1 H2]].
  - destruct ((s <=? i) && (i <? e) && Ascii.eqb c ch) eqn:E; [|by left].
    right. apply andb_prop in E as [E _]. apply andb_prop in E as [E1 E2]. lia.
  - right. lia.
Qed.

(** [rfind] answers [-1] or a position between its adjusted bounds. *)
Lemma rfind_range (text : str) (ch : ascii) (a b : Z) :
  let r := rfind text ch a b in
  r = -1 \/ (rfind_start (len text) a <= r < rfind_stop (len text) b
             /\ 0 <= r < len text).
Proof.
  unfold rfind.
  destruct (rfind_scan_range text ch (rfind_start (len text) a)
              (rfind_stop (len text) b) 0 (-1)) as [H | H]; [by left|].
  right. lia.
Qed.

End PyFacts.

(** ** numpy *)

Module NpFacts.

Lemma length_scale_down (v : ndarray) (d : R) : length (scale_down v d) = length v.
Proof. unfold scale_down. by rewrite length_map. Qed.

Lemma sum_squares_nonneg (v : ndarray) : (0 <= np_sum (map (fun x => x * x) v))%R.
Proof.
  induction v as [|x v IH]; simpl; [lra|].
  pose proof (Rle_0_sqr x) as Hx. unfold Rsqr in Hx. lra.
Qed.

(** In the reals only the zero vector has norm zero. *)
Lemma norm_zero (v : ndarray) : norm v = 0%R -> Forall (fun x => x = 0%R) v.
Proof.
  unfold norm. intros H.
  apply sqrt_eq_0 in H; [|apply sum_squares_nonneg].
  induction v as [|x v IH]; [constructor|]. simpl in H.
  pose proof (Rle_0_sqr x) as Hx. unfold Rsqr in Hx.
  pose proof (sum_squares_nonneg v) as Hv.
  constructor.
  - assert (x * x = 0)%R as Hxx by lra.
    apply Rmult_integral in Hxx. tauto.
  - apply IH. lra.
Qed.


(** The sum of products of two vectors, each divided by a scalar. *)
Lemma sum_products_scaled (q d : ndarray) (a b : R) :
  a <> 0%R -> b <> 0%R ->
  np_sum (zip_with Rmult (scale_down q a) (scale_down d b))
  = (np_sum (zip_with Rmult q d) / (a * b))%R.
Proof.
  intros Ha Hb. revert d. induction q as [|x q IH]; intros d.
  - simpl. unfold Rdiv. lra.
  - destruct d as [|y d]; [simpl; unfold Rdiv; lra|].
    change (np_sum (zip_with Rmult (scale_down (x :: q) a) (scale_down (y :: d) b)))
      with (x / a * (y / b)
            + np_sum (zip_with Rmult (scale_down q a) (scale_down d b)))%R.
    rewrite IH. simpl. by field.
Qed.

Lemma np_sum_zeros (n : nat) : np_sum (zeros n) = 0%R.
Proof.
  induction n as [|n IH]; simpl; [done|]. unfold zeros in IH. rewrite IH. lra.
Qed.

Lemma sum_squares_zeros (n : nat) :
  np_sum (map (fun x => x * x)%R (zeros n)) = 0%R.
Proof.
  induction n as [|n IH]; simpl; [done|]. unfold zeros in IH. rewrite IH. lra.
Qed.

Lemma lookup_zeros (n i : nat) : (i < n)%nat -> zeros n !! i = Some 0%R.
Proof. intros H. unfold zeros. by apply lookup_replicate_2. Qed.

(** [v[i] += a] moves the sum by [a]. *)
Lemma np_sum_alter (f : R -> R) (v : ndarray) (i : nat) (x : R) :
  v !! i = Some x -> np_sum (alter f i v) = (np_sum v - x + f x)%R.
Proof.
  revert i. induction v as [|y v IH]; intros i; [done|].
  destruct i as [|i]; simpl.
  - intros [= ->]. lra.
  - intros H. change (list_alter f i v) with (alter f i v).
    rewrite (IH i H). lra.
Qed.

(** Dividing a vector of positive norm by its norm gives norm one. *)
Lemma sum_squares_scale_down (v : ndarray) (d : R) :
  d <> 0%R ->
  np_sum (map (fun x => x * x)%R (scale_down v d))
  = (np_sum (map (fun x => x * x)%R v) / (d * d))%R.
Proof.
  intros Hd. induction v as [|x v IH].
  - simpl. unfold Rdiv. lra.
  - change (np_sum (map (fun x => x * x) (scale_down (x :: v) d)))%R
      with (x / d * (x / d)
            + np_sum (map (fun x => x * x) (scale_down v d)))%R.
    rewrite IH. simpl. by field.
Qed.

Lemma norm_scale_down (v : ndarray) :
  (0 < norm v)%R -> norm (scale_down v (norm v)) = 1%R.
Proof.
  intros Hpos. unfold norm at 1.
  rewrite sum_squares_scale_down by lra.
  unfold norm in *. rewrite sqrt_sqrt by apply sum_squares_nonneg.
  assert (0 < np_sum (map (fun x => x * x) v))%R as Hs.
  { destruct (Rle_lt_or_eq_dec _ _ (sum_squares_nonneg v)) as [?|Heq]; [done|].
    rewrite <- Heq, sqrt_0 in Hpos. lra. }
  replace (_ / _)%R with 1%R by (field; lra). apply sqrt_1.
Qed.


(** The first unit vector of any dimension has norm one. *)
Lemma norm_unit (n : nat) : norm (1%R :: zeros n) = 1%R.
Proof.
  unfold norm.
  change (np_sum (map (fun x => x * x)%R (1%R :: zeros n)))
    with (1 * 1 + np_sum (map (fun x => x * x)%R (zeros n)))%R.
  rewrite sum_squares_zeros. replace (1 * 1 + 0)%R with 1%R by lra.
  apply sqrt_1.
Qed.

End NpFacts.

(** ** The chunker *)

Module ChunkerFacts.
Import DocumentProcessor ChunkerSpec.

Ltac split_tests :=
  repeat match goal with
  | H : context [Z.ltb ?a ?b] |- _ => destruct (Z.ltb_spec a b)
  | |- context [Z.ltb ?a ?b] => destruct (Z.ltb_spec a b)
  | H : context [Z.gtb ?a ?b] |- _ => rewrite (Z.gtb_ltb a b) in H
  | |- context [Z.gtb ?a ?b] => rewrite (Z.gtb_ltb a b)
  end.

Lemma chunk_end_window (self : t) (text : str) (i : Z) :
  0 <= chunk_overlap self < chunk_size self ->
  -1 - chunk_overlap self <= i ->
  i < len text ->
  chunk_size self < len text ->
  -1 <= chunk_end self text i
  /\ len (slice text i (chunk_end self text i)) <= chunk_size self.
Proof.
  intros Hcfg Hi Hlt Hlong.
  pose proof (rfind_range text "."%char i (i + chunk_size self)) as Hdot.
  pose proof (rfind_range text " "%char i (i + chunk_size self)) as Hsp.
  simpl in Hdot, Hsp. rewrite len_slice.
  unfold chunk_end, adjust, rfind_start, rfind_stop in *.
  split_tests; lia.
Qed.

Lemma loop_body_inv (self : t) (text : str) (s : loop_state) :
  0 <= chunk_overlap self < chunk_size self ->
  chunk_size self < len text ->
  start s < len text ->
  loop_inv self s ->
  match loop_body self text s with
  | inl s' => loop_inv self s'
  | inr s' => loop_inv self s'
  end.
Proof.
  intros Hcfg Hlong Hlt [Hstart Hchunks].
  destruct (chunk_end_window self text (start s) Hcfg Hstart Hlt Hlong)
    as [Hend Hsize].
  assert (Forall (bounded self)
            (if truthy (strip (slice text (start s) (chunk_end self text (start s))))
             then chunks s ++ [strip (slice text (start s) (chunk_end self text (start s)))]
             else chunks s)) as Hall.
  { destruct (truthy _); [|done].
    apply Forall_app; split; [done|]. constructor; [|constructor].
    unfold bounded.
    pose proof (length_strip (slice text (start s) (chunk_end self text (start s)))).
    unfold len in *. lia. }
  unfold loop_body.
  destruct (_ >=? _); (split; [simpl; lia | exact Hall]).
Qed.

Lemma run_inv (self : t) (text : str) (n : nat) (s : loop_state) :
  0 <= chunk_overlap self < chunk_size self ->
  chunk_size self < len text ->
  loop_inv self s ->
  loop_inv self (run n self text s).
Proof.
  intros Hcfg Hlong. revert s.
  induction n as [|n IH]; intros s Hinv; simpl; [done|].
  destruct (Z.ltb_spec (start s) (len text)) as [Hlt|]; [|done].
  pose proof (loop_body_inv self text s Hcfg Hlong Hlt Hinv) as Hstep.
  destruct (loop_body self text s) as [s'|s']; [by apply IH | done].
Qed.

(** A call that returns has gone through finitely many passes of the loop. *)
Lemma chunk_loop_run (fuel : nat) (self : t) (text : str) (s : loop_state)
  (r : list str) :
  chunk_loop fuel self text s = Some r ->
  exists n, r = chunks (run n self text s).
Proof.
  revert s. induction fuel as [|fuel IH]; intros s; simpl; [done|].
  destruct (start s <? len text) eqn:E.
  - destruct (loop_body self text s) as [s'|s'] eqn:Eb.
    + intros H. destruct (IH _ H) as [n ->]. exists (S n). simpl. by rewrite E, Eb.
    + intros [= <-]. exists 1%nat. simpl. by rewrite E, Eb.
  - intros [= <-]. by exists 0%nat.
Qed.

End ChunkerFacts.

Module ChunkerClaims.
Import DocumentProcessor ChunkerSpec ChunkerFacts.

Lemma stuck_pass (chunks : list str) :
  loop_body default stuck_text (st 0 chunks)
  = inl (st 0 (chunks ++ [repeat "b"%char 200])).
Proof.
  unfold loop_body. cbn [start DocumentProcessor.chunks].
  replace (chunk_end default stuck_text 0) with 200 by (vm_compute; reflexivity).
  replace (strip (slice stuck_text 0 200)) with (repeat "b"%char 200)
    by (vm_compute; reflexivity).
  replace (len stuck_text) with 1201 by (vm_compute; reflexivity).
  reflexivity.
Qed.

Lemma stuck_loop (fuel : nat) (chunks : list str) :
  chunk_loop fuel default stuck_text (st 0 chunks) = None.
Proof.
  revert chunks. induction fuel as [|fuel IH]; intros chunks; [done|].
  cbn [chunk_loop start].
  replace (len stuck_text) with 1201 by (vm_compute; reflexivity).
  change (0 <? 1201) with true. cbv iota.
  rewrite stuck_pass. apply IH.
Qed.

(** C3, as the code has it: the constructor stores any pair of numbers and
    rejects none; a text no longer than [chunk_size] is returned as the only
    chunk; and for 0 <= overlap < chunk_size every chunk that the loop, once
    entered, has emitted after any number of passes, hence every chunk of a
    returned list, is at most [chunk_size] long.  Nothing is said about the
    loop being left. *)
Theorem chunks_within_chunk_size (text : str) (cs ov : Z) :
  0 <= ov < cs -> chunker_ok text cs ov.
Proof.
  intros Hcfg. unfold chunker_ok. split; [done|].
  assert (cs < len text -> forall n,
            Forall (bounded (mk cs ov)) (chunks (run n (mk cs ov) text (st 0 []))))
    as Hrun.
  { intros Hlong n.
    apply (run_inv (mk cs ov) text n (st 0 [])); simpl; try lia.
    split; [simpl; lia | constructor]. }
  split; [|split; [exact Hrun|]].
  - intros Hshort fuel. unfold _chunk_text. simpl.
    destruct (Z.leb_spec (len text) cs); [done | lia].
  - intros fuel r. unfold _chunk_text. simpl.
    destruct (Z.leb_spec (len text) cs) as [Hshort|Hlong].
    + intros [= <-]. constructor; [exact Hshort | constructor].
    + intros H. apply chunk_loop_run in H as [n ->]. by apply Hrun.
Qed.

Lemma chunks_within_chunk_size_witness :
  0 <= 5 < 30 /\ chunker_ok sample_text 30 5.
Proof.
  split; [lia | apply (chunks_within_chunk_size sample_text 30 5); lia].
Defined.

(** On [sample_text] the call does return. *)
Example sample_chunks :
  _chunk_text 4 (mk 30 5) sample_text
  = Some [lit "Hello world. This is a test.";
          lit "test. Another sentence here.";
          lit "here. End of it all now."].
Proof. vm_compute. reflexivity. Qed.

(** C3 as written fails twice: with the default configuration, for which
    0 <= 200 < 1000, the call on [stuck_text] returns with no amount of fuel;
    and a configuration whose overlap is not below the chunk size, here
    (200, 1000), is accepted by the constructor. *)
Lemma chunker_not_as_claimed :
  (0 <= chunk_overlap default < chunk_size default
   /\ forall fuel, _chunk_text fuel default stuck_text = None)
  /\ (1000 >= 200 /\ __init__ 200 1000 = Returned (mk 200 1000)).
Proof.
  split; split.
  - simpl. lia.
  - intros fuel. unfold _chunk_text.
    replace (len stuck_text <=? chunk_size default) with false
      by (vm_compute; reflexivity).
    apply stuck_loop.
  - lia.
  - reflexivity.
Qed.

End ChunkerClaims.

(** ** The vector store: state *)

Module StoreFacts.
Import SimpleVectorStore StoreSpec.

Lemma bind_returned {A B : Type} (m : outcome A) (k : A -> outcome B) (b : B) :
  m ≫= k = Returned b -> exists a, m = Returned a /\ k a = Returned b.
Proof. destruct m as [a|e]; [by exists a | done]. Qed.

Lemma bind_now {A B : Type} (a : A) (k : A -> outcome B) :
  Returned a ≫= k = k a.
Proof. reflexivity. Qed.

Lemma for_each_length {A B : Type} (f : A -> outcome B) (l : list A) (r : list B) :
  for_each f l = Returned r -> length r = length l.
Proof.
  revert r. induction l as [|a l IH]; intros r; simpl.
  - by intros [= <-].
  - intros H. apply bind_returned in H as (b & _ & H).
    apply bind_returned in H as (bs & Hbs & [= <-]).
    simpl. f_equal. by apply IH.
Qed.

Lemma aligned_length (self : t) :
  aligned self <-> length (documents self) = length (embeddings self).
Proof.
  split.
  - intros (pairs & -> & ->). by rewrite !length_fmap.
  - intros H. exists (zip (documents self) (embeddings self)). split.
    + symmetry. apply fst_zip. lia.
    + symmetry. apply snd_zip. lia.
Qed.

Lemma aligned_cleared (self : t) : aligned (cleared self).
Proof. by exists []. Qed.

(** A load that keeps a store keeps the same number of documents and arrays. *)
Lemma load_body_aligned np_array f self self' :
  aligned self -> load_body np_array f self = Returned self' -> aligned self'.
Proof.
  intros Hself. destruct f as [| e | data]; simpl.
  - by intros [= <-].
  - done.
  - intros H.
    apply bind_returned in H as (docs_data & _ & H).
    apply bind_returned in H as (items & _ & H).
    apply bind_returned in H as (docs & Hdocs & H).
    apply bind_returned in H as (embeddings_data & _ & H).
    destruct (py_bool embeddings_data);
      [|injection H as <-; apply aligned_cleared].
    apply bind_returned in H as (n & Hn & H).
    destruct (Z.eqb_spec n (len docs)) as [->|];
      [|injection H as <-; apply aligned_cleared].
    apply bind_returned in H as (embs & Hembs & H).
    apply bind_returned in H as (arrays & Harrays & [= <-]).
    apply aligned_length. simpl.
    apply for_each_length in Harrays.
    assert (len embs = len docs) as Hlen.
    { destruct embeddings_data as [| | | s | l | m]; simpl in Hn, Hembs;
        try discriminate; injection Hn as Hn; injection Hembs as <-;
        unfold len in *; rewrite ?length_map, ?length_fmap; try lia.
      rewrite length_map_to_list. lia. }
    unfold len in Hlen. lia.
Qed.

Lemma load_aligned np_array f self :
  aligned self -> aligned (_load_existing_data np_array f self).
Proof.
  intros Hself. unfold _load_existing_data.
  destruct (load_body np_array f self) as [self'|e] eqn:E.
  - by eapply load_body_aligned.
  - apply aligned_cleared.
Qed.

Lemma for_each_Forall2 {A B : Type} (f : A -> outcome B) (l : list A) (r : list B) :
  for_each f l = Returned r -> Forall2 (fun a b => f a = Returned b) l r.
Proof.
  revert r. induction l as [|a l IH]; intros r; simpl.
  - intros [= <-]. constructor.
  - intros H. apply bind_returned in H as (b & Hb & H).
    apply bind_returned in H as (bs & Hbs & [= <-]).
    constructor; [done | by apply IH].
Qed.

Lemma for_each_floats (vs : list ndarray) :
  for_each astype_float32 (Floats <$> vs) = Returned vs.
Proof.
  induction vs as [|v vs IH]; [done|].
  rewrite fmap_cons. cbn [for_each astype_float32].
  by rewrite bind_now, IH, bind_now.
Qed.

(** After a call that returns, position [i] of the store holds the [i]-th
    document and the conversion of the [i]-th array of the call. *)
Lemma add_documents_returned written self docs embs :
  (add_documents written self docs embs).1 = Returned tt ->
  documents (add_documents written self docs embs).2 = docs
  /\ Forall2 (fun a v => astype_float32 a = Returned v) embs
       (embeddings (add_documents written self docs embs).2)
  /\ aligned (add_documents written self docs embs).2.
Proof.
  unfold add_documents.
  destruct (Z.eqb_spec (len docs) (len embs)) as [Hlen|]; simpl; [|done].
  destruct (for_each astype_float32 embs) as [arrays|e] eqn:E; [|done].
  pose proof (for_each_length _ _ _ E) as Hlen'.
  apply for_each_Forall2 in E.
  destruct written; simpl; intros _; (split; [done|]); (split; [done|]);
    apply aligned_length; simpl; unfold len in Hlen; lia.
Qed.

(** A failed write of the snapshot does not make the call raise. *)
Lemma add_documents_write_failure e self docs vs :
  len docs = len vs ->
  add_documents (Raised e) self docs (Floats <$> vs)
  = (Returned tt, mk (embedding_dim self) docs vs).
Proof.
  intros Hlen. unfold add_documents, len. rewrite length_fmap.
  unfold len in Hlen. rewrite Hlen, Z.eqb_refl. simpl.
  by rewrite for_each_floats.
Qed.

(** When the conversion of an array raises, the documents have been replaced
    and the embeddings have not. *)
Lemma add_documents_conversion_failure written self docs embs e :
  len docs = len embs ->
  for_each astype_float32 embs = Raised e ->
  add_documents written self docs embs
  = (Raised e, mk (embedding_dim self) docs (embeddings self)).
Proof.
  intros Hlen Hconv. unfold add_documents.
  by rewrite Hlen, Z.eqb_refl, Hconv.
Qed.

(** With numeric arrays the two sequences stay aligned through construction,
    loads and calls of [add_documents], returning or raising. *)
Lemma reachable_numeric_aligned (self : t) :
  reachable_numeric self -> aligned self.
Proof.
  induction 1 as [np_array f dim | np_array f self _ IH
                 | written self docs vs _ IH].
  - apply load_aligned. by exists [].
  - by apply load_aligned.
  - unfold add_documents.
    destruct (Z.eqb_spec (len docs) (len (Floats <$> vs))) as [Hlen|];
      simpl; [|done].
    rewrite for_each_floats.
    unfold len in Hlen. rewrite length_fmap in Hlen.
    destruct written; simpl; apply aligned_length; simpl; lia.
Qed.

End StoreFacts.

Module StoreStateClaims.
Import SimpleVectorStore StoreSpec StoreFacts.

(** C2 fails on the code: on a new store, [add_documents] with one document
    and one array of strings raises the error of the conversion after line
    71 has replaced the documents; the store reached holds one document and
    no embedding.  The stores that a load gives and those after a call of
    [add_documents] that returns are aligned ([load_aligned],
    [add_documents_returned]), and so is every store reached with numeric
    arrays only ([reachable_numeric_aligned]); the handler of the load
    empties both lists on any exception, the handler of [add_documents] does
    not restore them. *)
Theorem conversion_failure_misaligns :
  let call :=
    add_documents (Returned tt) (__init__ array_of_numbers Missing 384)
      [doc "c0"] [words_array] in
  call.1 = Raised (ValueError "could not convert string to float")
  /\ reachable call.2
  /\ documents call.2 = [doc "c0"]
  /\ embeddings call.2 = []
  /\ ~ aligned call.2.
Proof.
  simpl. split; [done|]. split; [|split; [done|split; [done|]]].
  - apply (reach_add (Returned tt) (__init__ array_of_numbers Missing 384)
             [doc "c0"] [words_array]), reach_init.
  - intros H. apply aligned_length in H. simpl in H. lia.
Qed.

(** C4: when the number of documents differs from the number of embeddings,
    [add_documents] raises the error of line 67 and the store is the one it
    was before the call, documents and embeddings both. *)
Theorem add_documents_mismatch (written : outcome unit) (self : t)
  (docs : list Document) (embs : list array) :
  length docs <> length embs ->
  add_documents written self docs embs = (Raised DimensionMismatch, self).
Proof.
  intros Hlen. unfold add_documents.
  destruct (Z.eqb_spec (len docs) (len embs)) as [Heq|]; [|done].
  unfold len in Heq. lia.
Qed.

Lemma add_documents_mismatch_witness :
  length [doc "c0"; doc "c1"; doc "c2"]
  <> length [Floats first_axis; Floats second_axis]
  /\ add_documents (Returned tt) two_docs [doc "c0"; doc "c1"; doc "c2"]
       [Floats first_axis; Floats second_axis]
     = (Raised DimensionMismatch, two_docs).
Proof.
  split; [simpl; lia | apply add_documents_mismatch; simpl; lia].
Defined.

(** C5: a snapshot whose list of chunk records and list of embedding vectors
    differ in length loads as the empty store, documents and embeddings both,
    at construction and from any store. *)
Theorem load_torn_snapshot (np_array : json -> outcome ndarray) (dim : Z)
  (data : gmap str json) (records vectors : list json) :
  data !! lit "documents" = Some (JList records) ->
  data !! lit "embeddings" = Some (JList vectors) ->
  length records <> length vectors ->
  __init__ np_array (Content (JDict data)) dim = mk dim [] []
  /\ forall self,
       _load_existing_data np_array (Content (JDict data)) self = cleared self.
Proof.
  intros Hdocs Hembs Hlen.
  assert (forall self,
    _load_existing_data np_array (Content (JDict data)) self = cleared self)
    as Hload.
  { intros self. unfold _load_existing_data, load_body, get_or_empty.
    rewrite Hdocs, Hembs. cbn [default from_option Datatypes.id].
    rewrite bind_now. cbn [iterate]. rewrite bind_now.
    destruct (for_each make_document records) as [docs|e] eqn:E;
      [rewrite bind_now | done].
    rewrite bind_now. cbn [py_bool py_len].
    apply for_each_length in E.
    destruct (truthy vectors); [rewrite bind_now | done].
    destruct (Z.eqb_spec (len vectors) (len docs)) as [Heq|]; [|done].
    unfold len in Heq. lia. }
  split; [|exact Hload]. unfold __init__. by rewrite Hload.
Qed.

Lemma load_torn_snapshot_witness :
  (torn_snapshot !! lit "documents" = Some (JList torn_records)
   /\ torn_snapshot !! lit "embeddings" = Some (JList torn_vectors)
   /\ length torn_records <> length torn_vectors)
  /\ (__init__ array_of_numbers (Content (JDict torn_snapshot)) 384 = mk 384 [] []
      /\ forall self,
           _load_existing_data array_of_numbers (Content (JDict torn_snapshot)) self
           = cleared self).
Proof.
  assert (torn_snapshot !! lit "documents" = Some (JList torn_records)) as H1
    by reflexivity.
  assert (torn_snapshot !! lit "embeddings" = Some (JList torn_vectors)) as H2
    by reflexivity.
  assert (length torn_records <> length torn_vectors) as H3 by (simpl; lia).
  split; [by repeat split|].
  exact (load_torn_snapshot array_of_numbers 384 torn_snapshot
           torn_records torn_vectors H1 H2 H3).
Defined.

(** The records of [torn_snapshot] are well formed: with a fifth vector the
    same file loads as a store of five. *)
Example load_whole_snapshot :
  let data := <[ lit "embeddings" := JList (JList [JNum 1] :: torn_vectors) ]>
                torn_snapshot in
  length (documents (__init__ array_of_numbers (Content (JDict data)) 384)) = 5%nat
  /\ length (embeddings (__init__ array_of_numbers (Content (JDict data)) 384))
     = 5%nat.
Proof.
  unfold __init__, _load_existing_data, load_body. simpl.
  split; reflexivity.
Qed.

End StoreStateClaims.

(** ** Descending stable sort *)

Section SortFacts.
Import RankSpec.

Context {A : Type} (lt : A -> A -> bool) (before : A -> A -> Prop).
Hypothesis lt_asym : forall a b, lt a b = true -> lt b a = false.
Hypothesis ge_trans :
  forall a b c, lt a b = false -> lt b c = false -> lt a c = false.

Lemma insert_desc_perm (x : A) (l : list A) : insert_desc lt x l ≡ₚ x :: l.
Proof.
  induction l as [|y l IH]; simpl; [done|].
  destruct (lt x y); [|done].
  rewrite IH. apply Permutation_swap.
Qed.

Lemma sorted_reverse_perm (l : list A) : sorted_reverse lt l ≡ₚ l.
Proof.
  induction l as [|x l IH]; simpl; [done|].
  by rewrite insert_desc_perm, IH.
Qed.

Lemma insert_desc_ranked (x : A) (l : list A) :
  StronglySorted (ranks lt before) l ->
  Forall (before x) l ->
  StronglySorted (ranks lt before) (insert_desc lt x l).
Proof.
  induction 1 as [|y l Hsorted IH Hy]; intros Hx; simpl.
  - repeat constructor.
  - apply Forall_cons in Hx as [Hxy Hxl].
    destruct (lt x y) eqn:E.
    + constructor; [by apply IH|].
      rewrite insert_desc_perm. constructor; [by left | done].
    + constructor; [by constructor|].
      constructor; [by right|].
      rewrite Forall_forall in Hy, Hxl |- *. intros z Hz. right.
      split; [|by apply Hxl].
      destruct (Hy z Hz) as [Hzy | [Hyz _]].
      * eapply ge_trans; [exact E | by apply lt_asym].
      * by eapply ge_trans.
Qed.

Lemma sorted_reverse_ranked (l : list A) :
  StronglySorted before l ->
  StronglySorted (ranks lt before) (sorted_reverse lt l).
Proof.
  induction 1 as [|x l Hsorted IH Hx]; simpl; [constructor|].
  apply insert_desc_ranked; [done|].
  by rewrite sorted_reverse_perm.
Qed.

End SortFacts.

Lemma StronglySorted_impl {A : Type} (R1 R2 : A -> A -> Prop) (l : list A) :
  (forall a b, R1 a b -> R2 a b) -> StronglySorted R1 l -> StronglySorted R2 l.
Proof.
  intros Himpl. induction 1 as [|x l _ IH Hx]; constructor; [done|].
  eapply Forall_impl; [exact Hx | auto].
Qed.

(** ** The vector store: search *)

Module SearchFacts.
Import SimpleVectorStore StoreSpec RankSpec NpFacts.


Lemma length_normalize_query (q : ndarray) :
  length (normalize_query q) = length q.
Proof.
  unfold normalize_query. destruct (Rlt_dec _ _); [apply length_scale_down | done].
Qed.





Lemma similarity_zero_norm (q d : ndarray) :
  norm d = 0%R -> similarity q d = Returned 0%R.
Proof.
  intros Hd. unfold similarity. destruct (Rlt_dec _ _); [lra | done].
Qed.

Lemma similarity_defined (q d : ndarray) :
  length d = length q \/ norm d = 0%R -> exists s, similarity q d = Returned s.
Proof.
  intros [Hlen | Hzero]; [|eexists; by apply similarity_zero_norm].
  unfold similarity, np_dot.
  destruct (Rlt_dec _ _); [|by eexists].
  rewrite length_scale_down, Hlen, Nat.eqb_refl. by eexists.
Qed.


(** With both norms positive the similarity is the cosine of the two
    vectors. *)
Lemma similarity_cosine (q d : ndarray) :
  (0 < norm q)%R -> (0 < norm d)%R -> length d = length q ->
  similarity (normalize_query q) d
  = Returned (np_sum (zip_with Rmult q d) / (norm q * norm d))%R.
Proof.
  intros Hq Hd Hlen. unfold similarity, normalize_query, np_dot.
  destruct (Rlt_dec 0 (norm q)); [|done].
  destruct (Rlt_dec 0 (norm d)); [|done].
  rewrite !length_scale_down, Hlen, Nat.eqb_refl.
  f_equal. apply sum_products_scaled; lra.
Qed.

(** The loop over the stored embeddings goes through when every one of them
    has the length of the query or norm zero. *)
Lemma similarities_scored (q : ndarray) (i : nat) (embs : list ndarray) :
  Forall (fun d => length d = length q \/ norm d = 0%R) embs ->
  exists sims,
    similarities q i embs = Returned sims
    /\ Forall2 (fun p d => similarity q d = Returned p.1) sims embs
    /\ sims.*2 = seq i (length embs).
Proof.
  intros Hall. revert i.
  induction Hall as [|d embs Hd _ IH]; intros i; simpl.
  - by exists [].
  - destruct (similarity_defined q d Hd) as [s Hs].
    destruct (IH (S i)) as (sims & -> & Hsims & Hidx).
    rewrite Hs. exists ((s, i) :: sims).
    split; [done|]. split; [by constructor|].
    rewrite fmap_cons, Hidx. done.
Qed.

(** One embedding on which the similarity raises makes the whole loop raise. *)
Lemma similarities_raise (q d : ndarray) (i : nat) (embs : list ndarray) (e : exn) :
  d ∈ embs -> similarity q d = Raised e ->
  exists e', similarities q i embs = Raised e'.
Proof.
  intros Hin Hd. revert i.
  induction Hin as [d embs | d d' embs _ IH]; intros i; simpl.
  - rewrite Hd. by eexists.
  - destruct (similarity q d'); [|by eexists].
    destruct (IH Hd (S i)) as [e' ->]. by eexists.
Qed.

Lemma slice_to_take {A : Type} (l : list A) (k : Z) :
  0 <= k -> slice_to l k = take (Z.to_nat (Z.min k (len l))) l.
Proof.
  intros Hk. unfold slice_to, slice, adjust. simpl.
  destruct (Z.ltb_spec k 0); [lia|].
  destruct (Z.ltb_spec 0 0); [lia|].
  replace (Z.min 0 (len l)) with 0 by (unfold len; lia).
  by rewrite Z.sub_0_r.
Qed.

Lemma collect_all (self : t) (top : list (R * nat)) :
  Forall (fun p => (p.2 < length (documents self))%nat) top ->
  Forall2 (fun doc p => documents self !! p.2 = Some doc) (collect self top) top.
Proof.
  induction 1 as [|p top Hp _ IH]; simpl; [constructor|].
  destruct (lookup_lt_is_Some_2 (documents self) p.2 Hp) as [doc Hdoc].
  unfold collect in *. simpl. rewrite Hdoc. simpl. by constructor.
Qed.

Lemma similarity_lt_asym (a b : R * nat) :
  similarity_lt a b = true -> similarity_lt b a = false.
Proof.
  unfold similarity_lt. destruct (Rlt_dec a.1 b.1), (Rlt_dec b.1 a.1); try done.
  lra.
Qed.

Lemma similarity_ge_trans (a b c : R * nat) :
  similarity_lt a b = false -> similarity_lt b c = false ->
  similarity_lt a c = false.
Proof.
  unfold similarity_lt.
  destruct (Rlt_dec a.1 b.1), (Rlt_dec b.1 c.1), (Rlt_dec a.1 c.1); try done.
  lra.
Qed.

Lemma indices_increasing (sims : list (R * nat)) (i n : nat) :
  sims.*2 = seq i n ->
  StronglySorted (fun a b : R * nat => (a.2 < b.2)%nat) sims.
Proof.
  revert i n. induction sims as [|p sims IH]; intros i n H; [constructor|].
  destruct n as [|n]; [done|]. simpl in H. injection H as Hp Hrest.
  constructor; [by eapply IH|].
  apply Forall_forall. intros b Hb.
  assert (b.2 ∈ seq (S i) n) as Hin.
  { rewrite <- Hrest. apply list_elem_of_fmap. by exists b. }
  apply elem_of_seq in Hin. lia.
Qed.

(** The sort of [search] lists the candidates by descending similarity and,
    among equal similarities, by ascending index. *)
Lemma sort_by_similarity_precedes (sims : list (R * nat)) (i n : nat) :
  sims.*2 = seq i n ->
  sort_by_similarity sims ≡ₚ sims
  /\ StronglySorted precedes (sort_by_similarity sims).
Proof.
  intros Hidx. split; [apply sorted_reverse_perm|].
  eapply StronglySorted_impl;
    [|apply (sorted_reverse_ranked similarity_lt
               (fun a b : R * nat => (a.2 < b.2)%nat)
               similarity_lt_asym similarity_ge_trans);
      by eapply indices_increasing].
  intros a b. unfold ranks, precedes, similarity_lt.
  destruct (Rlt_dec b.1 a.1), (Rlt_dec a.1 b.1);
    intros [H | [H1 H2]]; try done; try (by left).
  right. split; [lra | done].
Qed.

End SearchFacts.

Module SearchClaims.
Import SimpleVectorStore StoreSpec NpFacts StoreFacts SearchFacts.


Lemma mismatch_raises (q d : ndarray) :
  (0 < norm d)%R -> length d <> length q ->
  similarity q d = Raised (ValueError "shapes not aligned").
Proof.
  intros Hd Hlen. unfold similarity, np_dot.
  destruct (Rlt_dec _ _); [|done].
  rewrite length_scale_down.
  destruct (Nat.eqb_spec (length q) (length d)); [lia | done].
Qed.

Lemma elem_of_slice {A : Type} (l : list A) (a b : Z) (x : A) :
  x ∈ slice l a b -> x ∈ l.
Proof.
  unfold slice. intros H. apply subseteq_take in H. by apply subseteq_drop in H.
Qed.

(** What [search] returns, for any k, when the store is aligned and the
    query has the length of every stored embedding: the documents of a slice
    of the sorted candidates. *)
Lemma search_ranked (self : t) (query : ndarray) (k : Z) :
  length (documents self) = length (embeddings self) ->
  Forall (fun d => length d = length query) (embeddings self) ->
  exists sims,
    scored self query sims
    /\ search self (Floats query) k
       = Returned (collect self (slice_to (sort_by_similarity sims) k))
    /\ Forall2 (fun doc p => documents self !! p.2 = Some doc)
         (collect self (slice_to (sort_by_similarity sims) k))
         (slice_to (sort_by_similarity sims) k).
Proof.
  intros Hal Hdim.
  destruct (similarities_scored (normalize_query query) 0 (embeddings self))
    as (sims & Hsims & Hscored & Hidx).
  { eapply Forall_impl; [exact Hdim|]. intros d Hd. left.
    by rewrite length_normalize_query. }
  destruct (sort_by_similarity_precedes sims 0 _ Hidx) as [Hperm _].
  exists sims. split; [done|]. split.
  - assert (search_body self (Floats query) k
            = Returned (collect self (slice_to (sort_by_similarity sims) k)))
      as Hbody.
    { unfold search_body. cbn [astype_float32].
      by rewrite bind_now, Hsims, bind_now. }
    unfold search. rewrite Hbody.
    destruct (truthy (embeddings self)) eqn:E; simpl; [done|].
    apply Forall2_length in Hscored.
    destruct (embeddings self); [|done].
    destruct sims; [|done]. unfold slice_to, slice.
    change (sort_by_similarity []) with (@nil (R * nat)).
    by rewrite drop_nil, take_nil.
  - apply collect_all, Forall_forall. intros p Hp.
    apply elem_of_slice in Hp. rewrite Hperm in Hp.
    assert (p.2 ∈ seq 0 (length (embeddings self))) as Hseq.
    { rewrite <- Hidx. apply list_elem_of_fmap. by exists p. }
    apply elem_of_seq in Hseq. lia.
Qed.




(** C10: [search] returns a list for every store, every query, be it an
    array that cannot be converted, and every k; when the body of its [try]
    raises, the list is empty; and it is empty in particular when some
    stored embedding of positive norm has not the length of the query. *)
Theorem search_always_returns (self : t) (query : array) (k : Z) :
  exists results,
    search self query k = Returned results
    /\ (forall e, search_body self query k = Raised e -> results = [])
    /\ (forall q d, query = Floats q -> d ∈ embeddings self -> (0 < norm d)%R ->
        length d <> length q -> results = []).
Proof.
  unfold search. destruct (truthy (embeddings self)); simpl; [|by exists []].
  destruct (search_body self query k) as [results|e] eqn:E;
    [|by exists []].
  exists results. split; [done|]. split; [done|].
  intros q d -> Hin Hnorm Hlen. exfalso.
  destruct (similarities_raise (normalize_query q) d 0 (embeddings self)
              (ValueError "shapes not aligned") Hin) as [e He].
  { apply mismatch_raises; [done|]. by rewrite length_normalize_query. }
  unfold search_body in E. cbn [astype_float32] in E.
  by rewrite bind_now, He in E.
Qed.

Lemma search_always_returns_witness :
  exists results,
    search one_doc (Floats [1; 0]%R) 1 = Returned results
    /\ (forall e, search_body one_doc (Floats [1; 0]%R) 1 = Raised e ->
        results = [])
    /\ (forall q d, Floats [1; 0]%R = Floats q -> d ∈ embeddings one_doc ->
        (0 < norm d)%R -> length d <> length q -> results = []).
Proof. exact (search_always_returns one_doc (Floats [1; 0]%R) 1). Defined.

End SearchClaims.

Module ZeroNormClaims.
Import SimpleVectorStore StoreSpec NpFacts StoreFacts SearchFacts SearchClaims.


(** A division that follows a test [0 < d] is no division by 0. *)
Lemma divide_positive (v : ndarray) (d : R) :
  (0 < d)%R -> SearchArithmetic.divide v d = Some (scale_down v d).
Proof.
  intros Hd. unfold SearchArithmetic.divide. destruct (Req_dec_T d 0); [lra | done].
Qed.

Lemma normalize_query_guarded (linalg_norm : ndarray -> R) (query : ndarray) :
  SearchArithmetic.normalize_query linalg_norm query
  = Some (if Rlt_dec 0 (linalg_norm query)
          then scale_down query (linalg_norm query) else query).
Proof.
  unfold SearchArithmetic.normalize_query.
  destruct (Rlt_dec _ _); [by apply divide_positive | done].
Qed.

Lemma similarity_guarded (linalg_norm : ndarray -> R) (q d : ndarray) :
  SearchArithmetic.similarity linalg_norm q d
  = Some (if Rlt_dec 0 (linalg_norm d)
          then np_dot q (scale_down d (linalg_norm d)) else Returned 0%R).
Proof.
  unfold SearchArithmetic.similarity.
  destruct (Rlt_dec _ _); [by rewrite divide_positive | done].
Qed.


(** With the exact norm for [np.linalg.norm] these are the query and the
    similarity that [search] is modelled with. *)
Lemma arithmetic_agrees (query q d : ndarray) (embs : list ndarray) (i : nat) :
  SearchArithmetic.normalize_query norm query = Some (normalize_query query)
  /\ SearchArithmetic.similarity norm q d = Some (similarity q d)
  /\ SearchArithmetic.similarities norm q i embs = Some (similarities q i embs).
Proof.
  assert (forall d', SearchArithmetic.similarity norm q d' = Some (similarity q d'))
    as Hsim by (intros d'; rewrite similarity_guarded; by unfold similarity).
  rewrite normalize_query_guarded. split; [by unfold normalize_query|].
  split; [apply Hsim|]. revert i.
  induction embs as [|d' embs IH]; intros i;
    cbn [SearchArithmetic.similarities similarities]; [done|].
  rewrite Hsim. destruct (similarity q d') as [x|e]; [|done].
  rewrite IH. cbn. by destruct (similarities q (S i) embs).
Qed.





End ZeroNormClaims.

(** ** The hashing embedder: the vector of a text *)

Module EmbedderFacts.
Import SimpleEmbeddingService EmbedderSpec NpFacts.





Lemma length_accumulate (self : t) (text : str) :
  length (accumulate self text) = embedding_dim.
Proof.
  unfold accumulate.
  generalize (Counter (_tokenize text)) as c.
  assert (length (zeros embedding_dim) = embedding_dim) as H
    by apply length_replicate.
  revert H. generalize (zeros embedding_dim) as v.
  intros v H c. revert v H.
  induction c as [|item c IH]; intros v H; simpl; [done|].
  apply IH. destruct (vocabulary self !! item.1); [|done].
  by rewrite length_alter.
Qed.

(** The vector of a text that is one word of the vocabulary. *)
Lemma accumulate_one_word (self : t) (text w : str) (i : nat) :
  _tokenize text = [w] ->
  vocabulary self !! w = Some i ->
  accumulate self text
  = alter (fun x => x + INR 1 / INR 1 * default 1 (idf_values self !! w))%R
          (i mod embedding_dim)%nat (zeros embedding_dim).
Proof.
  intros Htok Hvoc. unfold accumulate. rewrite Htok.
  cbn [Counter fold_left counter_incr fst snd truthy length].
  by rewrite Hvoc.
Qed.

(** The vector of a text none of whose words is in the vocabulary. *)
Lemma accumulate_unknown (self : t) (text : str) :
  Forall (fun w => vocabulary self !! w = None) (_tokenize text) ->
  accumulate self text = zeros embedding_dim.
Proof.
  intros Hall. unfold accumulate.
  assert (Forall (fun item : str * nat => vocabulary self !! item.1 = None)
            (Counter (_tokenize text))) as Hc.
  { unfold Counter.
    assert (Forall (fun item : str * nat => vocabulary self !! item.1 = None) [])
      as Hnil by constructor.
    revert Hnil. generalize (@nil (str * nat)).
    induction Hall as [|w ws Hw _ IH]; intros c Hc; simpl; [done|].
    apply IH. clear IH.
    induction Hc as [|item c Hitem Hc IHc]; simpl.
    - constructor; [exact Hw | constructor].
    - destruct item as [w' n]. destruct (decide (w = w')); by constructor. }
  generalize (zeros embedding_dim) as v.
  induction Hc as [|item c Hitem _ IH]; intros v; simpl; [done|].
  by rewrite Hitem.
Qed.

(** The weight that [_build_vocabulary] stores for a word it has indexed. *)
Lemma idf_values_built (self : t) (texts : list str) (w : str) (i : nat) :
  vocabulary (_build_vocabulary self texts) !! w = Some i ->
  idf_values (_build_vocabulary self texts) !! w
  = Some (idf (length texts) (count_documents texts) w).
Proof.
  unfold _build_vocabulary. cbn [vocabulary idf_values]. intros H.
  rewrite lookup_union, map_lookup_imap, H. simpl.
  by destruct (idf_values self !! w).
Qed.



End EmbedderFacts.

Module EmbedderClaims.
Import SimpleEmbeddingService EmbedderSpec NpFacts EmbedderFacts.

(** Without a positive sum the result is the noise, scaled to its norm. *)
Lemma embedding_is_noise (self : t) (noise : ndarray) (text : str) :
  (np_sum (accumulate self text) <= 0)%R ->
  _text_to_embedding self noise text = scale_down noise (norm noise).
Proof.
  intros H. unfold _text_to_embedding.
  destruct (Rlt_dec _ _); [lra | done].
Qed.

(** The vector and the sum for a one-word text, after the vocabulary has been
    built from [texts]. *)
Lemma built_one_word (texts : list str) (text w : str) (i df : nat) :
  _tokenize text = [w] ->
  vocabulary (_build_vocabulary __init__ texts) !! w = Some i ->
  count_documents texts !! w = Some df ->
  (i < embedding_dim)%nat ->
  let weight := (INR 1 / INR 1 * ln (INR (length texts) / INR (df + 1)))%R in
  accumulate (_build_vocabulary __init__ texts) text
  = alter (fun x => x + weight)%R i (zeros embedding_dim)
  /\ np_sum (accumulate (_build_vocabulary __init__ texts) text) = weight.
Proof.
  intros Htok Hvoc Hdf Hi weight.
  assert (accumulate (_build_vocabulary __init__ texts) text
          = alter (fun x => x + weight)%R i (zeros embedding_dim)) as Hacc.
  { rewrite (accumulate_one_word _ text w i Htok Hvoc).
    rewrite (idf_values_built _ _ _ _ Hvoc). unfold idf. rewrite Hdf.
    by rewrite Nat.mod_small. }
  split; [exact Hacc|].
  rewrite Hacc, (np_sum_alter _ _ i 0%R) by (by apply lookup_zeros).
  rewrite np_sum_zeros. lra.
Qed.

Lemma three_texts_a :
  np_sum (accumulate three_texts (lit "a")) = (INR 1 / INR 1 * ln (INR 3 / INR 2))%R.
Proof.
  apply (built_one_word [lit "a"; lit "b"; lit "c"] (lit "a") (lit "a") 0 1).
  - vm_compute. reflexivity.
  - vm_compute. reflexivity.
  - vm_compute. reflexivity.
  - unfold embedding_dim. lia.
Qed.

(** C7, as the code has it: for a text whose accumulated vector has a
    positive sum the embedding is the same 384-component vector whatever the
    noise is, so two runs with the same vocabulary and weights agree. *)
Theorem embedding_without_noise (self : t) (text : str) (noise1 noise2 : ndarray) :
  (0 < np_sum (accumulate self text))%R ->
  _text_to_embedding self noise1 text = _text_to_embedding self noise2 text
  /\ length (_text_to_embedding self noise1 text) = embedding_dim.
Proof.
  intros Hpos. unfold _text_to_embedding.
  destruct (Rlt_dec _ _); [|done].
  split; [done|]. rewrite length_scale_down. apply length_accumulate.
Qed.

Lemma embedding_without_noise_witness :
  (0 < np_sum (accumulate three_texts (lit "a")))%R
  /\ (_text_to_embedding three_texts noise_a (lit "a")
      = _text_to_embedding three_texts noise_b (lit "a")
      /\ length (_text_to_embedding three_texts noise_a (lit "a")) = embedding_dim).
Proof.
  assert (0 < np_sum (accumulate three_texts (lit "a")))%R as H.
  { rewrite three_texts_a. simpl.
    assert (ln 1 < ln ((1 + 1 + 1) / (1 + 1)))%R as Hln
      by (apply ln_increasing; lra).
    rewrite ln_1 in Hln. lra. }
  split; [exact H|].
  exact (embedding_without_noise three_texts (lit "a") noise_a noise_b H).
Defined.

Lemma norm_noise_a : norm noise_a = 1%R.
Proof. apply norm_unit. Qed.

(** C7 as written fails: the text "zzz" has no word of the vocabulary, and
    its embedding is the first noise on one run and the second on another,
    with the same vocabulary and weights. *)
Lemma embedding_follows_noise :
  _text_to_embedding three_texts noise_a (lit "zzz")
  <> _text_to_embedding three_texts noise_b (lit "zzz").
Proof.
  assert (accumulate three_texts (lit "zzz") = zeros embedding_dim) as Hacc.
  { apply accumulate_unknown.
    replace (_tokenize (lit "zzz")) with [lit "zzz"] by (vm_compute; reflexivity).
    constructor; [|constructor]. vm_compute. reflexivity. }
  rewrite !embedding_is_noise by (rewrite Hacc, np_sum_zeros; lra).
  rewrite norm_noise_a. unfold noise_a, noise_b.
  intros Heq. apply (f_equal (fun v => default 0%R (head v))) in Heq.
  simpl in Heq. lra.
Qed.

(** C6 fails on the code for the one-word corpus ["a"] and the text "a":
    the word is in the vocabulary, with index 0; the accumulated vector has
    a norm that is not zero; and still the result is the normalized noise,
    because the weight ln(1/2) makes the sum negative.  So
    [create_embeddings] on a new service and this corpus returns the
    normalized noise for its only text. *)
Theorem known_word_falls_back :
  vocabulary one_text !! lit "a" = Some 0%nat
  /\ norm (accumulate one_text (lit "a")) <> 0%R
  /\ (forall noise,
       _text_to_embedding one_text noise (lit "a") = scale_down noise (norm noise))
  /\ (forall noise,
       create_embeddings __init__ noise [lit "a"]
       = (one_text, [scale_down (noise 0%nat) (norm (noise 0%nat))])).
Proof.
  assert (vocabulary one_text !! lit "a" = Some 0%nat) as Hvoc
    by (vm_compute; reflexivity).
  destruct (built_one_word [lit "a"] (lit "a") (lit "a") 0 1) as [Hacc Hsum];
    [vm_compute; reflexivity | exact Hvoc | vm_compute; reflexivity
     | unfold embedding_dim; lia |].
  fold one_text in Hacc, Hsum.
  assert (INR 1 / INR 1 * ln (INR (length [lit "a"]) / INR (1 + 1)) < 0)%R
    as Hneg.
  { simpl. assert (ln (1 / (1 + 1)) < ln 1)%R as Hln
      by (apply ln_increasing; lra).
    rewrite ln_1 in Hln. lra. }
  assert (forall noise,
    _text_to_embedding one_text noise (lit "a") = scale_down noise (norm noise))
    as Hnoise.
  { intros noise. apply embedding_is_noise. rewrite Hsum. lra. }
  split; [exact Hvoc|]. split; [|split; [exact Hnoise|]].
  - intros Hzero. apply norm_zero in Hzero.
    rewrite Hacc in Hzero.
    rewrite Forall_lookup in Hzero.
    specialize (Hzero 0%nat _ eq_refl). simpl in Hzero, Hneg. lra.
  - intros noise. unfold create_embeddings.
    rewrite decide_True by done. fold one_text.
    cbn [imap]. by rewrite Hnoise.
Qed.

(** What does hold of the norm: a vector with a positive sum is scaled to
    norm one, and so is the noise when its norm is positive. *)
Lemma embedding_unit_norm (self : t) (noise : ndarray) (text : str) :
  (0 < np_sum (accumulate self text))%R \/ (0 < norm noise)%R ->
  norm (_text_to_embedding self noise text) = 1%R.
Proof.
  intros H. unfold _text_to_embedding.
  destruct (Rlt_dec _ _) as [Hpos|Hneg].
  - apply norm_scale_down.
    destruct (Rle_lt_or_eq_dec 0 (norm (accumulate self text))) as [?|Heq];
      [apply sqrt_pos | done |].
    symmetry in Heq. apply norm_zero in Heq.
    assert (np_sum (accumulate self text) = 0%R) as Hs; [|lra].
    clear -Heq. induction Heq as [|x v -> _ IH]; simpl; [done|].
    rewrite IH. lra.
  - apply norm_scale_down. by destruct H.
Qed.

End EmbedderClaims.

(** ** The hashing embedder: the vocabulary *)

Module VocabularyFacts.
Import SimpleEmbeddingService EmbedderSpec RankSpec.

Lemma occurrences_snoc (words : list str) (w w' : str) :
  occurrences (words ++ [w]) w'
  = (occurrences words w' + if decide (w = w') then 1 else 0)%nat.
Proof.
  unfold occurrences. rewrite filter_app, length_app. f_equal.
  rewrite filter_cons, filter_nil. by destruct (decide (w = w')).
Qed.

Lemma occurrences_absent (words : list str) (w : str) :
  w ∉ words -> occurrences words w = 0%nat.
Proof.
  unfold occurrences. induction words as [|x words IH]; intros Hw; [done|].
  rewrite filter_cons. apply not_elem_of_cons in Hw as [Hne Hw].
  destruct (decide (x = w)); [done | by apply IH].
Qed.

(** The keys after one more word. *)
Lemma counter_incr_keys (w : str) (c : list (str * nat)) :
  (counter_incr w c).*1 = if decide (w ∈ c.*1) then c.*1 else c.*1 ++ [w].
Proof.
  induction c as [|[w' n] c IH]; cbn [counter_incr].
  - by rewrite decide_False by apply not_elem_of_nil.
  - rewrite (fmap_cons fst (w', n) c). cbn [fst].
    destruct (decide (w = w')) as [->|Hne].
    + rewrite fmap_cons. cbn [fst]. by rewrite decide_True by (by left).
    + rewrite fmap_cons, IH. cbn [fst].
      destruct (decide (w ∈ c.*1)) as [Hin|Hnin].
      * by rewrite decide_True by (by right).
      * rewrite decide_False; [done|].
        intros [?|?]%elem_of_cons; done.
Qed.

(** The entries after one more word. *)
Lemma counter_incr_entry (w : str) (c : list (str * nat)) (p : str * nat) :
  NoDup c.*1 ->
  p ∈ counter_incr w c ->
  (p.1 <> w /\ p ∈ c)
  \/ (p.1 = w
      /\ (((w ∉ c.*1) /\ p.2 = 1%nat) \/ (exists n, (w, n) ∈ c /\ p.2 = S n))).
Proof.
  induction c as [|[w' n] c IH]; simpl.
  - intros _ Hp. apply list_elem_of_singleton in Hp as ->. right.
    split; [done|]. left. split; [apply not_elem_of_nil | done].
  - intros Hnd. apply NoDup_cons in Hnd as [Hw' Hnd].
    destruct (decide (w = w')) as [->|Hne]; intros Hp;
      apply elem_of_cons in Hp as [->|Hp].
    + right. split; [done|]. right. exists n. split; [by left | done].
    + left. split; [|by right].
      intros Heq. apply Hw'. rewrite <- Heq. apply list_elem_of_fmap. by exists p.
    + left. split; [simpl; congruence | by left].
    + destruct (IH Hnd Hp) as [[H1 H2] | [H1 [[H2 H3] | (m & H2 & H3)]]].
      * left. split; [done | by right].
      * right. split; [done|]. left. split; [|done].
        apply not_elem_of_cons. by split.
      * right. split; [done|]. right. exists m. split; [by right | done].
Qed.

Lemma Counter_snoc (words : list str) (w : str) :
  Counter (words ++ [w]) = counter_incr w (Counter words).
Proof. unfold Counter. by rewrite fold_left_app. Qed.

(** A [Counter] has one entry per distinct word, in first-seen order of
    nothing but the words, each with the number of its occurrences. *)
Lemma Counter_spec (words : list str) :
  NoDup (Counter words).*1
  /\ (forall w, w ∈ (Counter words).*1 <-> w ∈ words)
  /\ (forall p, p ∈ Counter words -> p.2 = occurrences words p.1).
Proof.
  induction words as [|w words (Hnd & Hkeys & Hcount)] using rev_ind.
  - split; [constructor|]. split; [|by intros p Hp%elem_of_nil].
    intros w. simpl. by rewrite !elem_of_nil.
  - rewrite Counter_snoc. split; [|split].
    + rewrite counter_incr_keys. destruct (decide (w ∈ (Counter words).*1)); [done|].
      apply NoDup_app. split; [done|]. split; [|apply NoDup_singleton].
      intros x Hx Hx'. apply list_elem_of_singleton in Hx' as ->. done.
    + intros w'. rewrite counter_incr_keys, elem_of_app, list_elem_of_singleton.
      destruct (decide (w ∈ (Counter words).*1)) as [Hin|Hnin].
      * rewrite Hkeys. split; [tauto|]. intros [?| ->]; [done|]. by apply Hkeys.
      * rewrite elem_of_app, list_elem_of_singleton, Hkeys. tauto.
    + intros p Hp. rewrite occurrences_snoc.
      destruct (counter_incr_entry w _ p Hnd Hp)
        as [[H1 H2] | [H1 [[H2 H3] | (m & H2 & H3)]]].
      * rewrite (Hcount p H2). destruct (decide (w = p.1)); [congruence | lia].
      * rewrite H3, H1, occurrences_absent by (by rewrite <- Hkeys).
        by rewrite decide_True.
      * rewrite H3, H1, decide_True by done.
        specialize (Hcount _ H2). simpl in Hcount. lia.
Qed.


Lemma count_lt_asym (a b : str * nat) :
  count_lt a b = true -> count_lt b a = false.
Proof.
  unfold count_lt. intros H. apply Nat.ltb_lt in H. apply Nat.ltb_ge. lia.
Qed.

Lemma count_ge_trans (a b c : str * nat) :
  count_lt a b = false -> count_lt b c = false -> count_lt a c = false.
Proof. unfold count_lt. rewrite !Nat.ltb_ge. lia. Qed.

Lemma StronglySorted_any {A : Type} (l : list A) :
  StronglySorted (fun _ _ => True) l.
Proof.
  induction l as [|x l IH]; constructor; [done|]. by apply Forall_forall.
Qed.

(** The sort of [most_common] lists the entries by descending count. *)
Lemma sorted_by_count (c : list (str * nat)) :
  sorted_reverse count_lt c ≡ₚ c
  /\ StronglySorted (fun a b : str * nat => (b.2 <= a.2)%nat)
                    (sorted_reverse count_lt c).
Proof.
  split; [apply sorted_reverse_perm|].
  eapply StronglySorted_impl;
    [|apply (sorted_reverse_ranked count_lt (fun _ _ => True)
               count_lt_asym count_ge_trans), StronglySorted_any].
  intros a b. unfold ranks, count_lt.
  intros [H | [H _]]; [apply Nat.ltb_lt in H | apply Nat.ltb_ge in H]; lia.
Qed.


Lemma index_words_snoc (ranked : list (str * nat)) (x : str * nat) :
  index_words (ranked ++ [x]) = <[x.1 := length ranked]> (index_words ranked).
Proof.
  unfold index_words, enumerate. rewrite imap_app, fold_left_app. simpl.
  by rewrite Nat.add_0_r.
Qed.

(** The dictionary maps each word to its position in the ranking. *)
Lemma index_words_lookup (ranked : list (str * nat)) (w : str) (i : nat) :
  NoDup ranked.*1 ->
  index_words ranked !! w = Some i <-> ranked.*1 !! i = Some w.
Proof.
  revert i. induction ranked as [|x ranked IH] using rev_ind; intros i Hnd.
  - unfold index_words. simpl. by rewrite lookup_empty.
  - rewrite fmap_app in Hnd. apply NoDup_app in Hnd as (Hnd & Hx & _).
    rewrite index_words_snoc, fmap_app. simpl.
    assert (x.1 ∉ ranked.*1) as Hfresh.
    { intros Hin. by apply (Hx x.1 Hin), list_elem_of_singleton. }
    destruct (decide (x.1 = w)) as [<-|Hne].
    + rewrite lookup_insert_eq. split.
      * intros [= <-]. rewrite lookup_app_r by (by rewrite length_fmap).
        by rewrite length_fmap, Nat.sub_diag.
      * intros Hi. f_equal.
        destruct (decide (i < length ranked.*1)%nat) as [Hlt|Hge].
        -- rewrite lookup_app_l in Hi by done.
           exfalso. apply Hfresh. by eapply list_elem_of_lookup_2.
        -- apply lookup_lt_Some in Hi. rewrite length_app in Hi.
           rewrite length_fmap in *. simpl in Hi. lia.
    + rewrite lookup_insert_ne by done. rewrite (IH i Hnd). split.
      * intros Hi. by apply lookup_app_l_Some.
      * intros Hi. apply lookup_app_Some in Hi as [Hi | [_ Hi]]; [done|].
        apply list_lookup_singleton_Some in Hi as [_ Hi]. done.
Qed.



End VocabularyFacts.

Module VocabularyClaims.
Import SimpleEmbeddingService EmbedderSpec VocabularyFacts.


(** On two texts: "a" occurs three times, "b", "c" and "d" twice each, and
    among these three the one seen first comes first. *)
Example vocabulary_sample :
  let v := vocabulary (_build_vocabulary __init__ [lit "b a a c c"; lit "d d a b"]) in
  v !! lit "a" = Some 0%nat /\ v !! lit "b" = Some 1%nat
  /\ v !! lit "c" = Some 2%nat /\ v !! lit "d" = Some 3%nat
  /\ size v = 4%nat.
Proof. vm_compute. by repeat split. Qed.

End VocabularyClaims.

(** ** The persisted record and the load *)

Module PersistenceProperties.
Import SimpleVectorStore Persistence StoreSpec StoreFacts.

Lemma array_of_numbers_tolist (v : ndarray) :
  array_of_numbers (tolist v) = Returned v.
Proof.
  unfold tolist, array_of_numbers.
  induction v as [|x v IH]; [reflexivity|].
  rewrite fmap_cons. cbn [for_each number]. rewrite bind_now, IH. reflexivity.
Qed.

Lemma make_document_record (doc : Document) :
  make_document (document_record doc) = Returned doc.
Proof. destruct doc. reflexivity. Qed.

Lemma for_each_inverse {A B : Type} (f : A -> outcome B) (g : B -> A) (l : list B) :
  (forall b, f (g b) = Returned b) -> for_each f (g <$> l) = Returned l.
Proof.
  intros Hfg. induction l as [|b l IH]; [reflexivity|].
  rewrite fmap_cons. cbn [for_each]. rewrite Hfg, bind_now, IH. reflexivity.
Qed.

Lemma snapshot_documents (self : t) :
  get_or_empty (snapshot self) (lit "documents")
  = Returned (JList (document_record <$> documents self)).
Proof. reflexivity. Qed.

Lemma snapshot_embeddings (self : t) :
  get_or_empty (snapshot self) (lit "embeddings")
  = Returned (JList (tolist <$> embeddings self)).
Proof. reflexivity. Qed.

(** X1.  Loading the record that [_save_data] builds for a store with as
    many documents as embeddings gives that store's documents and
    embeddings back, whatever the loading store held before; [np_array] is
    only asked to read back the lists that [tolist] wrote. *)
Theorem load_saved_snapshot (np_array : json -> outcome ndarray) (self before : t) :
  (forall v, np_array (tolist v) = Returned v) ->
  length (documents self) = length (embeddings self) ->
  _load_existing_data np_array (Content (snapshot self)) before
  = mk (embedding_dim before) (documents self) (embeddings self).
Proof.
  intros Hnp Hlen.
  unfold _load_existing_data, load_body.
  rewrite snapshot_documents, bind_now. cbn [iterate]. rewrite bind_now.
  rewrite (for_each_inverse make_document document_record _ make_document_record).
  rewrite bind_now, snapshot_embeddings, bind_now.
  destruct (embeddings self) as [|e es] eqn:He.
  - destruct (documents self); [reflexivity|discriminate].
  - rewrite fmap_cons. cbn [py_bool truthy py_len]. rewrite bind_now.
    replace (len (tolist e :: (tolist <$> es)) =? len (documents self)) with true.
    + cbn [iterate]. rewrite bind_now.
      rewrite <- fmap_cons.
      rewrite (for_each_inverse np_array tolist _ Hnp), bind_now. reflexivity.
    + symmetry. apply Z.eqb_eq. unfold len. rewrite Hlen.
      cbn [length]. rewrite length_fmap. reflexivity.
Qed.

Lemma load_saved_snapshot_witness :
  ((forall v, array_of_numbers (tolist v) = Returned v)
   /\ length (documents two_docs) = length (embeddings two_docs))
  /\ _load_existing_data array_of_numbers (Content (snapshot two_docs)) one_doc
     = mk (embedding_dim one_doc) (documents two_docs) (embeddings two_docs).
Proof.
  assert ((forall v, array_of_numbers (tolist v) = Returned v)
          /\ length (documents two_docs) = length (embeddings two_docs)) as H
    by (split; [exact array_of_numbers_tolist | reflexivity]).
  split; [exact H|].
  apply (load_saved_snapshot array_of_numbers two_docs one_doc); apply H.
Defined.

End PersistenceProperties.

(** ** What [search] returns, for every store and query *)

Module SearchProperties.
Import SimpleVectorStore StoreSpec RankSpec NpFacts StoreFacts SearchFacts.

Lemma similarities_indices (q : ndarray) (embs : list ndarray) :
  forall (i : nat) (sims : list (R * nat)),
    similarities q i embs = Returned sims -> sims.*2 = seq i (length embs).
Proof.
  induction embs as [|d embs IH]; intros i sims H; cbn [similarities] in H.
  - by inversion H.
  - apply bind_returned in H as (s & _ & H).
    apply bind_returned in H as (rest & Hrest & H).
    inversion H; subst. rewrite fmap_cons. cbn [length seq snd].
    f_equal. by apply IH.
Qed.

Lemma omap_sublist {A B : Type} (f : A -> option B) (l1 l2 : list A) :
  l1 `sublist_of` l2 -> omap f l1 `sublist_of` omap f l2.
Proof.
  induction 1 as [|x l1 l2 _ IH|x l1 l2 _ IH]; simpl.
  - constructor.
  - destruct (f x); [by constructor | done].
  - destruct (f x); [by constructor | done].
Qed.

Lemma omap_submseteq {A B : Type} (f : A -> option B) (l1 l2 : list A) :
  l1 ⊆+ l2 -> omap f l1 ⊆+ omap f l2.
Proof.
  intros H. apply submseteq_sublist_l in H as (l & Hsub & Hperm).
  apply submseteq_sublist_l. exists (omap f l).
  split; [by apply omap_sublist | by apply omap_Permutation].
Qed.

Lemma omap_lookup_seq {A : Type} (l : list A) (n : nat) :
  forall i, omap (fun j => l !! j) (seq i n) = take n (drop i l).
Proof.
  induction n as [|n IH]; intros i; [by rewrite take_0|].
  cbn [seq]. simpl omap. rewrite IH.
  destruct (l !! i) as [x|] eqn:E.
  - by rewrite (drop_S l x i E).
  - apply lookup_ge_None in E.
    rewrite !drop_ge by lia. by rewrite !take_nil.
Qed.

Lemma slice_sublist {A : Type} (l : list A) (a b : Z) : slice l a b `sublist_of` l.
Proof.
  unfold slice.
  etransitivity; [apply sublist_take | apply sublist_drop].
Qed.

Lemma length_omap_le {A B : Type} (f : A -> option B) (l : list A) :
  (length (omap f l) <= length l)%nat.
Proof.
  induction l as [|x l IH]; [done|].
  simpl. unfold omap in IH. destruct (f x); simpl; lia.
Qed.

Lemma omap_snd {A B C : Type} (f : B -> option C) (l : list (A * B)) :
  omap f l.*2 = omap (fun p => f p.2) l.
Proof.
  induction l as [|p l IH]; [done|].
  simpl. unfold omap, fmap in IH. by rewrite IH.
Qed.

(** The documents collected for a part of the ranking are stored documents,
    none taken twice. *)
Lemma collect_stored (self : t) (sims : list (R * nat)) (k : Z) :
  sims.*2 = seq 0 (length (embeddings self)) ->
  collect self (slice_to (sort_by_similarity sims) k) ⊆+ documents self.
Proof.
  intros Hidx. unfold collect.
  transitivity (omap (fun p : R * nat => documents self !! p.2) sims).
  - apply omap_submseteq, submseteq_sublist_l.
    exists (sort_by_similarity sims). split; [apply slice_sublist|].
    by destruct (sort_by_similarity_precedes sims 0 _ Hidx).
  - rewrite <- (omap_snd (fun j => documents self !! j) sims).
    rewrite Hidx, omap_lookup_seq, drop_0.
    apply sublist_submseteq, sublist_take.
Qed.

(** What the body of [search] returns when it returns. *)
Lemma search_body_stored (self : t) (query : array) (k : Z) (results : list Document) :
  search_body self query k = Returned results ->
  results ⊆+ documents self
  /\ (length results <= length (embeddings self))%nat
  /\ (0 <= k -> len results <= k).
Proof.
  intros E. unfold search_body in E.
  apply bind_returned in E as (q & _ & E).
  apply bind_returned in E as (sims & Hsims & E).
  inversion E; subst results; clear E.
  pose proof (similarities_indices _ _ _ _ Hsims) as Hidx.
  destruct (sort_by_similarity_precedes sims 0 _ Hidx) as [Hperm _].
  assert (length sims = length (embeddings self)) as Hlen.
  { rewrite <- (length_fmap snd sims), Hidx. apply length_seq. }
  split; [by apply collect_stored|]. split.
  - unfold collect. etransitivity; [apply length_omap_le|].
    rewrite <- Hlen, <- (Permutation_length Hperm).
    apply sublist_length, slice_sublist.
  - intros Hk. unfold collect, len.
    pose proof (length_omap_le (fun p : R * nat => documents self !! p.2)
                  (slice_to (sort_by_similarity sims) k)) as Hle.
    pose proof (f_equal length (slice_to_take (sort_by_similarity sims) k Hk)) as Htake.
    rewrite length_take in Htake. lia.
Qed.

Lemma search_stored (self : t) (query : array) (k : Z) :
  exists results,
    search self query k = Returned results /\ results ⊆+ documents self.
Proof.
  assert (forall l : list Document, [] ⊆+ l) as Hnil
    by (intros l; apply sublist_submseteq, sublist_nil_l).
  unfold search. destruct (truthy (embeddings self)); cbn [negb];
    [|by exists []].
  destruct (search_body self query k) as [results|e] eqn:E; [|by exists []].
  exists results. split; [done|]. by destruct (search_body_stored _ _ _ _ E).
Qed.

(** X2.  Whatever the store holds, whatever the query is and whatever
    [top_k] is, [search] returns stored documents, no stored position more
    than once: the result is, up to order, a part of [documents].  It never
    has more entries than there are embeddings, and for [top_k >= 0] never
    more than [top_k]. *)
Theorem search_returns_stored_documents (self : t) (query : array) (k : Z) :
  exists results,
    search self query k = Returned results
    /\ results ⊆+ documents self
    /\ (length results <= length (embeddings self))%nat
    /\ (0 <= k -> len results <= k).
Proof.
  assert (forall l : list Document, [] ⊆+ l) as Hnil
    by (intros l; apply sublist_submseteq, sublist_nil_l).
  unfold search. destruct (truthy (embeddings self)); cbn [negb];
    [|exists []; repeat split; [apply Hnil | cbn; lia | unfold len; cbn; lia]].
  destruct (search_body self query k) as [results|e] eqn:E;
    [|exists []; repeat split; [apply Hnil | cbn; lia | unfold len; cbn; lia]].
  exists results. split; [done|]. by apply (search_body_stored self query).
Qed.

(** *** More results *)

Lemma omap_prefix {A B : Type} (f : A -> option B) (l1 l2 : list A) :
  l1 `prefix_of` l2 -> omap f l1 `prefix_of` omap f l2.
Proof. intros [k ->]. rewrite omap_app. by eexists. Qed.

Lemma slice_to_prefix {A : Type} (l : list A) (k k' : Z) :
  0 <= k <= k' -> slice_to l k `prefix_of` slice_to l k'.
Proof.
  intros Hk. rewrite !slice_to_take by lia.
  exists (take (Z.to_nat (Z.min k' (len l)) - Z.to_nat (Z.min k (len l)))
               (drop (Z.to_nat (Z.min k (len l))) l)).
  rewrite take_take_drop. f_equal. lia.
Qed.

(** X3.  Asking for more results never changes the first ones: for
    0 <= k <= k' the result of [search] for [k] is the beginning of the
    result for [k'], for every store and query. *)
Theorem search_results_extend (self : t) (query : array) (k k' : Z) :
  0 <= k <= k' ->
  exists fewer more,
    search self query k = Returned fewer
    /\ search self query k' = Returned more
    /\ fewer `prefix_of` more.
Proof.
  intros Hk. unfold search.
  destruct (truthy (embeddings self)); cbn [negb]; [|by exists [], []].
  unfold search_body.
  destruct (astype_float32 query) as [q|]; [|by exists [], []].
  rewrite !bind_now.
  destruct (similarities (normalize_query q) 0 (embeddings self)) as [sims|];
    [|by exists [], []].
  rewrite !bind_now. do 2 eexists. split; [done|]. split; [done|].
  by apply omap_prefix, slice_to_prefix.
Qed.

Lemma search_results_extend_witness :
  0 <= 1 <= 5
  /\ exists fewer more,
       search two_docs (Floats second_axis) 1 = Returned fewer
       /\ search two_docs (Floats second_axis) 5 = Returned more
       /\ fewer `prefix_of` more.
Proof.
  split; [lia|]. apply (search_results_extend two_docs (Floats second_axis) 1 5). lia.
Defined.

End SearchProperties.

(** ** [add_documents] replaces *)

Module RetrievalProperties.
Import SimpleVectorStore StoreSpec RankSpec NpFacts StoreFacts SearchFacts.

(** X4.  [add_documents] replaces: after a call with as many documents as
    arrays, all numeric, the store holds exactly these documents and arrays,
    whatever it held before, and the call returns also when writing the
    snapshot failed.  [search] then finds nothing but the new documents. *)
Theorem add_documents_replaces (written : outcome unit) (self : t)
  (docs : list Document) (vs : list ndarray) :
  length docs = length vs ->
  let call := add_documents written self docs (Floats <$> vs) in
  call.1 = Returned tt
  /\ documents call.2 = docs
  /\ embeddings call.2 = vs
  /\ get_document_count call.2 = len docs
  /\ forall query k, exists results,
       search call.2 query k = Returned results /\ results ⊆+ docs.
Proof.
  intros Hlen.
  assert (add_documents written self docs (Floats <$> vs)
          = (Returned tt, mk (embedding_dim self) docs vs)) as ->.
  { unfold add_documents, len. rewrite length_fmap, Hlen, Z.eqb_refl.
    cbn [negb]. rewrite for_each_floats. by destruct written. }
  cbn [fst snd documents embeddings]. repeat split.
  intros query k.
  apply (SearchProperties.search_stored (mk (embedding_dim self) docs vs)).
Qed.

Lemma add_documents_replaces_witness :
  let call := add_documents (Raised OSError) two_docs [doc "c0"] (Floats <$> [first_axis]) in
  length [doc "c0"] = length [first_axis]
  /\ call.1 = Returned tt
  /\ documents call.2 = [doc "c0"]
  /\ embeddings call.2 = [first_axis]
  /\ get_document_count call.2 = len [doc "c0"]
  /\ forall query k, exists results,
       search call.2 query k = Returned results /\ results ⊆+ [doc "c0"].
Proof.
  split; [reflexivity|].
  apply (add_documents_replaces (Raised OSError) two_docs [doc "c0"] [first_axis]).
  reflexivity.
Defined.

End RetrievalProperties.

(** ** The embedder: shape, norm, weights *)

Module EmbeddingProperties.
Import SimpleEmbeddingService EmbedderSpec FrequencySpec NpFacts EmbedderFacts
  VocabularyFacts.

Lemma length_text_to_embedding (self : t) (noise : ndarray) (text : str) :
  length noise = embedding_dim ->
  length (_text_to_embedding self noise text) = embedding_dim.
Proof.
  intros Hn. unfold _text_to_embedding.
  destruct (Rlt_dec _ _); rewrite length_scale_down; [apply length_accumulate | done].
Qed.

Lemma sum_zero_of_zeros (v : ndarray) :
  Forall (fun x => x = 0%R) v -> np_sum v = 0%R.
Proof.
  induction 1 as [|x v -> _ IH]; cbn [np_sum fold_right]; [done|].
  unfold np_sum in IH. rewrite IH. lra.
Qed.

Lemma text_to_embedding_unit_norm (self : t) (noise : ndarray) (text : str) :
  (0 < norm noise)%R -> norm (_text_to_embedding self noise text) = 1%R.
Proof.
  intros Hn. unfold _text_to_embedding.
  destruct (Rlt_dec _ _) as [Hpos|Hneg]; apply norm_scale_down; [|done].
  destruct (Rle_lt_or_eq_dec 0 (norm (accumulate self text))) as [?|Heq];
    [apply sqrt_pos | done |].
  symmetry in Heq. apply norm_zero, sum_zero_of_zeros in Heq. lra.
Qed.

Lemma Forall_imap {A B : Type} (P : B -> Prop) (f : nat -> A -> B) (l : list A) :
  (forall i a, P (f i a)) -> Forall P (imap f l).
Proof.
  revert f. induction l as [|a l IH]; intros f H; cbn [imap]; constructor.
  - apply H.
  - apply IH. intros i b. apply H.
Qed.

(** X5.  [create_embeddings] returns one vector for every text, in order:
    the vector at position [i] is the embedding of the text at position [i],
    made with the vocabulary that the call leaves in the service and with
    the draw of the noise for that text; and every vector has 384
    components, whether the vocabulary is built by this call or was there
    before.  The draws of the noise are taken to have 384 components, as
    [np.random.normal(0, 0.1, 384)] gives them. *)
Theorem create_embeddings_shape (self : t) (noise : nat -> ndarray) (texts : list str) :
  (forall i, length (noise i) = embedding_dim) ->
  length (create_embeddings self noise texts).2 = length texts
  /\ Forall (fun e => length e = embedding_dim) (create_embeddings self noise texts).2
  /\ forall i text,
       texts !! i = Some text ->
       (create_embeddings self noise texts).2 !! i
       = Some (_text_to_embedding (create_embeddings self noise texts).1 (noise i) text).
Proof.
  intros Hn. unfold create_embeddings. cbn [fst snd]. split; [|split].
  - apply length_imap.
  - apply Forall_imap. intros i text. by apply length_text_to_embedding.
  - intros i text Hi. by rewrite list_lookup_imap, Hi.
Qed.

Lemma create_embeddings_shape_witness :
  (forall i, length (constant_noise noise_a i) = embedding_dim)
  /\ length (create_embeddings __init__ (constant_noise noise_a)
               [lit "a b"; lit "b c"; lit ""]).2
     = length [lit "a b"; lit "b c"; lit ""]
  /\ Forall (fun e => length e = embedding_dim)
       (create_embeddings __init__ (constant_noise noise_a)
          [lit "a b"; lit "b c"; lit ""]).2
  /\ forall i text,
       [lit "a b"; lit "b c"; lit ""] !! i = Some text ->
       (create_embeddings __init__ (constant_noise noise_a)
          [lit "a b"; lit "b c"; lit ""]).2 !! i
       = Some (_text_to_embedding
                 (create_embeddings __init__ (constant_noise noise_a)
                    [lit "a b"; lit "b c"; lit ""]).1
                 (constant_noise noise_a i) text).
Proof.
  split; [intros i; reflexivity|].
  apply (create_embeddings_shape __init__ (constant_noise noise_a)
           [lit "a b"; lit "b c"; lit ""]).
  intros i. reflexivity.
Defined.

(** X6.  Every vector that [create_embeddings] returns has Euclidean norm
    1, as long as no draw of the noise is the zero vector: a text with a
    positive sum of weights is divided by its norm, every other text gets
    the normalised noise. *)
Theorem create_embeddings_unit_norm (self : t) (noise : nat -> ndarray)
  (texts : list str) :
  (forall i, (0 < norm (noise i))%R) ->
  Forall (fun e => norm e = 1%R) (create_embeddings self noise texts).2.
Proof.
  intros Hn. unfold create_embeddings. cbn [snd].
  apply Forall_imap. intros i text. by apply text_to_embedding_unit_norm.
Qed.

Lemma create_embeddings_unit_norm_witness :
  (forall i, (0 < norm (constant_noise noise_a i))%R)
  /\ Forall (fun e => norm e = 1%R)
       (create_embeddings __init__ (constant_noise noise_a)
          [lit "a b"; lit "b c"; lit ""]).2.
Proof.
  assert (forall i, (0 < norm (constant_noise noise_a i))%R) as H
    by (intros i; unfold constant_noise, noise_a; rewrite norm_unit; lra).
  split; [exact H|].
  apply (create_embeddings_unit_norm __init__ (constant_noise noise_a)
           [lit "a b"; lit "b c"; lit ""] H).
Defined.

(** X7.  A text none of whose tokens is in the vocabulary, the empty text
    and a text without word characters among them, is embedded as the
    normalised noise: its embedding says nothing about the text. *)
Theorem unknown_words_embed_as_noise (self : t) (noise : ndarray) (text : str) :
  Forall (fun w => vocabulary self !! w = None) (_tokenize text) ->
  _text_to_embedding self noise text = scale_down noise (norm noise).
Proof.
  intros H. unfold _text_to_embedding.
  rewrite (accumulate_unknown self text H), np_sum_zeros.
  destruct (Rlt_dec 0 0); [lra | done].
Qed.

Lemma unknown_words_embed_as_noise_witness :
  Forall (fun w => vocabulary three_texts !! w = None) (_tokenize (lit "zzz, yy!"))
  /\ _text_to_embedding three_texts noise_a (lit "zzz, yy!")
     = scale_down noise_a (norm noise_a).
Proof.
  assert (Forall (fun w => vocabulary three_texts !! w = None)
            (_tokenize (lit "zzz, yy!"))) as H by (by repeat constructor).
  split; [exact H|].
  apply (unknown_words_embed_as_noise three_texts noise_a (lit "zzz, yy!") H).
Defined.

(** *** Document counts *)

Lemma count_words_lookup (ws : list str) (w : str) :
  NoDup ws ->
  forall m : gmap str nat,
    fold_left (fun m w => <[w := S (default 0%nat (m !! w))]> m) ws m !! w
    = if decide (w ∈ ws) then Some (S (default 0%nat (m !! w))) else m !! w.
Proof.
  induction 1 as [|a ws Ha _ IH]; intros m; cbn [fold_left].
  - by rewrite decide_False by apply not_elem_of_nil.
  - rewrite IH. destruct (decide (w = a)) as [->|Hne].
    + rewrite lookup_insert.
      destruct (decide (a ∈ ws)); [done|].
      destruct (decide (a ∈ a :: ws)) as [|Hn]; [|exfalso; apply Hn; left].
      by rewrite decide_True by done.
    + rewrite lookup_insert_ne by done.
      destruct (decide (w ∈ ws)) as [Hin|Hout].
      * destruct (decide (w ∈ a :: ws)) as [|Hn]; [done|].
        exfalso. apply Hn. by right.
      * destruct (decide (w ∈ a :: ws)) as [Hin|]; [|done].
        apply elem_of_cons in Hin as [?|?]; done.
Qed.

Lemma count_documents_from (texts : list str) (w : str) :
  forall m : gmap str nat,
    fold_left
      (fun m text =>
         fold_left (fun m w => <[w := S (default 0%nat (m !! w))]> m)
                   (remove_dups (_tokenize text)) m)
      texts m !! w
    = if decide (document_frequency texts w = 0%nat) then m !! w
      else Some (document_frequency texts w + default 0%nat (m !! w))%nat.
Proof.
  unfold document_frequency.
  induction texts as [|text texts IH]; intros m; cbn [fold_left]; [done|].
  rewrite IH, count_words_lookup by apply NoDup_remove_dups.
  rewrite filter_cons.
  destruct (decide (w ∈ remove_dups (_tokenize text))) as [Hin|Hout].
  - rewrite elem_of_remove_dups in Hin.
    destruct (decide (w ∈ _tokenize text)); [|done].
    cbn [length default].
    destruct (decide (length (filter (fun text => w ∈ _tokenize text) texts) = 0%nat))
      as [->|]; [done|].
    destruct (decide (S _ = 0%nat)); [done|]. f_equal. simpl. lia.
  - rewrite elem_of_remove_dups in Hout.
    destruct (decide (w ∈ _tokenize text)); [done|].
    by destruct (decide _).
Qed.

Lemma count_documents_lookup (texts : list str) (w : str) :
  count_documents texts !! w
  = if decide (document_frequency texts w = 0%nat) then None
    else Some (document_frequency texts w).
Proof.
  unfold count_documents. rewrite count_documents_from, lookup_empty.
  destruct (decide _); [done|]. f_equal. simpl. lia.
Qed.

Lemma vocabulary_words (self : t) (texts : list str) (w : str) (i : nat) :
  vocabulary (_build_vocabulary self texts) !! w = Some i -> w ∈ all_words texts.
Proof.
  unfold _build_vocabulary. cbn [vocabulary].
  set (c := Counter (all_words texts)).
  destruct (Counter_spec (all_words texts)) as (Hnd & Hkeys & _).
  destruct (sorted_by_count c) as [Hperm _]. fold c in Hnd, Hkeys.
  intros H. apply index_words_lookup in H.
  - apply Hkeys. apply list_elem_of_lookup_2 in H.
    unfold most_common in H. rewrite fmap_take in H.
    apply subseteq_take in H. by rewrite <- Hperm.
  - unfold most_common. rewrite fmap_take.
    eapply sublist_NoDup; [|apply sublist_take]. by rewrite Hperm.
Qed.

Lemma document_frequency_positive (texts : list str) (w : str) :
  w ∈ all_words texts -> (1 <= document_frequency texts w)%nat.
Proof.
  unfold all_words, document_frequency.
  induction texts as [|text texts IH]; cbn [map concat]; intros H.
  - by apply elem_of_nil in H.
  - rewrite filter_cons. apply elem_of_app in H as [H|H].
    + rewrite decide_True by done. cbn [length]. lia.
    + destruct (decide _); cbn [length]; [|by apply IH].
      pose proof (IH H). lia.
Qed.

(** X8.  The weight of an indexed word is ln(D / (df + 1)), where D is the
    number of texts the vocabulary was built from and df the number of them
    in which the word occurs, and 1 <= df <= D.  So the weight is negative
    for a word that occurs in every text, zero for a word that misses
    exactly one text, and positive otherwise. *)
Theorem idf_by_document_frequency (self : t) (texts : list str) (w : str) (i : nat) :
  vocabulary (_build_vocabulary self texts) !! w = Some i ->
  let df := document_frequency texts w in
  let weight := ln (INR (length texts) / INR (df + 1)) in
  (1 <= df <= length texts)%nat
  /\ idf_values (_build_vocabulary self texts) !! w = Some weight
  /\ (df = length texts -> (weight < 0)%R)
  /\ ((df + 1)%nat = length texts -> weight = 0%R)
  /\ ((df + 1 < length texts)%nat -> (0 < weight)%R).
Proof.
  intros Hv df weight.
  assert (1 <= df)%nat as Hdf
    by (eapply document_frequency_positive, vocabulary_words, Hv).
  assert (df <= length texts)%nat as Hle by apply length_filter.
  split; [done|]. split.
  - rewrite (idf_values_built self texts w i Hv). unfold idf.
    rewrite count_documents_lookup. fold df.
    rewrite decide_False by lia. done.
  - assert (0 < INR (df + 1))%R as Hpos by (apply lt_0_INR; lia).
    assert (0 < INR (length texts))%R as HD by (apply lt_0_INR; lia).
    unfold weight. split; [|split].
    + intros Heq. rewrite <- ln_1. apply ln_increasing.
      * by apply Rdiv_lt_0_compat.
      * apply (Rmult_lt_reg_r (INR (df + 1))); [done|].
        unfold Rdiv. rewrite Rmult_assoc, Rinv_l by lra.
        rewrite <- Heq, plus_INR. simpl. lra.
    + intros <-. rewrite Rdiv_diag by lra. apply ln_1.
    + intros Hlt. rewrite <- ln_1. apply ln_increasing; [lra|].
      apply (Rmult_lt_reg_r (INR (df + 1))); [done|].
      unfold Rdiv. rewrite Rmult_assoc, Rinv_l by lra.
      apply lt_INR in Hlt. lra.
Qed.

Lemma idf_by_document_frequency_witness :
  let texts := [lit "b a a c c"; lit "d d a b"] in
  let df := document_frequency texts (lit "a") in
  let weight := ln (INR (length texts) / INR (df + 1)) in
  vocabulary (_build_vocabulary __init__ texts) !! lit "a" = Some 0%nat
  /\ (1 <= df <= length texts)%nat
  /\ idf_values (_build_vocabulary __init__ texts) !! lit "a" = Some weight
  /\ (df = length texts -> (weight < 0)%R)
  /\ ((df + 1)%nat = length texts -> weight = 0%R)
  /\ ((df + 1 < length texts)%nat -> (0 < weight)%R).
Proof.
  assert (vocabulary (_build_vocabulary __init__ [lit "b a a c c"; lit "d d a b"])
            !! lit "a" = Some 0%nat) as H by (vm_compute; reflexivity).
  split; [exact H|].
  apply (idf_by_document_frequency __init__ [lit "b a a c c"; lit "d d a b"]
           (lit "a") 0%nat H).
Defined.

(** *** The order of the words *)

Lemma fold_left_permutation {A B : Type} (f : B -> A -> B) (l1 l2 : list A) :
  (forall b x y, f (f b x) y = f (f b y) x) ->
  l1 ≡ₚ l2 -> forall b, fold_left f l1 b = fold_left f l2 b.
Proof.
  intros Hf. induction 1 as [|x l1 l2 _ IH|x y l|l1 l2 l3 _ IH1 _ IH2]; intros b;
    cbn [fold_left].
  - done.
  - apply IH.
  - by rewrite Hf.
  - by rewrite IH1.
Qed.

Lemma occurrences_permutation (words1 words2 : list str) (w : str) :
  words1 ≡ₚ words2 -> occurrences words1 w = occurrences words2 w.
Proof. intros H. unfold occurrences. by rewrite H. Qed.

Lemma Counter_permutation (words1 words2 : list str) :
  words1 ≡ₚ words2 -> Counter words1 ≡ₚ Counter words2.
Proof.
  intros Hperm.
  destruct (Counter_spec words1) as (Hnd1 & Hkeys1 & Hcount1).
  destruct (Counter_spec words2) as (Hnd2 & Hkeys2 & Hcount2).
  assert (forall ws1 ws2 : list str, ws1 ≡ₚ ws2 ->
            NoDup (Counter ws2).*1 ->
            (forall w, w ∈ (Counter ws2).*1 <-> w ∈ ws2) ->
            (forall p, p ∈ Counter ws1 -> p.2 = occurrences ws1 p.1) ->
            (forall p, p ∈ Counter ws2 -> p.2 = occurrences ws2 p.1) ->
            (forall w, w ∈ (Counter ws1).*1 <-> w ∈ ws1) ->
            forall p, p ∈ Counter ws1 -> p ∈ Counter ws2) as Hincl.
  { intros ws1 ws2 Hp Hnd Hk2 Hc1 Hc2 Hk1 p Hin.
    assert (p.1 ∈ (Counter ws2).*1) as Hkey.
    { apply Hk2. rewrite <- Hp. apply Hk1. apply list_elem_of_fmap. by exists p. }
    apply list_elem_of_fmap in Hkey as (p' & Heq & Hin').
    assert (p = p') as ->; [|done].
    pose proof (Hc1 _ Hin) as H1. pose proof (Hc2 _ Hin') as H2.
    destruct p as [w n], p' as [w' n']. cbn in Heq, H1, H2. subst w' n n'.
    f_equal. by apply occurrences_permutation. }
  apply NoDup_Permutation.
  - by apply NoDup_fmap_1 in Hnd1.
  - by apply NoDup_fmap_1 in Hnd2.
  - intros p. split; [by apply (Hincl words1 words2) | by apply (Hincl words2 words1)].
Qed.

Lemma accumulate_permutation (self : t) (text1 text2 : str) :
  _tokenize text1 ≡ₚ _tokenize text2 -> accumulate self text1 = accumulate self text2.
Proof.
  intros Hperm. unfold accumulate.
  assert (truthy (_tokenize text1) = truthy (_tokenize text2)) as ->.
  { apply Permutation_length in Hperm.
    by destruct (_tokenize text1), (_tokenize text2). }
  rewrite (Permutation_length Hperm).
  apply fold_left_permutation; [|by apply Counter_permutation].
  intros v a b.
  destruct (vocabulary self !! a.1) as [i|], (vocabulary self !! b.1) as [j|];
    try done.
  rewrite list_alter_alter. destruct (decide _) as [Heq|Hne]; [|done].
  rewrite Heq, list_alter_alter_eq.
  apply list_alter_ext; [|done]. intros x _. cbn. lra.
Qed.

(** X9.  The embedding is that of a bag of words: two texts with the same
    tokens, in whatever order, get the same vector (for the same draw of the
    noise). *)
Theorem embedding_ignores_word_order (self : t) (noise : ndarray) (text1 text2 : str) :
  _tokenize text1 ≡ₚ _tokenize text2 ->
  _text_to_embedding self noise text1 = _text_to_embedding self noise text2.
Proof.
  intros H. unfold _text_to_embedding. by rewrite (accumulate_permutation self _ _ H).
Qed.

Lemma embedding_ignores_word_order_witness :
  _tokenize (lit "B, a") ≡ₚ _tokenize (lit "a b")
  /\ _text_to_embedding three_texts noise_a (lit "B, a")
     = _text_to_embedding three_texts noise_a (lit "a b").
Proof.
  assert (_tokenize (lit "B, a") ≡ₚ _tokenize (lit "a b")) as H
    by (change ([lit "b"; lit "a"] ≡ₚ [lit "a"; lit "b"]); apply perm_swap).
  split; [exact H|].
  apply (embedding_ignores_word_order three_texts noise_a (lit "B, a") (lit "a b") H).
Defined.

End EmbeddingProperties.

(** ** The chunker: termination, content, shape of the chunks *)

Module ChunkingProperties.
Import DocumentProcessor ChunkerSpec ChunkingSpec ChunkerFacts.

(** *** [strip] *)

Lemma lstrip_suffix (l : str) : exists w, l = w ++ lstrip l.
Proof.
  induction l as [|c l [w IH]]; [by exists []|].
  cbn [lstrip]. destruct (isspace c); [|by exists []].
  exists (c :: w). cbn [app]. by rewrite <- IH.
Qed.

Lemma lstrip_head_solid (l : str) : head_solid (lstrip l).
Proof.
  induction l as [|c l IH]; [done|].
  cbn [lstrip]. by destruct (isspace c) eqn:E.
Qed.

Lemma head_solid_lstrip (l : str) : head_solid l -> lstrip l = l.
Proof. destruct l as [|c l]; [done|]. cbn [head_solid lstrip]. by intros ->. Qed.

Lemma head_solid_prefix (a b : str) : head_solid (a ++ b) -> head_solid a.
Proof. by destruct a. Qed.

Lemma strip_head_solid (l : str) : head_solid (strip l).
Proof.
  unfold strip.
  destruct (lstrip_suffix (rev (lstrip l))) as [w Hw].
  apply (head_solid_prefix _ (rev w)).
  rewrite <- rev_app_distr, <- Hw, rev_involutive.
  apply lstrip_head_solid.
Qed.

Lemma strip_idempotent (l : str) : strip (strip l) = strip l.
Proof.
  unfold strip at 1.
  rewrite (head_solid_lstrip (strip l)) by apply strip_head_solid.
  unfold strip. rewrite rev_involutive.
  by rewrite (head_solid_lstrip (lstrip _)) by apply lstrip_head_solid.
Qed.

Lemma strip_part (l : str) : part_of (strip l) l.
Proof.
  unfold strip, part_of.
  destruct (lstrip_suffix l) as [w Hw].
  destruct (lstrip_suffix (rev (lstrip l))) as [w' Hw'].
  exists w, (rev w').
  rewrite <- rev_app_distr, <- Hw', rev_involutive. exact Hw.
Qed.

Lemma slice_part (l : str) (a b : Z) : part_of (slice l a b) l.
Proof.
  unfold slice, part_of.
  exists (take (Z.to_nat (adjust (len l) a)) l),
         (drop (Z.to_nat (adjust (len l) b - adjust (len l) a))
               (drop (Z.to_nat (adjust (len l) a)) l)).
  by rewrite !take_drop.
Qed.

Lemma part_of_trans (a b c : str) : part_of a b -> part_of b c -> part_of a c.
Proof.
  intros (x & y & ->) (x' & y' & ->). exists (x' ++ x), (y ++ y').
  by rewrite <- !app_assoc.
Qed.

Lemma solid_lstrip (l : str) : solid (lstrip l) = solid l.
Proof.
  unfold solid. induction l as [|c l IH]; [done|].
  cbn [lstrip]. destruct (isspace c) eqn:E; [|done].
  rewrite filter_cons, E. rewrite decide_False by done. exact IH.
Qed.

Lemma solid_rev (l : str) : solid (rev l) = rev (solid l).
Proof. unfold solid. rewrite !rev_alt. apply filter_reverse. Qed.

Lemma solid_strip (l : str) : solid (strip l) = solid l.
Proof.
  unfold strip.
  by rewrite solid_rev, solid_lstrip, solid_rev, rev_involutive, solid_lstrip.
Qed.

Lemma solid_app (a b : str) : solid (a ++ b) = solid a ++ solid b.
Proof. apply filter_app. Qed.

Lemma truthy_false {A : Type} (l : list A) : truthy l = false -> l = [].
Proof. by destruct l. Qed.

(** *** Slices that follow one another *)

Lemma take_slice {A : Type} (l : list A) (a b : Z) :
  0 <= a <= b ->
  take (Z.to_nat b) l = take (Z.to_nat a) l ++ slice l a b.
Proof.
  intros Hab. unfold slice, adjust, len.
  destruct (Z.ltb_spec a 0); [lia|]. destruct (Z.ltb_spec b 0); [lia|].
  destruct (Z.le_gt_cases a (Z.of_nat (length l))) as [Ha|Ha].
  - rewrite (Z.min_l a) by lia.
    rewrite take_take_drop.
    destruct (Z.le_gt_cases b (Z.of_nat (length l))) as [Hb|Hb].
    + rewrite (Z.min_l b) by lia. f_equal. lia.
    + rewrite (Z.min_r b) by lia. rewrite !take_ge by lia. done.
  - rewrite (Z.min_r a), (Z.min_r b) by lia.
    rewrite Z.sub_diag. cbn [Z.to_nat take]. rewrite app_nil_r.
    by rewrite !take_ge by lia.
Qed.

(** *** No overlap: every pass moves on *)

Lemma chunk_end_progress (cs : Z) (text : str) (i : Z) :
  99 <= cs -> i < chunk_end (mk cs 0) text i.
Proof.
  intros Hcs. unfold chunk_end. cbn [chunk_size]. split_tests; lia.
Qed.

Lemma chunk_loop_returns (cs : Z) (text : str) :
  99 <= cs ->
  forall (fuel : nat) (s : loop_state),
    (Z.to_nat (len text - start s) < fuel)%nat ->
    exists r, chunk_loop fuel (mk cs 0) text s = Some r.
Proof.
  intros Hcs. induction fuel as [|fuel IH]; intros s Hfuel; [lia|].
  cbn [chunk_loop].
  destruct (Z.ltb_spec (start s) (len text)) as [Hlt|]; [|by eexists].
  pose proof (chunk_end_progress cs text (start s) Hcs) as Hend.
  unfold loop_body. cbn [chunk_overlap].
  destruct (Z.geb_spec (chunk_end (mk cs 0) text (start s) - 0) (len text));
    [by eexists|].
  apply IH. cbn [start]. lia.
Qed.

Lemma chunk_loop_more (self : t) (text : str) (r : list str) :
  forall (fuel fuel' : nat) (s : loop_state),
    chunk_loop fuel self text s = Some r -> (fuel <= fuel')%nat ->
    chunk_loop fuel' self text s = Some r.
Proof.
  induction fuel as [|fuel IH]; intros fuel' s H Hle; [done|].
  destruct fuel' as [|fuel']; [lia|].
  cbn [chunk_loop] in *.
  destruct (start s <? len text); [|done].
  destruct (loop_body self text s) as [s'|s']; [|done].
  apply (IH fuel' s' H). lia.
Qed.

(** X10.  Without overlap and with a chunk size of at least 99 the chunker
    returns for every text, and the loop is left within one pass per
    character: every amount of fuel above the length of the text gives the
    same chunks. *)
Theorem chunking_without_overlap_returns (cs : Z) (text : str) :
  99 <= cs ->
  exists chunks,
    forall fuel, (length text < fuel)%nat ->
      _chunk_text fuel (mk cs 0) text = Some chunks.
Proof.
  intros Hcs. unfold _chunk_text. cbn [chunk_size].
  destruct (len text <=? cs); [by exists [text]|].
  destruct (chunk_loop_returns cs text Hcs (S (length text)) (st 0 []))
    as [r Hr]; [cbn [start]; unfold len; lia|].
  exists r. intros fuel Hfuel.
  apply (chunk_loop_more _ _ _ (S (length text))); [done | lia].
Qed.

Lemma chunking_without_overlap_returns_witness :
  99 <= 120
  /\ exists chunks,
       forall fuel, (length three_sentences < fuel)%nat ->
         _chunk_text fuel (mk 120 0) three_sentences = Some chunks.
Proof.
  split; [lia|]. apply (chunking_without_overlap_returns 120 three_sentences). lia.
Defined.

(** *** No overlap: nothing but white space is lost *)

Lemma chunk_loop_solid (cs : Z) (text : str) (r : list str) :
  99 <= cs ->
  forall (fuel : nat) (s : loop_state),
    0 <= start s ->
    solid (concat (chunks s)) = solid (take (Z.to_nat (start s)) text) ->
    chunk_loop fuel (mk cs 0) text s = Some r ->
    solid (concat r) = solid text.
Proof.
  intros Hcs. induction fuel as [|fuel IH]; intros s Hstart Hinv H; [done|].
  cbn [chunk_loop] in H.
  assert (forall s', len text <= start s' ->
            solid (concat (chunks s')) = solid (take (Z.to_nat (start s')) text) ->
            solid (concat (chunks s')) = solid text) as Hdone.
  { intros s' Hge ->. rewrite take_ge; [done|]. unfold len in Hge. lia. }
  destruct (Z.ltb_spec (start s) (len text)) as [Hlt|Hge];
    [|injection H as <-; by apply Hdone].
  pose proof (chunk_end_progress cs text (start s) Hcs) as Hend.
  unfold loop_body in H. cbn [chunk_overlap] in H.
  set (e := chunk_end (mk cs 0) text (start s)) in *.
  set (chunk := strip (slice text (start s) e)) in *.
  assert (solid (concat (if truthy chunk then chunks s ++ [chunk] else chunks s))
          = solid (take (Z.to_nat (e - 0)) text)) as Hnext.
  { rewrite Z.sub_0_r, (take_slice text (start s) e) by lia.
    rewrite solid_app, <- Hinv, <- (solid_strip (slice _ _ _)). fold chunk.
    destruct (truthy chunk) eqn:E.
    - by rewrite concat_app, solid_app; cbn [concat]; rewrite app_nil_r.
    - apply truthy_false in E. rewrite E. cbn. by rewrite app_nil_r. }
  destruct (Z.geb_spec (e - 0) (len text)) as [Hout|Hin].
  - injection H as <-. apply (Hdone (st (e - 0) _)); cbn [start chunks]; [lia | done].
  - apply (IH (st (e - 0) (if truthy chunk then chunks s ++ [chunk] else chunks s)));
      [cbn [start]; lia | exact Hnext | exact H].
Qed.

(** X11.  Without overlap and with a chunk size of at least 99 the chunks,
    put one after the other, hold the characters of the text that are no
    white space, all of them, once each and in their order: the chunker
    drops white space only. *)
Theorem chunks_keep_the_text (cs : Z) (text : str) (fuel : nat) (result : list str) :
  99 <= cs ->
  _chunk_text fuel (mk cs 0) text = Some result ->
  solid (concat result) = solid text.
Proof.
  intros Hcs. unfold _chunk_text. cbn [chunk_size].
  destruct (len text <=? cs).
  - intros [= <-]. cbn [concat]. by rewrite app_nil_r.
  - apply (chunk_loop_solid cs text result Hcs fuel (st 0 [])); [done|].
    cbn [start chunks]. by rewrite take_0.
Qed.

Lemma chunks_keep_the_text_witness :
  (99 <= 99
   /\ _chunk_text 4 (mk 99 0) three_sentences
      = Some [lit "The first sentence is here. And a second one follows it.";
              repeat "x"%char 71])
  /\ solid (concat [lit "The first sentence is here. And a second one follows it.";
                    repeat "x"%char 71])
     = solid three_sentences.
Proof.
  assert (99 <= 99
          /\ _chunk_text 4 (mk 99 0) three_sentences
             = Some [lit "The first sentence is here. And a second one follows it.";
                     repeat "x"%char 71]) as H
    by (split; [lia | vm_compute; reflexivity]).
  split; [exact H|].
  apply (chunks_keep_the_text 99 three_sentences 4); apply H.
Defined.

(** *** The shape of a chunk *)

Lemma loop_body_trimmed (self : t) (text : str) (s : loop_state) :
  Forall (trimmed_part text) (chunks s) ->
  match loop_body self text s with
  | inl s' => Forall (trimmed_part text) (chunks s')
  | inr s' => Forall (trimmed_part text) (chunks s')
  end.
Proof.
  intros Hall.
  assert (Forall (trimmed_part text)
            (if truthy (strip (slice text (start s) (chunk_end self text (start s))))
             then chunks s ++ [strip (slice text (start s) (chunk_end self text (start s)))]
             else chunks s)) as Hnext.
  { destruct (truthy _) eqn:E; [|done].
    apply Forall_app. split; [done|]. constructor; [|constructor].
    split; [by intros H; rewrite H in E|].
    split; [apply strip_idempotent|].
    eapply part_of_trans; [apply strip_part | apply slice_part]. }
  unfold loop_body. by destruct (_ >=? _).
Qed.

Lemma run_trimmed (self : t) (text : str) (n : nat) (s : loop_state) :
  Forall (trimmed_part text) (chunks s) ->
  Forall (trimmed_part text) (chunks (run n self text s)).
Proof.
  revert s. induction n as [|n IH]; intros s Hall; cbn [run]; [done|].
  destruct (start s <? len text); [|done].
  pose proof (loop_body_trimmed self text s Hall) as Hstep.
  destruct (loop_body self text s) as [s'|s']; [by apply IH | done].
Qed.

(** X12.  For every configuration: when the text is longer than the chunk
    size, every chunk that the chunker returns is not empty, has no white
    space at either end and is a contiguous part of the text. *)
Theorem chunks_are_trimmed_parts (self : t) (text : str) (fuel : nat)
  (result : list str) :
  chunk_size self < len text ->
  _chunk_text fuel self text = Some result ->
  Forall (trimmed_part text) result.
Proof.
  intros Hlong. unfold _chunk_text.
  destruct (Z.leb_spec (len text) (chunk_size self)); [lia|].
  intros Hr. apply chunk_loop_run in Hr as [n ->].
  apply run_trimmed. constructor.
Qed.

Lemma chunks_are_trimmed_parts_witness :
  (chunk_size (mk 30 5) < len sample_text
   /\ _chunk_text 4 (mk 30 5) sample_text
      = Some [lit "Hello world. This is a test."; lit "test. Another sentence here.";
              lit "here. End of it all now."])
  /\ Forall (trimmed_part sample_text)
       [lit "Hello world. This is a test."; lit "test. Another sentence here.";
        lit "here. End of it all now."].
Proof.
  assert (chunk_size (mk 30 5) < len sample_text
          /\ _chunk_text 4 (mk 30 5) sample_text
             = Some [lit "Hello world. This is a test.";
                     lit "test. Another sentence here.";
                     lit "here. End of it all now."]) as H
    by (split; vm_compute; reflexivity).
  split; [exact H|].
  apply (chunks_are_trimmed_parts (mk 30 5) sample_text 4); apply H.
Defined.

(** *** Small chunk sizes *)

Lemma rfind_scan_absent (ch : ascii) (l : str) :
  ch ∉ l -> forall s e i best, rfind_scan l ch s e i best = best.
Proof.
  induction l as [|c l IH]; intros Hout s e i best; cbn [rfind_scan]; [done|].
  rewrite IH by (intros H; apply Hout; by right).
  destruct (Ascii.eqb_spec c ch) as [->|]; [exfalso; apply Hout; left|].
  by rewrite andb_false_r.
Qed.

Lemma rfind_absent (text : str) (ch : ascii) (a b : Z) :
  ch ∉ text -> rfind text ch a b = -1.
Proof. intros H. unfold rfind. by apply rfind_scan_absent. Qed.

Lemma slice_until_0 {A : Type} (l : list A) (a : Z) : slice l a 0 = [].
Proof.
  unfold slice.
  pose proof (adjust_range (len l) a ltac:(unfold len; lia)) as Ha.
  replace (adjust (len l) 0) with 0 by (unfold adjust, len; cbn; lia).
  replace (Z.to_nat (0 - adjust (len l) a)) with 0%nat by lia.
  apply take_0.
Qed.

Lemma stuck_at_start (cs ov : Z) (text : str) (i : Z) (done_ : list str) :
  0 <= cs < 99 -> 0 <= ov -> cs < len text -> "."%char ∉ text ->
  - ov <= i <= 0 ->
  loop_body (mk cs ov) text (st i done_) = inl (st (- ov) done_).
Proof.
  intros Hcs Hov Hlong Hdot Hi. unfold loop_body.
  cbn [start chunks chunk_overlap].
  assert (chunk_end (mk cs ov) text i = 0) as ->.
  { unfold chunk_end. cbn [chunk_size]. rewrite rfind_absent by done.
    split_tests; lia. }
  rewrite slice_until_0.
  cbn [strip lstrip rev truthy app].
  destruct (Z.geb_spec (0 - ov) (len text)); [lia|]. done.
Qed.

Lemma small_chunk_size_loop (cs ov : Z) (text : str) :
  0 <= cs < 99 -> 0 <= ov -> cs < len text -> "."%char ∉ text ->
  forall (fuel : nat) (i : Z) (done_ : list str),
    - ov <= i <= 0 -> chunk_loop fuel (mk cs ov) text (st i done_) = None.
Proof.
  intros Hcs Hov Hlong Hdot. induction fuel as [|fuel IH]; intros i done_ Hi; [done|].
  cbn [chunk_loop start].
  destruct (Z.ltb_spec i (len text)); [|lia].
  rewrite stuck_at_start by done. apply IH. lia.
Qed.

(** X13.  A chunk size below 99 makes the chunker hang on every text that
    is longer than the chunk size and holds no full stop, whatever the
    overlap (0 or more) is: the first window ends at position 0, and the
    loop stays before the text. *)
Theorem small_chunk_size_never_returns (cs ov : Z) (text : str) (fuel : nat) :
  0 <= cs < 99 -> 0 <= ov -> cs < len text -> "."%char ∉ text ->
  _chunk_text fuel (mk cs ov) text = None.
Proof.
  intros Hcs Hov Hlong Hdot. unfold _chunk_text. cbn [chunk_size].
  destruct (Z.leb_spec (len text) cs); [lia|].
  apply small_chunk_size_loop; [done..|lia].
Qed.

Lemma small_chunk_size_never_returns_witness :
  (0 <= 50 < 99 /\ 0 <= 10 /\ 50 < len dotless_text /\ "."%char ∉ dotless_text)
  /\ _chunk_text 1000 (mk 50 10) dotless_text = None.
Proof.
  assert (0 <= 50 < 99 /\ 0 <= 10 /\ 50 < len dotless_text
          /\ "."%char ∉ dotless_text) as H.
  { split; [lia|]. split; [lia|]. split; [vm_compute; reflexivity|].
    unfold dotless_text. intros Hin. apply list_elem_of_In, repeat_spec in Hin.
    discriminate. }
  split; [exact H|].
  apply (small_chunk_size_never_returns 50 10 dotless_text 1000); apply H.
Defined.

End ChunkingProperties.

(** ** Indexing and querying: [flask_app.py] puts the three services together *)

Module PipelineProperties.
Import SimpleVectorStore StoreSpec EmbedderSpec FrequencySpec StoreFacts SearchFacts.

(** X14.  The embedder and the store fit: when the chunks of the documents
    are embedded by [create_embeddings] and stored by [add_documents], as
    [initialize_services] does, the call returns and the store holds the
    documents; and when a query is then embedded by the same service and
    looked up with [search], as [query_documents] does, the result has
    exactly min(top_k, number of documents) entries, all of them stored
    documents.  The dimensions never disagree, whatever the texts are and
    whether the vocabulary was built before. *)
Theorem indexed_documents_are_searchable (written : outcome unit)
  (service : SimpleEmbeddingService.t) (store : t) (docs : list Document)
  (texts : list str) (noise noise' : nat -> ndarray) (query : str) (k : Z) :
  (forall i, length (noise i) = SimpleEmbeddingService.embedding_dim) ->
  (forall i, length (noise' i) = SimpleEmbeddingService.embedding_dim) ->
  content <$> docs = JStr <$> texts ->
  0 <= k ->
  let indexed := SimpleEmbeddingService.create_embeddings service noise texts in
  let call := add_documents written store docs (Floats <$> indexed.2) in
  let asked := SimpleEmbeddingService.create_embeddings indexed.1 noise' [query] in
  call.1 = Returned tt
  /\ documents call.2 = docs
  /\ exists query_embedding results,
       asked.2 = [query_embedding]
       /\ search call.2 (Floats query_embedding) k = Returned results
       /\ len results = Z.min k (len docs)
       /\ results ⊆+ docs.
Proof.
  intros Hn Hn' Hcontent Hk indexed call asked.
  assert (length indexed.2 = length texts) as Hlen by apply length_imap.
  assert (Forall (fun e => length e = SimpleEmbeddingService.embedding_dim) indexed.2)
    as Hdim.
  { apply EmbeddingProperties.Forall_imap. intros i text.
    by apply EmbeddingProperties.length_text_to_embedding. }
  assert (length docs = length indexed.2) as Hdocs.
  { rewrite Hlen, <- (length_fmap content docs), Hcontent. apply length_fmap. }
  assert (call = (Returned tt, mk (embedding_dim store) docs indexed.2)) as ->.
  { unfold call, add_documents, len. rewrite length_fmap, Hdocs, Z.eqb_refl.
    cbn [negb]. rewrite for_each_floats. by destruct written. }
  cbn [fst snd documents]. split; [done|]. split; [done|].
  set (q := SimpleEmbeddingService._text_to_embedding
              (SimpleEmbeddingService.create_embeddings indexed.1 noise' [query]).1
              (noise' 0%nat) query).
  assert (length q = SimpleEmbeddingService.embedding_dim) as Hq
    by apply EmbeddingProperties.length_text_to_embedding, Hn'.
  exists q. 
  destruct (SearchClaims.search_ranked (mk (embedding_dim store) docs indexed.2) q k)
    as (sims & [Hscored Hidx] & Hsearch & Hres); [done| |].
  { cbn [embeddings]. eapply Forall_impl; [exact Hdim|].
    intros d Hd. by rewrite Hd, Hq. }
  eexists. split; [done|]. split; [exact Hsearch|]. split.
  - apply Forall2_length in Hres. apply Forall2_length in Hscored.
    cbn [embeddings] in Hscored.
    destruct (sort_by_similarity_precedes sims 0 _ Hidx) as [Hperm _].
    apply Permutation_length in Hperm.
    unfold len. rewrite Hres, (slice_to_take _ _ Hk), length_take.
    unfold len. rewrite Hperm, Hscored. lia.
  - destruct (SearchProperties.search_stored
                (mk (embedding_dim store) docs indexed.2) (Floats q) k)
      as (rs & Hrs & Hsub).
    rewrite Hsearch in Hrs. injection Hrs as <-. exact Hsub.
Qed.

Lemma indexed_documents_are_searchable_witness :
  let indexed :=
    SimpleEmbeddingService.create_embeddings SimpleEmbeddingService.__init__
      (constant_noise noise_a) [lit "c0"] in
  let call := add_documents (Returned tt) one_doc [doc "c0"] (Floats <$> indexed.2) in
  let asked :=
    SimpleEmbeddingService.create_embeddings indexed.1 (constant_noise noise_b)
      [lit "which c0?"] in
  ((forall i, length (constant_noise noise_a i) = SimpleEmbeddingService.embedding_dim)
   /\ (forall i, length (constant_noise noise_b i) = SimpleEmbeddingService.embedding_dim)
   /\ content <$> [doc "c0"] = JStr <$> [lit "c0"]
   /\ 0 <= 5)
  /\ call.1 = Returned tt
  /\ documents call.2 = [doc "c0"]
  /\ exists query_embedding results,
       asked.2 = [query_embedding]
       /\ search call.2 (Floats query_embedding) 5 = Returned results
       /\ len results = Z.min 5 (len [doc "c0"])
       /\ results ⊆+ [doc "c0"].
Proof.
  split; [split; [by intros i|split; [by intros i|split; [reflexivity | lia]]]|].
  apply (indexed_documents_are_searchable (Returned tt)
           SimpleEmbeddingService.__init__ one_doc [doc "c0"] [lit "c0"]
           (constant_noise noise_a) (constant_noise noise_b) (lit "which c0?") 5).
  - intros i. reflexivity.
  - intros i. reflexivity.
  - reflexivity.
  - lia.
Defined.

End PipelineProperties.

(** ** [_clean_text] *)

Module CleaningProperties.
Import DocumentFiles CleaningSpec ChunkingSpec.

(** *** Character classes, by going through the 256 characters *)

Ltac by_characters :=
  let c := fresh "c" in
  intros c; destruct c as [[|] [|] [|] [|] [|] [|] [|] [|]];
  vm_compute; intuition congruence.

Lemma mark_not_space : forall c, Re.one_of (lit ".,!?;:") c = true -> isspace c = false.
Proof. by_characters. Qed.

Lemma stop_not_space : forall c, Re.one_of (lit ".!?") c = true -> isspace c = false.
Proof. by_characters. Qed.

Lemma lower_not_space : forall c, Re.lower_ascii c = true -> isspace c = false.
Proof. by_characters. Qed.

Lemma lower_not_stop : forall c, Re.lower_ascii c = true -> Re.one_of (lit ".!?") c = false.
Proof. by_characters. Qed.

Lemma lower_not_mark :
  forall c, Re.lower_ascii c = true -> Re.one_of (lit ".,!?;:") c = false.
Proof. by_characters. Qed.

Lemma kept_clean : forall c, kept c = true -> clean_char c = true.
Proof. by_characters. Qed.

Lemma newline_space : forall c, Ascii.eqb c "010" = true -> only_space c = false.
Proof. by_characters. Qed.

Lemma space_only_space : forall c, isspace c = false -> only_space c = true.
Proof. by_characters. Qed.

Lemma dropped_kept : forall c, dropped c = false -> kept c = true.
Proof. by_characters. Qed.

(** *** Which characters a substitution gives out *)

Section Characters.
Context (P : ascii -> Prop).

Lemma sub_runs_chars (p : ascii -> bool) (rep text : str) (in_run : bool) :
  Forall P rep ->
  Forall (fun c => p c = false -> P c) text ->
  Forall P (Re.sub_runs p rep in_run text).
Proof.
  intros Hrep Htext. revert in_run.
  induction Htext as [|c text Hc _ IH]; intros in_run; cbn [Re.sub_runs]; [done|].
  destruct (p c) eqn:E.
  - apply Forall_app. split; [by destruct in_run | apply IH].
  - constructor; [by apply Hc | apply IH].
Qed.

Lemma sub_each_chars (p : ascii -> bool) (rep text : str) :
  Forall P rep ->
  Forall (fun c => p c = false -> P c) text ->
  Forall P (Re.sub_each p rep text).
Proof.
  intros Hrep Htext. unfold Re.sub_each.
  induction Htext as [|c text Hc _ IH]; cbn [flat_map]; [done|].
  apply Forall_app. split; [|done].
  destruct (p c) eqn:E; [done|]. constructor; [by apply Hc | done].
Qed.

Lemma lstrip_chars (l : str) : Forall P l -> Forall P (lstrip l).
Proof.
  induction 1 as [|c l Hc Hl IH]; cbn [lstrip]; [done|].
  destruct (isspace c); [done | by constructor].
Qed.

Lemma rev_chars (l : str) : Forall P l -> Forall P (rev l).
Proof. apply Forall_rev. Qed.

Lemma strip_chars (l : str) : Forall P l -> Forall P (strip l).
Proof. intros H. unfold strip. by apply rev_chars, lstrip_chars, rev_chars, lstrip_chars. Qed.

Lemma sub_space_before_mark_chars (text buf : str) :
  Forall P buf -> Forall P text -> Forall P (Re.sub_space_before_mark buf text).
Proof.
  intros Hbuf Htext. revert buf Hbuf.
  induction Htext as [|c text Hc _ IH]; intros buf Hbuf;
    cbn [Re.sub_space_before_mark]; [by apply rev_chars|].
  destruct (Re.is_space c); [apply IH; by constructor|].
  destruct (Re.one_of _ c).
  - constructor; [done | by apply IH].
  - apply Forall_app. split; [by apply rev_chars|].
    constructor; [done | by apply IH].
Qed.

Lemma sub_space_after_sentence_chars (text : str) (pending : option str) :
  P " "%char ->
  (forall buf, pending = Some buf -> Forall P buf) ->
  Forall P text ->
  Forall P (Re.sub_space_after_sentence pending text).
Proof.
  intros Hsp Hbuf Htext. revert pending Hbuf.
  induction Htext as [|c text Hc _ IH]; intros pending Hbuf;
    cbn [Re.sub_space_after_sentence].
  - destruct pending as [buf|]; [by apply rev_chars, Hbuf | done].
  - destruct pending as [buf|].
    + specialize (Hbuf buf eq_refl).
      destruct (Re.is_space c).
      { apply IH. intros ? [= <-]. by constructor. }
      destruct (Re.lower_ascii c).
      { constructor; [done|]. constructor; [done|]. by apply IH. }
      destruct (Re.one_of _ c); (apply Forall_app; split; [by apply rev_chars|]);
        (constructor; [done|]); apply IH; by intros ? [= <-].
    + destruct (Re.one_of _ c); (constructor; [done|]); apply IH;
        by intros ? [= <-].
Qed.

End Characters.

(** *** Line 241 finds no blank line *)

Lemma sub_blank_lines_idle (text : str) :
  Forall (fun c => only_space c = true) text -> Re.sub_blank_lines None text = text.
Proof.
  induction 1 as [|c text Hc _ IH]; cbn [Re.sub_blank_lines]; [done|].
  destruct (Ascii.eqb c "010") eqn:E; [|by rewrite IH].
  apply newline_space in E. congruence.
Qed.

Lemma sub_runs_only_space (text : str) (in_run : bool) :
  Forall (fun c => only_space c = true)
         (Re.sub_runs Re.is_space (lit " ") in_run text).
Proof.
  apply sub_runs_chars; [by repeat constructor|].
  apply Forall_forall. intros c _. apply space_only_space.
Qed.

(** X15.  The removal of empty lines (line 241) never changes anything:
    what line 238 hands over has no newline left, whatever the text is. *)
Theorem blank_line_removal_is_idle (text : str) :
  Re.sub_blank_lines None (Re.sub_runs Re.is_space (lit " ") false text)
  = Re.sub_runs Re.is_space (lit " ") false text.
Proof. apply sub_blank_lines_idle, sub_runs_only_space. Qed.

Lemma clean_text_squeezed (text : str) :
  _clean_text text
  = Re.sub_space_after_sentence None
      (Re.sub_space_before_mark [] (strip (squeezed text))).
Proof.
  unfold _clean_text. cbv zeta. fold (squeezed text).
  by rewrite (sub_blank_lines_idle (squeezed text)) by apply sub_runs_only_space.
Qed.

Lemma squeezed_kept (text : str) : Forall (fun c => kept c = true) (squeezed text).
Proof.
  unfold squeezed.
  apply sub_runs_chars; [by repeat constructor|].
  eapply Forall_impl; [|intros c H _; exact H].
  apply sub_each_chars; [by repeat constructor|].
  eapply Forall_impl.
  - apply (sub_runs_chars (fun c => plain c = true)); [by repeat constructor|].
    eapply Forall_impl; [apply (sub_runs_only_space text false)|].
    intros c Hc Hn. unfold plain. by rewrite Hc, Hn.
  - intros c Hc Hg. unfold kept. by rewrite Hc, Hg.
Qed.

Lemma clean_text_kept (text : str) :
  Forall (fun c => kept c = true) (_clean_text text).
Proof.
  rewrite clean_text_squeezed.
  apply sub_space_after_sentence_chars; [done | done |].
  apply sub_space_before_mark_chars; [done|].
  apply strip_chars, squeezed_kept.
Qed.

(** The substitutions on a sample, as Python gives them. *)
Example clean_text_sample :
  _clean_text (lit "  Hello   world .This is" ++ ["010"; "010"]%char
               ++ lit " a test!ok ?  yes " ++ ["233"]%char ++ lit "<b>")
  = lit "Hello world.This is a test! ok? yes b".
Proof. vm_compute. reflexivity. Qed.

(** X16.  A cleaned text holds nothing but letters, digits and underscores
    of ASCII, single spaces and the punctuation marks of line 235: no
    newline, no tab, no control character, no character outside ASCII and
    none of [/ \ < > | ~]. *)
Theorem clean_text_alphabet (text : str) :
  Forall (fun c => clean_char c = true) (_clean_text text).
Proof. eapply Forall_impl; [apply clean_text_kept | exact kept_clean]. Qed.

(** *** Pairs of neighbours *)

Section Pairs.
Context (bad : ascii -> ascii -> bool).

Lemma last_or_cons (prev : option ascii) (c : ascii) (l : str) :
  last_or prev (c :: l) = last_or (Some c) l.
Proof. unfold last_or. rewrite last_cons. by destruct (last l). Qed.

Lemma pairs_ok_app (prev : option ascii) (l1 l2 : str) :
  pairs_ok bad prev (l1 ++ l2)
  = pairs_ok bad prev l1 && pairs_ok bad (last_or prev l1) l2.
Proof.
  revert prev. induction l1 as [|c l1 IH]; intros prev; [done|].
  cbn [app pairs_ok]. by rewrite IH, last_or_cons, andb_assoc.
Qed.

Lemma pairs_ok_relax (prev : option ascii) (l : str) :
  pairs_ok bad prev l = true -> pairs_ok bad None l = true.
Proof.
  destruct l as [|c l]; [done|]. cbn [pairs_ok].
  intros H. by apply andb_prop in H as [_ ->].
Qed.

Lemma pairs_ok_adjacent (prev : option ascii) (l : str) (a b : ascii) :
  pairs_ok bad prev l = true -> adjacent l a b -> bad a b = false.
Proof.
  intros H (x & y & ->). rewrite pairs_ok_app in H.
  apply andb_prop in H as [_ H]. cbn [pairs_ok] in H.
  apply andb_prop in H as [_ H]. apply andb_prop in H as [H _].
  by apply negb_true_iff in H.
Qed.

Lemma pairs_ok_part (prev : option ascii) (l x : str) :
  pairs_ok bad prev l = true -> part_of x l -> pairs_ok bad None x = true.
Proof.
  intros H (u & v & ->). rewrite !pairs_ok_app in H.
  apply andb_prop in H as [_ H]. apply andb_prop in H as [H _].
  by apply pairs_ok_relax in H.
Qed.

Lemma pairs_ok_harmless (prev : option ascii) (l : str) :
  Forall (fun c => forall p, bad p c = false) l -> pairs_ok bad prev l = true.
Proof.
  intros H. revert prev. induction H as [|c l Hc _ IH]; intros prev; [done|].
  cbn [pairs_ok]. rewrite IH, andb_true_r. destruct prev as [p|]; [|done].
  by rewrite Hc.
Qed.

Lemma pairs_ok_cons (prev : option ascii) (c : ascii) (l : str) :
  (forall p, prev = Some p -> bad p c = false) ->
  pairs_ok bad (Some c) l = true ->
  pairs_ok bad prev (c :: l) = true.
Proof.
  intros Hc Hl. cbn [pairs_ok]. rewrite Hl, andb_true_r.
  destruct prev as [p|]; [|done]. by rewrite Hc.
Qed.

Lemma pairs_ok_middle (prev : option ascii) (l1 : str) (c : ascii) (l2 l2' : str) :
  pairs_ok bad prev (l1 ++ c :: l2) = true ->
  pairs_ok bad (Some c) l2' = true ->
  pairs_ok bad prev (l1 ++ c :: l2') = true.
Proof.
  rewrite !pairs_ok_app. cbn [pairs_ok]. intros H Hl2'.
  apply andb_prop in H as [-> H]. apply andb_prop in H as [-> _].
  by rewrite Hl2'.
Qed.

Lemma pairs_ok_after (prev : option ascii) (l1 : str) (c : ascii) (l2 : str) :
  pairs_ok bad prev (l1 ++ c :: l2) = true -> pairs_ok bad (Some c) l2 = true.
Proof.
  rewrite pairs_ok_app. cbn [pairs_ok]. intros H.
  apply andb_prop in H as [_ H]. by apply andb_prop in H as [_ ->].
Qed.

End Pairs.

(** *** Lines 231 and 238 leave single spaces *)

Lemma sub_runs_single (text : str) (in_run : bool) (prev : option ascii) :
  (in_run = false -> solid_before prev) ->
  pairs_ok double_space prev (Re.sub_runs Re.is_space (lit " ") in_run text) = true.
Proof.
  revert in_run prev. induction text as [|c text IH]; intros in_run prev Hprev;
    cbn [Re.sub_runs]; [done|].
  unfold Re.is_space at 1. destruct (isspace c) eqn:E.
  - destruct in_run; [by apply IH|].
    cbn [app lit list_ascii_of_string]. apply pairs_ok_cons.
    + intros p Hp. unfold double_space. by rewrite (Hprev eq_refl p Hp).
    + by apply IH.
  - apply pairs_ok_cons.
    + intros p _. unfold double_space. by rewrite E, andb_false_r.
    + apply IH. by intros _ p [= <-].
Qed.

(** *** Line 247 *)

Lemma spaces_before_no_mark (buf : str) :
  Forall (fun c => isspace c = true) buf ->
  Forall (fun c => forall p, space_before_mark p c = false) (rev buf).
Proof.
  intros H. apply Forall_rev. eapply Forall_impl; [exact H|].
  intros c Hc p. unfold space_before_mark.
  destruct (Re.one_of (lit ".,!?;:") c) eqn:E; [|apply andb_false_r].
  apply mark_not_space in E. congruence.
Qed.

Lemma sub_space_before_mark_marks (text buf : str) (prev : option ascii) :
  Forall (fun c => isspace c = true) buf ->
  solid_before prev ->
  pairs_ok space_before_mark prev (Re.sub_space_before_mark buf text) = true.
Proof.
  revert buf prev. induction text as [|c text IH]; intros buf prev Hbuf Hprev;
    cbn [Re.sub_space_before_mark].
  - by apply pairs_ok_harmless, spaces_before_no_mark.
  - unfold Re.is_space at 1. destruct (isspace c) eqn:E.
    { apply IH; [by constructor | done]. }
    destruct (Re.one_of (lit ".,!?;:") c) eqn:Em.
    + apply pairs_ok_cons.
      * intros p Hp. unfold space_before_mark. by rewrite (Hprev p Hp).
      * apply IH; [done|]. by intros p [= <-].
    + rewrite pairs_ok_app.
      rewrite (pairs_ok_harmless _ _ _ (spaces_before_no_mark buf Hbuf)).
      apply pairs_ok_cons.
      * intros p _. unfold space_before_mark. by rewrite Em, andb_false_r.
      * apply IH; [done|]. by intros p [= <-].
Qed.

Lemma sub_space_before_mark_single (text buf : str) (prev : option ascii) :
  pairs_ok double_space prev (rev buf ++ text) = true ->
  pairs_ok double_space prev (Re.sub_space_before_mark buf text) = true.
Proof.
  revert buf prev. induction text as [|c text IH]; intros buf prev H;
    cbn [Re.sub_space_before_mark].
  - by rewrite app_nil_r in H.
  - unfold Re.is_space at 1. destruct (isspace c) eqn:E.
    { apply IH. cbn [rev]. by rewrite <- app_assoc. }
    pose proof (pairs_ok_after _ _ _ _ _ H) as Hrest.
    destruct (Re.one_of (lit ".,!?;:") c).
    + apply pairs_ok_cons.
      * intros p _. unfold double_space. by rewrite E, andb_false_r.
      * by apply (IH []).
    + apply (pairs_ok_middle _ _ _ _ _ _ H). by apply (IH []).
Qed.

(** *** Line 248 *)

Lemma spaces_no_letter (buf : str) :
  Forall (fun c => isspace c = true) buf ->
  Forall (fun c => forall p, letter_after_stop p c = false) (rev buf).
Proof.
  intros H. apply Forall_rev. eapply Forall_impl; [exact H|].
  intros c Hc p. unfold letter_after_stop.
  destruct (Re.lower_ascii c) eqn:E; [|apply andb_false_r].
  apply lower_not_space in E. congruence.
Qed.

Lemma sub_space_after_sentence_stops (text : str) (pending : option str)
  (prev : option ascii) :
  (forall buf, pending = Some buf -> Forall (fun c => isspace c = true) buf) ->
  (pending = None -> forall p, prev = Some p -> Re.one_of (lit ".!?") p = false) ->
  pairs_ok letter_after_stop prev (Re.sub_space_after_sentence pending text) = true.
Proof.
  revert pending prev.
  induction text as [|c text IH]; intros pending prev Hbuf Hprev;
    cbn [Re.sub_space_after_sentence].
  - destruct pending as [buf|]; [|done].
    by apply pairs_ok_harmless, spaces_no_letter, Hbuf.
  - destruct pending as [buf|].
    + specialize (Hbuf buf eq_refl).
      unfold Re.is_space at 1. destruct (isspace c) eqn:E.
      { apply IH; [|done]. intros ? [= <-]. by constructor. }
      destruct (Re.lower_ascii c) eqn:El.
      { apply pairs_ok_cons; [intros p _; unfold letter_after_stop; apply andb_false_r|].
        apply pairs_ok_cons; [by intros p [= <-]|].
        apply IH; [done|]. intros _ p [= <-]. by apply lower_not_stop. }
      destruct (Re.one_of (lit ".!?") c) eqn:Es; rewrite pairs_ok_app;
        rewrite (pairs_ok_harmless _ _ _ (spaces_no_letter buf Hbuf)).
      * apply pairs_ok_cons;
          [intros p _; unfold letter_after_stop; by rewrite El, andb_false_r|].
        apply IH; [|done]. by intros ? [= <-].
      * apply pairs_ok_cons;
          [intros p _; unfold letter_after_stop; by rewrite El, andb_false_r|].
        apply IH; [done|]. by intros _ p [= <-].
    + specialize (Hprev eq_refl).
      destruct (Re.one_of (lit ".!?") c) eqn:Es.
      * apply pairs_ok_cons;
          [intros p Hp; unfold letter_after_stop; by rewrite (Hprev p Hp)|].
        apply IH; [|done]. by intros ? [= <-].
      * apply pairs_ok_cons;
          [intros p Hp; unfold letter_after_stop; by rewrite (Hprev p Hp)|].
        apply IH; [done|]. by intros _ p [= <-].
Qed.

(** Line 248 adds no pair of a kind [bad] that a space after a character
    that is no white space, or a small letter after a space, cannot form. *)
Lemma sub_space_after_sentence_keeps (bad : ascii -> ascii -> bool) (text : str)
  (pending : option str) (prev : option ascii) :
  (forall p, isspace p = false -> bad p " "%char = false) ->
  (forall c, Re.lower_ascii c = true -> bad " "%char c = false) ->
  (pending <> None -> solid_before prev) ->
  pairs_ok bad prev (unread pending text) = true ->
  pairs_ok bad prev (Re.sub_space_after_sentence pending text) = true.
Proof.
  intros Hsp Hlow. revert pending prev.
  induction text as [|c text IH]; intros pending prev Hprev H;
    cbn [Re.sub_space_after_sentence].
  - destruct pending as [buf|]; [|done]. cbn [unread] in H. by rewrite app_nil_r in H.
  - destruct pending as [buf|]; cbn [unread] in H.
    + specialize (Hprev ltac:(done)).
      unfold Re.is_space at 1. destruct (isspace c) eqn:E.
      { apply IH; [done|]. cbn [unread rev]. by rewrite <- app_assoc. }
      pose proof (pairs_ok_after _ _ _ _ _ H) as Hrest.
      destruct (Re.lower_ascii c) eqn:El.
      { apply pairs_ok_cons; [intros p Hp; apply Hsp, Hprev, Hp|].
        apply pairs_ok_cons; [intros p [= <-]; by apply Hlow|].
        by apply IH. }
      destruct (Re.one_of (lit ".!?") c) eqn:Es.
      * apply (pairs_ok_middle _ _ _ _ _ _ H).
        apply IH; [|done]. by intros _ p [= <-].
      * apply (pairs_ok_middle _ _ _ _ _ _ H). by apply IH.
    + cbn [pairs_ok] in H. apply andb_prop in H as [Hc H].
      destruct (Re.one_of (lit ".!?") c) eqn:Es; cbn [pairs_ok]; rewrite Hc; cbn [andb].
      * apply IH; [|done]. intros _ p [= <-]. by apply stop_not_space.
      * by apply IH.
Qed.

(** *** The ends of the text *)

Lemma sub_space_before_mark_last (text buf : str) (c : ascii) :
  last text = Some c -> isspace c = false ->
  last (Re.sub_space_before_mark buf text) = Some c.
Proof.
  intros Hlast Hc. revert buf.
  induction text as [|x text IH]; intros buf; [done|].
  cbn [Re.sub_space_before_mark].
  destruct text as [|y text].
  - injection Hlast as ->. unfold Re.is_space. rewrite Hc.
    cbn [Re.sub_space_before_mark rev app].
    destruct (Re.one_of _ c); [done|]. by rewrite last_snoc.
  - rewrite last_cons_cons in Hlast. specialize (IH Hlast).
    destruct (Re.is_space x); [apply IH|].
    destruct (Re.one_of _ x).
    + by rewrite last_cons, IH.
    + by rewrite last_app, last_cons, IH.
Qed.

Lemma sub_space_after_sentence_last (text : str) (pending : option str) (c : ascii) :
  last text = Some c -> isspace c = false ->
  last (Re.sub_space_after_sentence pending text) = Some c.
Proof.
  intros Hlast Hc. revert pending.
  induction text as [|x text IH]; intros pending; [done|].
  cbn [Re.sub_space_after_sentence].
  destruct text as [|y text].
  - injection Hlast as ->. unfold Re.is_space. rewrite Hc.
    cbn [Re.sub_space_after_sentence].
    destruct pending as [buf|].
    + destruct (Re.lower_ascii c); [done|].
      destruct (Re.one_of _ c); cbn [Re.sub_space_after_sentence rev];
        by rewrite last_snoc.
    + by destruct (Re.one_of _ c).
  - rewrite last_cons_cons in Hlast. specialize (IH Hlast).
    destruct pending as [buf|].
    + destruct (Re.is_space x); [apply IH|].
      destruct (Re.lower_ascii x); [by rewrite !last_cons, IH|].
      destruct (Re.one_of _ x); by rewrite last_app, last_cons, IH.
    + destruct (Re.one_of _ x); by rewrite last_cons, IH.
Qed.

Lemma sub_space_before_mark_head (text : str) :
  head_solid text -> head_solid (Re.sub_space_before_mark [] text).
Proof.
  destruct text as [|c text]; [done|]. cbn [head_solid Re.sub_space_before_mark].
  unfold Re.is_space. intros Hc. rewrite Hc. by destruct (Re.one_of _ c).
Qed.

Lemma sub_space_after_sentence_head (text : str) :
  head_solid text -> head_solid (Re.sub_space_after_sentence None text).
Proof.
  destruct text as [|c text]; [done|]. cbn [head_solid Re.sub_space_after_sentence].
  by destruct (Re.one_of _ c).
Qed.

Lemma strip_fixed (l : str) :
  head_solid l -> (forall c, last l = Some c -> isspace c = false) -> strip l = l.
Proof.
  intros Hhead Hlast. unfold strip.
  rewrite (ChunkingProperties.head_solid_lstrip l Hhead).
  rewrite ChunkingProperties.head_solid_lstrip; [apply rev_involutive|].
  destruct l as [|x l] using rev_ind; [done|].
  rewrite rev_app_distr. cbn [rev app head_solid].
  apply Hlast, last_snoc.
Qed.

Lemma strip_last (l : str) (c : ascii) : last (strip l) = Some c -> isspace c = false.
Proof.
  unfold strip. intros H.
  pose proof (ChunkingProperties.lstrip_head_solid (rev (lstrip l))) as Hs.
  destruct (lstrip (rev (lstrip l))) as [|x z]; [done|].
  cbn [rev] in H. rewrite last_snoc in H. by injection H as <-.
Qed.

(** The text after line 247, and its properties. *)
Lemma clean_text_trimmed (text : str) : strip (_clean_text text) = _clean_text text.
Proof.
  rewrite clean_text_squeezed. set (s := strip (squeezed text)).
  apply strip_fixed.
  - apply sub_space_after_sentence_head, sub_space_before_mark_head.
    apply ChunkingProperties.strip_head_solid.
  - destruct (last s) as [c|] eqn:E.
    + pose proof (strip_last _ _ E) as Hc.
      rewrite (sub_space_after_sentence_last _ _ c);
        [by intros ? [= <-] | by apply sub_space_before_mark_last | done].
    + apply last_None in E. by rewrite E.
Qed.

Lemma clean_text_pairs (text : str) :
  pairs_ok double_space None (_clean_text text) = true
  /\ pairs_ok space_before_mark None (_clean_text text) = true
  /\ pairs_ok letter_after_stop None (_clean_text text) = true.
Proof.
  rewrite clean_text_squeezed. set (s := strip (squeezed text)).
  assert (pairs_ok double_space None s = true) as Hs.
  { apply (pairs_ok_part _ None (squeezed text));
      [|apply ChunkingProperties.strip_part].
    apply sub_runs_single. by intros _ p. }
  split; [|split].
  - apply sub_space_after_sentence_keeps; [| |done|].
    + intros p Hp. unfold double_space. by rewrite Hp.
    + intros c Hc. unfold double_space. by rewrite (lower_not_space c Hc), andb_false_r.
    + by apply (sub_space_before_mark_single s []).
  - apply sub_space_after_sentence_keeps; [| |done|].
    + intros p Hp. unfold space_before_mark. by rewrite Hp.
    + intros c Hc. unfold space_before_mark.
      by rewrite (lower_not_mark c Hc), andb_false_r.
    + apply sub_space_before_mark_marks; [done | by intros p].
  - apply sub_space_after_sentence_stops; [done | by intros _ p].
Qed.

(** X17.  A cleaned text neither begins nor ends with white space, and it
    has no two white-space characters side by side. *)
Theorem clean_text_spacing (text : str) :
  strip (_clean_text text) = _clean_text text
  /\ forall a b, adjacent (_clean_text text) a b ->
       isspace a = true -> isspace b = false.
Proof.
  split; [apply clean_text_trimmed|].
  intros a b Hab Ha. destruct (clean_text_pairs text) as [H _].
  pose proof (pairs_ok_adjacent _ _ _ _ _ H Hab) as Hbad.
  unfold double_space in Hbad. by rewrite Ha in Hbad.
Qed.

(** X18.  In a cleaned text no white space stands before one of the marks
    [. , ! ? ; :], and no small letter directly after a full stop, an
    exclamation mark or a question mark. *)
Theorem clean_text_punctuation (text : str) (a b : ascii) :
  adjacent (_clean_text text) a b ->
  (Re.one_of (lit ".,!?;:") b = true -> isspace a = false)
  /\ (Re.one_of (lit ".!?") a = true -> Re.lower_ascii b = false).
Proof.
  intros Hab. destruct (clean_text_pairs text) as (_ & Hm & Hs).
  pose proof (pairs_ok_adjacent _ _ _ _ _ Hm Hab) as Hbm.
  pose proof (pairs_ok_adjacent _ _ _ _ _ Hs Hab) as Hbs.
  unfold space_before_mark in Hbm. unfold letter_after_stop in Hbs.
  split; intros H; rewrite H in *.
  - by rewrite andb_true_r in Hbm.
  - done.
Qed.

Lemma clean_text_punctuation_witness :
  adjacent (_clean_text (lit "  The end .next")) "d" "."
  /\ (Re.one_of (lit ".,!?;:") "."%char = true -> isspace "d"%char = false)
  /\ (Re.one_of (lit ".!?") "d"%char = true -> Re.lower_ascii "."%char = false).
Proof.
  assert (adjacent (_clean_text (lit "  The end .next")) "d" ".") as H
    by (exists (lit "The en"), (lit " next"); vm_compute; reflexivity).
  split; [exact H|].
  apply (clean_text_punctuation (lit "  The end .next") "d" "." H).
Defined.

(** *** Cleaning twice *)

Lemma kept_parts : forall c,
  kept c = true ->
  only_space c = true /\ Re.non_ascii c = false /\ Re.garbled c = false.
Proof.
  intros c. unfold kept, plain. intros H.
  apply andb_prop in H as [H Hg]. apply andb_prop in H as [Hs Hn].
  apply negb_true_iff in Hg, Hn. done.
Qed.

Lemma only_space_is_space (c : ascii) :
  only_space c = true -> isspace c = true -> c = " "%char.
Proof.
  unfold only_space. intros H Hs. rewrite Hs in H. by apply Ascii.eqb_eq in H.
Qed.

Lemma sub_runs_idle (p : ascii -> bool) (rep text : str) (in_run : bool) :
  Forall (fun c => p c = false) text -> Re.sub_runs p rep in_run text = text.
Proof.
  intros H. revert in_run. induction H as [|c text Hc _ IH]; intros in_run;
    cbn [Re.sub_runs]; [done|].
  by rewrite Hc, IH.
Qed.

Lemma sub_each_idle (p : ascii -> bool) (rep text : str) :
  Forall (fun c => p c = false) text -> Re.sub_each p rep text = text.
Proof.
  unfold Re.sub_each. induction 1 as [|c text Hc _ IH]; cbn [flat_map]; [done|].
  by rewrite Hc, IH.
Qed.

Lemma sub_runs_space_idle (text : str) :
  forall (in_run : bool) (prev : option ascii),
    Forall (fun c => only_space c = true) text ->
    pairs_ok double_space prev text = true ->
    (in_run = true -> exists p, prev = Some p /\ isspace p = true) ->
    Re.sub_runs Re.is_space (lit " ") in_run text = text.
Proof.
  induction text as [|c text IH]; intros in_run prev Hall Hok Hrun; [done|].
  apply Forall_cons in Hall as [Hc Hall].
  cbn [pairs_ok] in Hok. apply andb_prop in Hok as [Hpc Hok].
  cbn [Re.sub_runs]. unfold Re.is_space at 1.
  destruct (isspace c) eqn:E.
  - destruct in_run.
    + destruct (Hrun eq_refl) as (p & -> & Hp).
      unfold double_space in Hpc. by rewrite Hp, E in Hpc.
    + rewrite (only_space_is_space c Hc E) in *. cbn [lit list_ascii_of_string app].
      f_equal. apply (IH true (Some " "%char)); [done | done |].
      intros _. by exists " "%char.
  - f_equal. by apply (IH false (Some c)).
Qed.

Lemma sub_space_before_mark_idle (text : str) :
  forall (buf : str) (prev : option ascii),
    Forall (fun c => isspace c = true) buf ->
    pairs_ok space_before_mark prev (rev buf ++ text) = true ->
    Re.sub_space_before_mark buf text = rev buf ++ text.
Proof.
  induction text as [|c text IH]; intros buf prev Hbuf Hok;
    cbn [Re.sub_space_before_mark]; [by rewrite app_nil_r|].
  unfold Re.is_space at 1. destruct (isspace c) eqn:E.
  { rewrite (IH (c :: buf) prev); cbn [rev]; rewrite <- ?app_assoc; by try constructor. }
  pose proof (pairs_ok_after _ _ _ _ _ Hok) as Hrest.
  destruct (Re.one_of (lit ".,!?;:") c) eqn:Em.
  - destruct buf as [|x buf].
    + cbn [rev app]. f_equal. by apply (IH [] (Some c)).
    + exfalso. apply Forall_cons in Hbuf as [Hx _].
      assert (space_before_mark x c = false) as Hbad.
      { apply (pairs_ok_adjacent _ prev (rev (x :: buf) ++ c :: text)); [done|].
        exists (rev buf), text. cbn [rev]. by rewrite <- app_assoc. }
      unfold space_before_mark in Hbad. by rewrite Hx, Em in Hbad.
  - do 2 f_equal. by apply (IH [] (Some c)).
Qed.

Lemma sub_space_after_sentence_idle (text : str) :
  forall (pending : option str) (prev : option ascii),
    pairs_ok letter_after_stop prev (unread pending text) = true ->
    pairs_ok double_space prev (unread pending text) = true ->
    Forall (fun c => only_space c = true) (unread pending text) ->
    (forall buf, pending = Some buf ->
       Forall (fun c => isspace c = true) buf
       /\ exists p, prev = Some p /\ Re.one_of (lit ".!?") p = true) ->
    Re.sub_space_after_sentence pending text = unread pending text.
Proof.
  induction text as [|c text IH]; intros pending prev Hlas Hds Hall Hst;
    cbn [Re.sub_space_after_sentence].
  - destruct pending; cbn [unread]; by rewrite ?app_nil_r.
  - destruct pending as [buf|]; cbn [unread] in *.
    + destruct (Hst buf eq_refl) as (Hbuf & p & -> & Hp).
      unfold Re.is_space at 1. destruct (isspace c) eqn:E.
      { rewrite (IH (Some (c :: buf)) (Some p)); cbn [unread rev];
          rewrite <- ?app_assoc; try done.
        intros ? [= <-]. split; [by constructor | by exists p]. }
      pose proof (pairs_ok_after _ _ _ _ _ Hlas) as Hlas'.
      pose proof (pairs_ok_after _ _ _ _ _ Hds) as Hds'.
      apply Forall_app in Hall as [Hall_buf Hall'].
      apply Forall_cons in Hall' as [_ Hall'].
      destruct (Re.lower_ascii c) eqn:El.
      * destruct buf as [|x [|y buf]].
        -- exfalso. cbn [rev app pairs_ok] in Hlas.
           unfold letter_after_stop in Hlas. by rewrite Hp, El in Hlas.
        -- cbn [rev app] in *. apply Forall_cons in Hbuf as [Hx _].
           apply Forall_cons in Hall_buf as [Hox _].
           rewrite <- (only_space_is_space x Hox Hx). do 2 f_equal.
           by apply (IH None (Some c)).
        -- exfalso. apply Forall_cons in Hbuf as [Hx Hbuf].
           apply Forall_cons in Hbuf as [Hy _].
           assert (double_space y x = false) as Hbad.
           { apply (pairs_ok_adjacent _ (Some p) (rev (x :: y :: buf) ++ c :: text));
               [done|].
             exists (rev buf), (c :: text). cbn [rev]. by rewrite <- !app_assoc. }
           unfold double_space in Hbad. by rewrite Hx, Hy in Hbad.
      * destruct (Re.one_of (lit ".!?") c) eqn:Es; do 2 f_equal.
        -- apply (IH (Some []) (Some c)); cbn [unread rev app]; try done.
           intros ? [= <-]. split; [constructor | by exists c].
        -- by apply (IH None (Some c)).
    + apply Forall_cons in Hall as [_ Hall].
      cbn [pairs_ok] in Hlas, Hds.
      apply andb_prop in Hlas as [_ Hlas]. apply andb_prop in Hds as [_ Hds].
      destruct (Re.one_of (lit ".!?") c) eqn:Es; f_equal.
      * apply (IH (Some []) (Some c)); cbn [unread rev app]; try done.
        intros ? [= <-]. split; [constructor | by exists c].
      * by apply (IH None (Some c)).
Qed.

Lemma squeezed_idle (text : str) :
  Forall (fun c => kept c = true) text ->
  pairs_ok double_space None text = true ->
  squeezed text = text.
Proof.
  intros Hkept Hds.
  assert (Forall (fun c => only_space c = true) text) as Hos
    by (eapply Forall_impl; [exact Hkept | intros c Hc; by apply kept_parts]).
  assert (Re.sub_runs Re.is_space (lit " ") false text = text) as Hs
    by (by apply (sub_runs_space_idle text false None)).
  unfold squeezed. rewrite Hs.
  rewrite (sub_runs_idle Re.non_ascii)
    by (eapply Forall_impl; [exact Hkept | intros c Hc; by apply kept_parts]).
  rewrite sub_each_idle
    by (eapply Forall_impl; [exact Hkept | intros c Hc; by apply kept_parts]).
  exact Hs.
Qed.

(** X19.  Cleaning is idempotent: a cleaned text is left as it is by
    [_clean_text]. *)
Theorem clean_text_idempotent (text : str) :
  _clean_text (_clean_text text) = _clean_text text.
Proof.
  set (c := _clean_text text).
  destruct (clean_text_pairs text) as (Hds & Hsbm & Hlas). fold c in Hds, Hsbm, Hlas.
  pose proof (clean_text_kept text) as Hkept. fold c in Hkept.
  rewrite (clean_text_squeezed c), (squeezed_idle c Hkept Hds).
  unfold c at 1. rewrite clean_text_trimmed. fold c.
  rewrite (sub_space_before_mark_idle c [] None); [|constructor|done].
  cbn [rev app].
  apply (sub_space_after_sentence_idle c None None); cbn [unread]; try done.
  eapply Forall_impl; [exact Hkept | intros x Hx; by apply kept_parts].
Qed.

(** *** A text without a character that is kept *)

Lemma lstrip_spaces (l : str) : Forall (fun c => isspace c = true) l -> lstrip l = [].
Proof. induction 1 as [|c l Hc _ IH]; [done|]. cbn [lstrip]. by rewrite Hc. Qed.

Lemma squeezed_dropped (text : str) :
  Forall (fun c => dropped c = true) text ->
  Forall (fun c => isspace c = true) (squeezed text).
Proof.
  intros Hall. unfold squeezed.
  set (s1 := Re.sub_runs Re.is_space (lit " ") false text).
  set (s2 := Re.sub_runs Re.non_ascii (lit " ") false s1).
  set (s3 := Re.sub_each Re.garbled (lit " ") s2).
  assert (Forall (fun c => dropped c = true /\ only_space c = true) s1) as H1.
  { apply sub_runs_chars; [by repeat constructor|].
    eapply Forall_impl; [exact Hall|].
    intros c Hc Hs. split; [done|]. by apply space_only_space. }
  assert (Forall (fun c => c = " "%char \/ Re.garbled c = true) s2) as H2.
  { apply sub_runs_chars; [repeat constructor; by left|].
    eapply Forall_impl; [exact H1|].
    intros c [Hd Hs] Hn. unfold dropped in Hd. unfold only_space in Hs.
    rewrite Hn, orb_false_r in Hd.
    destruct (isspace c); [|right; exact Hd].
    left. by apply Ascii.eqb_eq in Hs. }
  assert (Forall (fun c => c = " "%char) s3) as H3.
  { apply sub_each_chars; [by repeat constructor|].
    eapply Forall_impl; [exact H2|].
    intros c [->|Hg] Hn; [done | congruence]. }
  apply sub_runs_chars; [by repeat constructor|].
  eapply Forall_impl; [exact H3|].
  intros c -> Hn. discriminate Hn.
Qed.

Lemma clean_text_dropped (text : str) :
  Forall (fun c => dropped c = true) text -> _clean_text text = [].
Proof.
  intros Hall. rewrite clean_text_squeezed.
  assert (strip (squeezed text) = []) as ->; [|done].
  unfold strip. by rewrite (lstrip_spaces _ (squeezed_dropped text Hall)).
Qed.

(** X20.  A text file that is not blank but holds nothing that the cleaning
    keeps (white space, characters outside ASCII and characters of the class
    of line 235 only) gives one document, and its content is the empty
    string; the chunk size is taken not to be negative. *)
Theorem unreadable_text_gives_empty_document (fuel : nat) (self : DocumentProcessor.t)
  (text file_path : str) :
  Forall (fun c => dropped c = true) text ->
  strip text <> [] ->
  0 <= DocumentProcessor.chunk_size self ->
  exists doc,
    _process_txt fuel self (Returned text) file_path = Some [doc]
    /\ SimpleVectorStore.content doc = SimpleVectorStore.JStr [].
Proof.
  intros Hall Hblank Hcs. unfold _process_txt, documents_of_text.
  destruct (strip text) as [|c s] eqn:E; [done|]. cbn [truthy].
  rewrite (clean_text_dropped text Hall).
  unfold DocumentProcessor._chunk_text.
  destruct (Z.leb_spec (len (@nil ascii)) (DocumentProcessor.chunk_size self)) as [_|H];
    [|unfold len in H; cbn in H; lia].
  eexists. split; [reflexivity|]. reflexivity.
Qed.

Lemma unreadable_text_gives_empty_document_witness :
  (Forall (fun c => dropped c = true) (lit "~ | \ ~")
   /\ strip (lit "~ | \ ~") <> []
   /\ 0 <= DocumentProcessor.chunk_size ChunkerSpec.default)
  /\ exists doc,
       _process_txt 1 ChunkerSpec.default (Returned (lit "~ | \ ~")) (lit "docs/a.txt")
       = Some [doc]
       /\ SimpleVectorStore.content doc = SimpleVectorStore.JStr [].
Proof.
  assert (Forall (fun c => dropped c = true) (lit "~ | \ ~")
          /\ strip (lit "~ | \ ~") <> []
          /\ 0 <= DocumentProcessor.chunk_size ChunkerSpec.default) as H.
  { split; [by repeat constructor|]. split; [by vm_compute | by vm_compute]. }
  split; [exact H|].
  apply (unreadable_text_gives_empty_document 1 ChunkerSpec.default
           (lit "~ | \ ~") (lit "docs/a.txt")); apply H.
Defined.

End CleaningProperties.

(** ** From files to documents *)

Module IngestionProperties.
Import SimpleVectorStore DocumentFiles IngestionSpec.

Ltac absent :=
  unfold plain_name;
  match goal with
  | |- ?x ∉ ?l => apply (bool_decide_eq_false_1 (x ∈ l)); vm_compute; reflexivity
  end.

(** *** [os.path.basename] after [os.path.join] *)

Lemma rfind_scan_app (l1 l2 : str) (ch : ascii) (s e : Z) :
  forall i best,
    rfind_scan (l1 ++ l2) ch s e i best
    = rfind_scan l2 ch s e (i + len l1) (rfind_scan l1 ch s e i best).
Proof.
  induction l1 as [|c l1 IH]; intros i best; cbn [app rfind_scan].
  - unfold len. cbn. by rewrite Z.add_0_r.
  - rewrite IH. f_equal. unfold len. cbn [length]. lia.
Qed.

Lemma rfind_last (before name : str) (ch : ascii) :
  ch ∉ name ->
  rfind (before ++ ch :: name) ch 0 (len (before ++ ch :: name)) = len before.
Proof.
  intros Hout. unfold rfind, rfind_start, rfind_stop.
  assert (0 <= len before < len (before ++ ch :: name)) as Hlen.
  { unfold len. rewrite length_app. cbn [length]. lia. }
  destruct (Z.gtb_spec (len (before ++ ch :: name)) (len (before ++ ch :: name)));
    [lia|].
  destruct (Z.ltb_spec (len (before ++ ch :: name)) 0); [lia|].
  destruct (Z.ltb_spec 0 0); [lia|].
  rewrite rfind_scan_app. cbn [rfind_scan].
  rewrite ChunkingProperties.rfind_scan_absent by done.
  rewrite Ascii.eqb_refl, andb_true_r.
  destruct (Z.leb_spec 0 (0 + len before)); [|lia].
  destruct (Z.ltb_spec (0 + len before) (len (before ++ ch :: name))); [|lia].
  cbn [andb]. lia.
Qed.

Lemma slice_from {A : Type} (before l : list A) :
  slice (before ++ l) (len before) (len (before ++ l)) = l.
Proof.
  unfold slice, adjust.
  assert (0 <= len before <= len (before ++ l)) as Hlen.
  { unfold len. rewrite length_app. lia. }
  destruct (Z.ltb_spec (len before) 0); [lia|].
  destruct (Z.ltb_spec (len (before ++ l)) 0); [lia|].
  rewrite !Z.min_l by lia.
  unfold len. rewrite Nat2Z.id, drop_app_length.
  apply take_ge. rewrite length_app. lia.
Qed.

Lemma basename_after_slash (before name : str) :
  plain_name name -> basename (before ++ "/"%char :: name) = name.
Proof.
  intros Hname. unfold basename. rewrite rfind_last by done.
  replace (before ++ "/"%char :: name) with ((before ++ ["/"%char]) ++ name)
    by (by rewrite <- app_assoc).
  replace (len before + 1) with (len (before ++ ["/"%char]))
    by (unfold len; rewrite length_app; cbn [length]; lia).
  apply slice_from.
Qed.

Lemma basename_plain (name : str) : plain_name name -> basename name = name.
Proof.
  intros Hname. unfold basename.
  rewrite ChunkingProperties.rfind_absent by done.
  change (-1 + 1) with (len (@nil ascii)). apply (slice_from []).
Qed.

Lemma basename_join (directory name : str) :
  plain_name name -> basename (path_join directory name) = name.
Proof.
  intros Hname. unfold path_join.
  destruct name as [|c name'] eqn:E.
  - destruct (negb (truthy directory) || bool_decide (last directory = Some "/"%char))
      eqn:Ed.
    + rewrite app_nil_r. apply orb_prop in Ed as [Ed|Ed].
      * destruct directory; [done | discriminate].
      * apply bool_decide_eq_true in Ed. apply last_Some in Ed as [d ->].
        by apply (basename_after_slash d []).
    + by apply (basename_after_slash directory []).
  - rewrite <- E in *. 
    assert (match name with
            | "/"%char :: _ => name
            | _ => if negb (truthy directory)
                        || bool_decide (last directory = Some "/"%char)
                   then directory ++ name else directory ++ "/"%char :: name
            end
            = if negb (truthy directory)
                 || bool_decide (last directory = Some "/"%char)
              then directory ++ name else directory ++ "/"%char :: name) as Hjoin.
    { subst name. destruct (Ascii.eqb_spec c "/") as [->|Hc].
      - exfalso. apply Hname. left.
      - destruct c as [[|] [|] [|] [|] [|] [|] [|] [|]]; try done. }
    subst name. rewrite Hjoin. clear Hjoin.
    destruct (negb (truthy directory) || bool_decide (last directory = Some "/"%char))
      eqn:Ed; [|by apply basename_after_slash].
    apply orb_prop in Ed as [Ed|Ed].
    + destruct directory; [by apply basename_plain | discriminate].
    + apply bool_decide_eq_true in Ed. apply last_Some in Ed as [d ->].
      rewrite <- app_assoc. by apply basename_after_slash.
Qed.

(** *** Chunk ids *)

Lemma digits_no_underscore (d : Decimal.uint) :
  "_"%char ∉ lit (NilEmpty.string_of_uint d).
Proof.
  induction d as [|d IH|d IH|d IH|d IH|d IH|d IH|d IH|d IH|d IH|d IH];
    cbn [NilEmpty.string_of_uint lit list_ascii_of_string];
    [apply not_elem_of_nil|..];
    fold (lit (NilEmpty.string_of_uint d));
    rewrite elem_of_cons; (intros [?|?]; [discriminate | done]).
Qed.

Lemma lit_inj (a b : string) : lit a = lit b -> a = b.
Proof.
  intros H. apply (f_equal string_of_list_ascii) in H.
  unfold lit in H. by rewrite !string_of_list_ascii_of_string in H.
Qed.

Lemma str_of_nat_inj (i j : nat) : str_of_nat i = str_of_nat j -> i = j.
Proof.
  unfold str_of_nat. intros H. apply lit_inj in H.
  apply DecimalNat.Unsigned.to_uint_inj.
  assert (Some (Nat.to_uint i) = Some (Nat.to_uint j)) as Hs
    by (by rewrite <- !NilEmpty.usu, H).
  by injection Hs.
Qed.

Lemma split_at_first (ch : ascii) (a1 b1 a2 b2 : str) :
  ch ∉ a1 -> ch ∉ a2 -> a1 ++ ch :: b1 = a2 ++ ch :: b2 -> a1 = a2 /\ b1 = b2.
Proof.
  revert a2. induction a1 as [|x a1 IH]; intros [|y a2] H1 H2 H; cbn [app] in H.
  - by injection H.
  - injection H as -> _. exfalso. apply H2. left.
  - injection H as -> _. exfalso. apply H1. left.
  - injection H as -> H.
    destruct (IH a2) as [-> ->]; [| |done|done].
    + intros Hin. apply H1. by right.
    + intros Hin. apply H2. by right.
Qed.

Lemma chunk_name_inj (f1 f2 : str) (i1 i2 : nat) :
  chunk_name f1 i1 = chunk_name f2 i2 -> f1 = f2 /\ i1 = i2.
Proof.
  unfold chunk_name. intros H. apply (f_equal (@rev ascii)) in H.
  rewrite !rev_app_distr in H.
  change (rev (lit "_chunk_")) with ("_"%char :: lit "knuhc_") in H.
  rewrite <- !app_assoc in H. cbn [app] in H.
  apply split_at_first in H as [Hd Hf].
  - apply (f_equal (@rev ascii)) in Hd. rewrite !rev_involutive in Hd.
    apply str_of_nat_inj in Hd.
    apply app_inv_head in Hf. apply (f_equal (@rev ascii)) in Hf.
    by rewrite !rev_involutive in Hf.
  - rewrite list_elem_of_In, <- in_rev, <- list_elem_of_In. apply digits_no_underscore.
  - rewrite list_elem_of_In, <- in_rev, <- list_elem_of_In. apply digits_no_underscore.
Qed.

Lemma make_documents_ids (file_type file_path : str) (chunks : list str) :
  chunk_id <$> make_documents file_type file_path chunks
  = (fun i => JStr (chunk_name (basename file_path) i)) <$> seq 0 (length chunks).
Proof.
  unfold make_documents. apply list_eq. intros i.
  rewrite !list_lookup_fmap, list_lookup_imap.
  destruct (chunks !! i) as [chunk|] eqn:E.
  - rewrite lookup_seq_lt by (by eapply lookup_lt_Some). done.
  - rewrite lookup_seq_ge by (by apply lookup_ge_None). done.
Qed.

Lemma make_documents_chunks (file_type directory name : str) (chunks : list str) :
  plain_name name ->
  file_type ∈ supported ->
  endswith (map SimpleEmbeddingService.lower name) ("."%char :: file_type) = true ->
  Forall (chunk_of directory name)
         (make_documents file_type (path_join directory name) chunks).
Proof.
  intros Hname Htype Hext. apply Forall_lookup. intros i doc Hdoc.
  unfold make_documents in Hdoc. rewrite list_lookup_imap in Hdoc.
  destruct (chunks !! i) as [chunk|] eqn:E; [|done].
  injection Hdoc as <-. rewrite basename_join by done.
  exists file_type, chunk, i, (length chunks).
  split; [by eapply lookup_lt_Some | done].
Qed.

(** What one file gives: nothing, or the documents of some chunks. *)
Lemma process_file_documents (fuel : nat) (self : DocumentProcessor.t) (fs : files)
  (directory name : str) (docs : list Document) :
  process_file fuel self fs directory name = Some docs ->
  docs = []
  \/ exists file_type chunks,
       file_type ∈ supported
       /\ endswith (map SimpleEmbeddingService.lower name) ("."%char :: file_type) = true
       /\ docs = make_documents file_type (path_join directory name) chunks.
Proof.
  assert (forall file_type text,
            documents_of_text fuel self file_type (path_join directory name) text
            = Some docs ->
            docs = [] \/ exists chunks,
              docs = make_documents file_type (path_join directory name) chunks)
    as Htext.
  { intros file_type text. unfold documents_of_text.
    destruct (truthy (strip text)); [|intros [= <-]; by left].
    destruct (DocumentProcessor._chunk_text _ _ _) as [chunks|]; [|done].
    intros [= <-]. right. by exists chunks. }
  unfold process_file.
  destruct (endswith _ (lit ".pdf")) eqn:Epdf.
  { unfold _process_pdf. destruct (pdf_at _ _) as [pages|]; [|intros [= <-]; by left].
    intros H. destruct (Htext _ _ H) as [->|[chunks ->]]; [by left|].
    right. exists (lit "pdf"), chunks. split; [|done]. by repeat constructor. }
  destruct (endswith _ (lit ".docx")) eqn:Edocx.
  { unfold _process_docx. destruct (docx_at _ _) as [ps|]; [|intros [= <-]; by left].
    intros H. destruct (Htext _ _ H) as [->|[chunks ->]]; [by left|].
    right. exists (lit "docx"), chunks. split; [|done]. by repeat constructor. }
  destruct (endswith _ (lit ".doc")) eqn:Edoc.
  { unfold _process_doc. destruct (doc_at _ _) as [[code out]|]; [|intros [= <-]; by left].
    destruct (code =? 0); [|intros [= <-]; by left].
    intros H. destruct (Htext _ _ H) as [->|[chunks ->]]; [by left|].
    right. exists (lit "doc"), chunks. split; [|done]. by repeat constructor. }
  destruct (endswith _ (lit ".txt")) eqn:Etxt; [|intros [= <-]; by left].
  unfold _process_txt. destruct (txt_at _ _) as [text|]; [|intros [= <-]; by left].
  intros H. destruct (Htext _ _ H) as [->|[chunks ->]]; [by left|].
  right. exists (lit "txt"), chunks. split; [|done]. by repeat constructor.
Qed.

(** X21.  Every document that [process_documents_from_directory] returns
    is a chunk of a listed file with one of the four supported endings
    (whatever the case of the letters): its source is that file's name, its
    id the name and the index of the chunk, and its metadata tell the file
    type, the path, the index and the number of chunks of the file. *)
Theorem directory_documents_name_their_file (fuel : nat) (self : DocumentProcessor.t)
  (fs : files) (directory : str) (listing : list str) (docs : list Document) :
  Forall plain_name listing ->
  process_documents_from_directory fuel self fs directory (Some listing) = Some docs ->
  Forall (fun doc => exists name, name ∈ listing /\ chunk_of directory name doc) docs.
Proof.
  cbn [process_documents_from_directory]. intros Hnames. revert docs.
  induction Hnames as [|name listing Hname _ IH]; intros docs; cbn [process_files].
  - by intros [= <-].
  - destruct (process_file fuel self fs directory name) as [docs1|] eqn:E1; [|done].
    destruct (process_files fuel self fs directory listing) as [docs2|]; [|done].
    intros [= <-]. apply Forall_app. split.
    + apply process_file_documents in E1 as [->|(ft & chunks & Hft & Hext & ->)];
        [done|].
      eapply Forall_impl; [by apply make_documents_chunks|].
      intros doc Hdoc. exists name. split; [left | done].
    + eapply Forall_impl; [by apply IH|].
      intros doc (name' & Hin & Hdoc). exists name'. split; [by right | done].
Qed.

Lemma directory_documents_name_their_file_witness :
  (Forall plain_name sample_listing
   /\ process_documents_from_directory 1 ChunkerSpec.default sample_files (lit "docs")
        (Some sample_listing) = Some sample_documents)
  /\ Forall (fun doc => exists name,
               name ∈ sample_listing /\ chunk_of (lit "docs") name doc)
       sample_documents.
Proof.
  assert (Forall plain_name sample_listing
          /\ process_documents_from_directory 1 ChunkerSpec.default sample_files
               (lit "docs") (Some sample_listing) = Some sample_documents) as H.
  { split.
    - unfold sample_listing.
      repeat (constructor; [absent|]). constructor.
    - unfold sample_documents. cbv -[make_documents]. reflexivity. }
  split; [exact H|].
  apply (directory_documents_name_their_file 1 ChunkerSpec.default sample_files
           (lit "docs") sample_listing sample_documents); apply H.
Defined.

(** X22.  The chunk ids of the documents of a directory are pairwise
    different, the names of a listing being different from one another. *)
Theorem directory_chunk_ids_differ (fuel : nat) (self : DocumentProcessor.t)
  (fs : files) (directory : str) (listing : list str) (docs : list Document) :
  Forall plain_name listing ->
  NoDup listing ->
  process_documents_from_directory fuel self fs directory (Some listing) = Some docs ->
  NoDup (chunk_id <$> docs).
Proof.
  cbn [process_documents_from_directory]. intros Hnames Hnodup Hdocs.
  assert (NoDup (chunk_id <$> docs)
          /\ Forall (fun id => exists name i,
                        name ∈ listing /\ id = JStr (chunk_name name i))
                    (chunk_id <$> docs)) as [H _]; [|done].
  revert docs Hdocs Hnodup.
  induction Hnames as [|name listing Hname _ IH]; intros docs; cbn [process_files].
  - intros [= <-] _. split; constructor.
  - destruct (process_file fuel self fs directory name) as [docs1|] eqn:E1; [|done].
    destruct (process_files fuel self fs directory listing) as [docs2|]; [|done].
    intros [= <-] Hnodup. apply NoDup_cons in Hnodup as [Hfresh Hnodup].
    destruct (IH docs2 eq_refl Hnodup) as [Hnd2 Hall2].
    assert (exists n, chunk_id <$> docs1
                      = (fun i => JStr (chunk_name name i)) <$> seq 0 n) as [n Hids].
    { apply process_file_documents in E1 as [->|(ft & chunks & _ & _ & ->)];
        [by exists 0%nat|].
      exists (length chunks). by rewrite make_documents_ids, basename_join. }
    rewrite fmap_app, Hids. split.
    + apply NoDup_app. split; [|split; [|done]].
      * apply NoDup_fmap_2; [|apply NoDup_seq].
        intros i j [= Hij]. by apply chunk_name_inj in Hij as [_ ->].
      * intros id Hin1 Hin2.
        apply list_elem_of_fmap in Hin1 as (i & -> & _).
        rewrite Forall_forall in Hall2.
        destruct (Hall2 _ Hin2) as (name' & j & Hin & [= Heq]).
        apply chunk_name_inj in Heq as [-> _]. done.
    + apply Forall_app. split.
      * apply Forall_forall. intros id Hin.
        apply list_elem_of_fmap in Hin as (i & -> & _).
        exists name, i. split; [left | done].
      * eapply Forall_impl; [exact Hall2|].
        intros id (name' & j & Hin & ->). exists name', j. split; [by right | done].
Qed.

Lemma directory_chunk_ids_differ_witness :
  (Forall plain_name sample_listing
   /\ NoDup sample_listing
   /\ process_documents_from_directory 1 ChunkerSpec.default sample_files (lit "docs")
        (Some sample_listing) = Some sample_documents)
  /\ NoDup (chunk_id <$> sample_documents).
Proof.
  assert (Forall plain_name sample_listing
          /\ NoDup sample_listing
          /\ process_documents_from_directory 1 ChunkerSpec.default sample_files
               (lit "docs") (Some sample_listing) = Some sample_documents) as H.
  { split; [|split].
    - unfold sample_listing.
      repeat (constructor; [absent|]). constructor.
    - apply (bool_decide_eq_true_1 (NoDup sample_listing)). vm_compute. reflexivity.
    - unfold sample_documents. cbv -[make_documents]. reflexivity. }
  split; [exact H|].
  apply (directory_chunk_ids_differ 1 ChunkerSpec.default sample_files
           (lit "docs") sample_listing sample_documents); apply H.
Defined.

(** *** Pages of a PDF *)

(** X23.  A page of a PDF whose extraction raises, or gives the empty
    string, changes nothing: the documents are those of the file without
    that page. *)
Theorem pdf_page_without_text_is_skipped (fuel : nat) (self : DocumentProcessor.t)
  (before after : list (outcome str)) (page : outcome str) (file_path : str) :
  empty_page page ->
  _process_pdf fuel self (Returned (before ++ page :: after)) file_path
  = _process_pdf fuel self (Returned (before ++ after)) file_path.
Proof.
  intros Hpage. unfold _process_pdf. f_equal.
  induction before as [|p before IH]; cbn [app pdf_text].
  - destruct page as [page_text|]; [|done]. cbn [empty_page] in Hpage. by subst.
  - destruct p; by rewrite IH.
Qed.

Lemma pdf_page_without_text_is_skipped_witness :
  empty_page (Raised OSError)
  /\ _process_pdf 1 ChunkerSpec.default
       (Returned ([Returned (lit "Page one.")] ++ Raised OSError :: [Returned (lit "Page three.")]))
       (lit "docs/a.pdf")
     = _process_pdf 1 ChunkerSpec.default
         (Returned ([Returned (lit "Page one.")] ++ [Returned (lit "Page three.")]))
         (lit "docs/a.pdf").
Proof.
  split; [exact I|].
  apply (pdf_page_without_text_is_skipped 1 ChunkerSpec.default
           [Returned (lit "Page one.")] [Returned (lit "Page three.")]
           (Raised OSError) (lit "docs/a.pdf")).
  exact I.
Defined.

End IngestionProperties.

(** ** Citations *)

Module CitationProperties.
Import GeminiService CitationSpec CleaningSpec ChunkingSpec.

Example split_stops_sample :
  split_stops [] false (lit " a .!? b.") = [lit " a "; lit " b"; []].
Proof. reflexivity. Qed.

Lemma split_stops_pieces (text : str) :
  forall cur in_run,
    Forall (fun c => Re.one_of (lit ".!?") c = false) cur ->
    Forall (Forall (fun c => Re.one_of (lit ".!?") c = false))
           (split_stops cur in_run text).
Proof.
  induction text as [|c text IH]; intros cur in_run Hcur; cbn [split_stops].
  - constructor; [by apply Forall_rev | constructor].
  - destruct (Re.one_of (lit ".!?") c) eqn:E.
    + destruct in_run; [by apply IH|].
      constructor; [by apply Forall_rev | by apply IH].
    + apply IH. by constructor.
Qed.

Lemma sub_runs_head (text : str) :
  head_solid text -> text <> [] ->
  head_solid (Re.sub_runs Re.is_space (lit " ") false text)
  /\ Re.sub_runs Re.is_space (lit " ") false text <> [].
Proof.
  destruct text as [|c text]; [done|]. cbn [head_solid Re.sub_runs].
  unfold Re.is_space. intros Hc _. by rewrite Hc.
Qed.

Lemma sub_runs_last (text : str) (c : ascii) :
  last text = Some c -> isspace c = false ->
  forall in_run, last (Re.sub_runs Re.is_space (lit " ") in_run text) = Some c.
Proof.
  intros Hlast Hc. induction text as [|x text IH]; intros in_run; [done|].
  cbn [Re.sub_runs]. destruct text as [|y text].
  - injection Hlast as ->. unfold Re.is_space. by rewrite Hc.
  - rewrite last_cons_cons in Hlast. specialize (IH Hlast).
    destruct (Re.is_space x).
    + by rewrite last_app, IH.
    + by rewrite last_cons, IH.
Qed.

Lemma sentence_tidy (piece : str) :
  Forall (fun c => Re.one_of (lit ".!?") c = false) piece ->
  30 < len (strip piece) ->
  tidy (Re.sub_runs Re.is_space (lit " ") false (strip piece)).
Proof.
  intros Hstops Hlen.
  assert (strip piece <> []) as Hne by (intros H; rewrite H in Hlen; by cbn in Hlen).
  destruct (sub_runs_head (strip piece)) as [Hhead Hout];
    [apply ChunkingProperties.strip_head_solid | done |].
  split; [done|]. split; [|split].
  - apply CleaningProperties.strip_fixed; [done|].
    destruct (last (strip piece)) as [c|] eqn:E.
    + rewrite (sub_runs_last _ c E (CleaningProperties.strip_last _ _ E)).
      intros ? [= <-]. by apply (CleaningProperties.strip_last piece).
    + by apply last_None in E.
  - apply CleaningProperties.sub_runs_chars; [by repeat constructor|].
    eapply Forall_impl; [by apply CleaningProperties.strip_chars|].
    by intros c Hc _.
  - intros a b Hab Ha.
    pose proof (CleaningProperties.pairs_ok_adjacent double_space None _ a b
                  (CleaningProperties.sub_runs_single (strip piece) false None
                     ltac:(by intros _ p)) Hab) as Hbad.
    unfold double_space in Hbad. by rewrite Ha in Hbad.
Qed.

Lemma elem_of_slice_to {A : Type} (l : list A) (k : Z) (x : A) :
  x ∈ slice_to l k -> x ∈ l.
Proof.
  unfold slice_to, slice. intros H.
  by apply subseteq_take, subseteq_drop in H.
Qed.

Lemma length_slice_to {A : Type} (l : list A) (k : Z) :
  0 <= k -> (length (slice_to l k) <= Z.to_nat k)%nat.
Proof.
  intros Hk. rewrite SearchFacts.slice_to_take by done. rewrite length_take. lia.
Qed.

Lemma relevant_sentences_tidy (content : str) :
  Forall tidy (_extract_relevant_sentences content).
Proof.
  apply Forall_forall. intros sentence Hin.
  apply elem_of_slice_to in Hin. apply list_elem_of_In, in_flat_map in Hin.
  destruct Hin as (piece & Hpiece & Hin). apply list_elem_of_In in Hpiece.
  cbv zeta in Hin.
  destruct (Z.gtb_spec (len (strip piece)) 30) as [Hlen|]; cbn [In] in Hin; [|done].
  destruct Hin as [<-|[]]. apply sentence_tidy; [|done].
  pose proof (split_stops_pieces content [] false ltac:(constructor)) as Hall.
  rewrite Forall_forall in Hall. by apply Hall.
Qed.

(** X24.  [_extract_relevant_sentences] gives at most three sentences; each
    is not empty, has no white space at its ends, no two white-space
    characters side by side, and no full stop, exclamation or question
    mark. *)
Theorem relevant_sentences_are_tidy (content : str) :
  (length (_extract_relevant_sentences content) <= 3)%nat
  /\ Forall tidy (_extract_relevant_sentences content).
Proof.
  split; [by apply (length_slice_to _ 3) | apply relevant_sentences_tidy].
Qed.

(** *** The loops *)

Section Loops.
Context (validate : SimpleVectorStore.json -> outcome str) (Q : Citation -> Prop).

Lemma cite_sentences_all (doc_source : SimpleVectorStore.json) (sentences : list str) :
  (forall sentence checked,
     sentence ∈ sentences -> 20 < len (strip sentence) ->
     validate doc_source = Returned checked ->
     Q (mkCitation (strip sentence) checked)) ->
  forall citations result,
    Forall Q citations ->
    cite_sentences validate doc_source sentences citations = Returned result ->
    Forall Q result.
Proof.
  induction sentences as [|sentence rest IH]; intros Hnew citations result Hall;
    cbn [cite_sentences].
  - by intros [= <-].
  - assert (forall s checked, s ∈ rest -> 20 < len (strip s) ->
              validate doc_source = Returned checked ->
              Q (mkCitation (strip s) checked)) as Hrest
      by (intros s checked Hs; apply Hnew; by right).
    destruct (Z.gtb_spec (len (strip sentence)) 20) as [Hlen|]; [|by apply IH].
    destruct (validate doc_source) as [checked|] eqn:Ev; [|done].
    rewrite StoreFacts.bind_now.
    assert (Forall Q (citations ++ [mkCitation (strip sentence) checked])) as Hall'.
    { apply Forall_app. split; [done|]. constructor; [|constructor].
      apply Hnew; [left | done | done]. }
    destruct (_ >=? 6); [by intros [= <-] | by apply IH].
Qed.

Lemma cite_documents_all (documents : list SimpleVectorStore.Document) :
  (forall doc content sentence checked,
     doc ∈ documents ->
     SimpleVectorStore.content doc = SimpleVectorStore.JStr content ->
     sentence ∈ _extract_relevant_sentences content ->
     20 < len (strip sentence) ->
     validate (SimpleVectorStore.source doc) = Returned checked ->
     Q (mkCitation (strip sentence) checked)) ->
  forall citations result,
    Forall Q citations ->
    cite_documents validate documents citations = Returned result ->
    Forall Q result.
Proof.
  induction documents as [|doc rest IH]; intros Hnew citations result Hall;
    cbn [cite_documents].
  - by intros [= <-].
  - destruct (SimpleVectorStore.content doc) as [| | |content| |] eqn:Ec;
      cbn [as_text]; try done.
    rewrite StoreFacts.bind_now.
    destruct (cite_sentences validate (SimpleVectorStore.source doc)
                (_extract_relevant_sentences content) citations)
      as [citations'|] eqn:Es; [|done].
    rewrite StoreFacts.bind_now.
    assert (Forall Q citations') as Hall'.
    { eapply cite_sentences_all; [|exact Hall|exact Es].
      intros sentence checked Hin Hlen Hv.
      by apply (Hnew doc content); [left|..]. }
    destruct (_ >=? 6); [by intros [= <-]|].
    apply IH; [|done].
    intros d c s checked Hd. apply Hnew. by right.
Qed.

End Loops.

Lemma Forall_part {A : Type} (P : A -> Prop) (l1 l2 : list A) :
  l1 `sublist_of` l2 -> Forall P l2 -> Forall P l1.
Proof.
  induction 1 as [|x l1 l2 _ IH|x l1 l2 _ IH]; intros H; [done| |].
  - apply Forall_cons in H as [Hx H]. constructor; [done | by apply IH].
  - apply Forall_cons in H as [_ H]. by apply IH.
Qed.

Lemma unique_citations_spec (citations : list Citation) :
  forall seen,
    NoDup (text <$> unique_citations seen citations)
    /\ Forall (fun c => text c ∉ seen) (unique_citations seen citations)
    /\ unique_citations seen citations `sublist_of` citations.
Proof.
  induction citations as [|c rest IH]; intros seen; cbn [unique_citations].
  - split; [constructor|]. split; constructor.
  - destruct (decide (text c ∈ seen)) as [Hin|Hout].
    + destruct (IH seen) as (Hnd & Hseen & Hsub).
      split; [done|]. split; [done | by constructor].
    + destruct (IH (text c :: seen)) as (Hnd & Hseen & Hsub).
      split; [|split; [|by constructor]].
      * rewrite fmap_cons. constructor; [|done].
        intros Hin. apply list_elem_of_fmap in Hin as (c' & Heq & Hc').
        rewrite Forall_forall in Hseen. apply (Hseen c' Hc'). rewrite <- Heq. left.
      * constructor; [done|]. eapply Forall_impl; [exact Hseen|].
        intros c' Hc' Hin. apply Hc'. by right.
Qed.

(** *** A document that cannot be quoted *)

Section Raising.
Context (validate : SimpleVectorStore.json -> outcome str).

Lemma cite_sentences_count (doc_source : SimpleVectorStore.json) (sentences : list str) :
  forall citations result,
    cite_sentences validate doc_source sentences citations = Returned result ->
    (length result
     <= length citations
        + length (filter (fun sentence => (20 < len (strip sentence))%Z) sentences))%nat.
Proof.
  induction sentences as [|sentence rest IH]; intros citations result;
    cbn [cite_sentences].
  - intros [= <-]. cbn. lia.
  - rewrite filter_cons.
    destruct (Z.gtb_spec (len (strip sentence)) 20) as [Hlen|Hlen].
    + rewrite decide_True by lia.
      destruct (validate doc_source) as [checked|]; [|done].
      rewrite StoreFacts.bind_now.
      destruct (_ >=? 6).
      * intros [= <-]. rewrite length_app. cbn [length]. lia.
      * intros H. apply IH in H. rewrite length_app in H. cbn [length] in *. lia.
    + rewrite decide_False by lia. apply IH.
Qed.

Lemma cite_sentences_refused (doc_source : SimpleVectorStore.json)
  (sentences : list str) (e : exn) :
  validate doc_source = Raised e ->
  filter (fun sentence => 20 < len (strip sentence)) sentences <> [] ->
  forall citations, cite_sentences validate doc_source sentences citations = Raised e.
Proof.
  intros Hv. induction sentences as [|sentence rest IH]; intros Hne citations;
    [done|].
  cbn [cite_sentences]. rewrite filter_cons in Hne.
  destruct (Z.gtb_spec (len (strip sentence)) 20) as [Hlen|Hlen].
  - by rewrite Hv.
  - rewrite decide_False in Hne by lia. by apply IH.
Qed.

Lemma cite_documents_refused (before after : list SimpleVectorStore.Document)
  (bad : SimpleVectorStore.Document) :
  refused validate bad ->
  forall citations,
    (length citations + length (flat_map candidates before) < 6)%nat ->
    exists e, cite_documents validate (before ++ bad :: after) citations = Raised e.
Proof.
  intros Hbad. induction before as [|doc before IH]; intros citations Hfew;
    cbn [app cite_documents].
  - destruct Hbad as [[e He]|(Hne & e & He)].
    + rewrite He. by exists e.
    + unfold candidates in Hne.
      destruct (SimpleVectorStore.content bad) as [| | |content| |]; try done.
      cbn [as_text]. rewrite StoreFacts.bind_now.
      rewrite (cite_sentences_refused _ _ e He Hne). by exists e.
  - cbn [flat_map] in Hfew. rewrite length_app in Hfew.
    unfold candidates at 1 in Hfew.
    destruct (SimpleVectorStore.content doc) as [| | |content| |];
      cbn [as_text]; try (by eexists).
    rewrite StoreFacts.bind_now.
    destruct (cite_sentences validate (SimpleVectorStore.source doc)
                (_extract_relevant_sentences content) citations)
      as [citations'|e] eqn:Es; [|by exists e].
    rewrite StoreFacts.bind_now.
    apply cite_sentences_count in Es.
    destruct (Z.geb_spec (len citations') 6) as [Hsix|_];
      [unfold len in Hsix; lia|].
    apply IH. lia.
Qed.

End Raising.

(** X25.  [_extract_citations] returns at most four citations, no two with
    the same text; each text is longer than 20 characters and is a tidy
    sentence of one of the given documents, quoted under that document's
    source.  And it returns the empty list, dropping what it had found, as
    soon as it comes to a document that cannot be quoted, one whose content
    is no string or whose source is refused while it has a sentence to
    quote: that is, when the documents before it have fewer than six
    sentences to quote. *)
Theorem citations_are_few_and_different
  (validate : SimpleVectorStore.json -> outcome str)
  (documents : list SimpleVectorStore.Document) (answer : str) :
  let citations := _extract_citations validate documents answer in
  (length citations <= 4)%nat
  /\ NoDup (text <$> citations)
  /\ Forall (fun citation =>
               20 < len (text citation)
               /\ tidy (text citation)
               /\ exists doc, doc ∈ documents /\ quotes validate doc citation)
            citations
  /\ forall before bad after,
       documents = before ++ bad :: after ->
       (length (flat_map candidates before) < 6)%nat ->
       refused validate bad ->
       citations = [].
Proof.
  cbv zeta.
  assert (forall before bad after,
            documents = before ++ bad :: after ->
            (length (flat_map candidates before) < 6)%nat ->
            refused validate bad ->
            _extract_citations validate documents answer = []) as Hrefused.
  { intros before bad after -> Hfew Hbad. unfold _extract_citations.
    by destruct (cite_documents_refused validate before after bad Hbad [] Hfew)
      as [e ->]. }
  unfold _extract_citations in *.
  destruct (cite_documents validate documents []) as [found|] eqn:E;
    [|split; [cbn; lia | split; [constructor | split; [constructor | done]]]].
  destruct (unique_citations_spec found []) as (Hnd & _ & Hsub).
  assert (slice_to (unique_citations [] found) 4 `sublist_of` found) as Hpart
    by (etransitivity; [apply SearchProperties.slice_sublist | exact Hsub]).
  split; [by apply (length_slice_to _ 4)|]. split; [|split; [|done]].
  - eapply sublist_NoDup; [exact Hnd|].
    apply fmap_sublist, SearchProperties.slice_sublist.
  - eapply Forall_part; [exact Hpart|].
    eapply (cite_documents_all validate); [|constructor|exact E].
    intros doc content sentence checked Hdoc Hcontent Hin Hlen Hv.
    pose proof (relevant_sentences_tidy content) as Htidy.
    rewrite Forall_forall in Htidy. specialize (Htidy sentence Hin).
    assert (strip sentence = sentence) as Hs by apply Htidy.
    rewrite Hs in *. cbn [text]. split; [done|]. split; [done|].
    exists doc. split; [done|]. split; [done|]. by exists content.
Qed.

(** Two documents with one sentence each: both are quoted; and nothing is
    quoted when the content of the second is no string. *)
Example citations_sample :
  _extract_citations strings_only [clause "a.txt"; clause "b.txt"] []
  = [mkCitation clause_text (lit "a.txt")]
  /\ _extract_citations strings_only
       [clause "a.txt";
        SimpleVectorStore.mkDocument SimpleVectorStore.JNull
          (SimpleVectorStore.JStr (lit "b.txt")) SimpleVectorStore.JNull
          SimpleVectorStore.JNull] []
     = [].
Proof. split; vm_compute; reflexivity. Qed.

End CitationProperties.
